(** * Promo-code codec and promotion lifecycle of backend/server.py

    A shallow embedding of the promotion core of the backend:
    [encrypt_promo_code], [decrypt_promo_code], [create_post],
    [approve_promo], [reject_promo] and [redeem_promo], over an explicit
    document store (the three MongoDB collections the endpoints touch);
    and of what stands around it: likes and comments, the listings of
    pending requests and of loyalty points, tokens, accounts and
    following (over the users collection).

    Conventions.
    - A Python [str] is a Rocq [string]; [bytes] is [list byte].  The
      conversions [str.encode()] and [bytes.decode()] are operations of the
      platform interface below ([str_encode], [bytes_decode]); a [str] is
      well-formed Unicode text, so [encode] is total while [decode] can
      raise.
    - The third-party pieces the endpoints call (cryptography.fernet,
      base64, bson.ObjectId, datetime.fromisoformat) are the fields of the
      class [Library]; only their functional laws are assumed.
    - An endpoint is a function from the store to an outcome and a store:
      a raised exception keeps whatever was written before it.
    - A collection is the list of its documents in insertion order;
      [find_one] returns the first match and [update_one] rewrites the
      first match. *)

From Stdlib Require Import Strings.String Strings.Ascii Strings.Byte Lists.List ZArith Bool Lia.
From Stdlib Require DecimalString DecimalZ.
Import ListNotations.

Local Open Scope string_scope.
Local Open Scope Z_scope.

(** ** Python strings *)

Definition bytes := list byte.

(** [c in s] for a one-character [c]. *)
Fixpoint contains (c : ascii) (s : string) : bool :=
  match s with
  | EmptyString => false
  | String a rest => if Ascii.eqb a c then true else contains c rest
  end.

(** [s.split(sep)] for a one-character separator: the pieces between the
    occurrences of [sep], never an empty list. *)
Fixpoint str_split (sep : ascii) (s : string) : list string :=
  match s with
  | EmptyString => [EmptyString]
  | String a rest =>
      if Ascii.eqb a sep then EmptyString :: str_split sep rest
      else match str_split sep rest with
           | piece :: pieces => String a piece :: pieces
           | [] => [String a EmptyString]
           end
  end.

Definition delimiter : ascii := "|"%char.

(** ** Exceptions and outcomes *)

Inductive exn : Type :=
| HTTPException (status_code : Z) (detail : string)
| BinasciiError          (* base64.urlsafe_b64decode *)
| InvalidToken           (* fernet.decrypt *)
| UnicodeDecodeError     (* bytes.decode *)
| IndexError             (* parts[i] *)
| InvalidId              (* bson.ObjectId(s) *)
| ValueError.            (* datetime.fromisoformat, or the comparison of an
                            offset-aware expiry with utcnow() (TypeError) *)

Inductive result (A : Type) : Type :=
| Returns (a : A)
| Raises (e : exn).
Arguments Returns {A} a.
Arguments Raises {A} e.

Definition result_bind {A B} (r : result A) (k : A -> result B) : result B :=
  match r with
  | Returns a => k a
  | Raises e => Raises e
  end.

Definition of_option {A} (e : exn) (o : option A) : result A :=
  match o with
  | Some a => Returns a
  | None => Raises e
  end.

(** [try: body except Exception: raise handler]. *)
Definition try_except {A} (body : result A) (handler : exn) : result A :=
  match body with
  | Returns a => Returns a
  | Raises _ => Raises handler
  end.

Declare Scope result_scope.
Delimit Scope result_scope with result.
Notation "x <- r ;; k" := (result_bind r (fun x => k))
  (at level 61, r at next level, right associativity) : result_scope.

(** The error taxonomy of the endpoints, as the HTTP exceptions they raise. *)
Definition Forbidden : exn := HTTPException 403 "Not authorized".
Definition PostNotFound : exn := HTTPException 404 "Post not found".
Definition PromoNotFound : exn := HTTPException 404 "Promo code not found".
Definition InvalidCodeError : exn := HTTPException 400 "Invalid promo code".
Definition RestaurantMismatch : exn :=
  HTTPException 400 "Invalid promo code for this restaurant".
Definition Expired : exn := HTTPException 400 "Promo code expired".

(** ** The platform interface *)

Class Library : Type := {
  (** [fernet.encrypt(data)]: the token depends on the clock and on 16 fresh
      random bytes, passed here as [iv]. *)
  fernet_encrypt : bytes -> bytes -> bytes;
  (** [fernet.decrypt(token)]; [None] is [InvalidToken]. *)
  fernet_decrypt : bytes -> option bytes;
  urlsafe_b64encode : bytes -> bytes;
  (** [None] is [binascii.Error]. *)
  urlsafe_b64decode : bytes -> option bytes;
  str_encode : string -> bytes;
  (** [None] is [UnicodeDecodeError]. *)
  bytes_decode : bytes -> option string;
  (** [bson.ObjectId(s)]; [None] is [InvalidId]. *)
  ObjectId : string -> option nat;
  (** [str(oid)]. *)
  str_of_oid : nat -> string;
  (** [datetime.fromisoformat(s)] as a naive UTC instant; [None] when it
      raises, or when the value is offset-aware so that comparing it with
      [datetime.utcnow()] raises. *)
  fromisoformat : string -> option Z;

  fernet_decrypt_encrypt :
    forall iv data, fernet_decrypt (fernet_encrypt iv data) = Some data;
  urlsafe_b64decode_encode :
    forall b, urlsafe_b64decode (urlsafe_b64encode b) = Some b;
  bytes_decode_encode :
    forall s, bytes_decode (str_encode s) = Some s;
  str_encode_decode :
    forall b s, bytes_decode b = Some s -> str_encode s = b;
  urlsafe_b64encode_text :
    forall b, bytes_decode (urlsafe_b64encode b) <> None;
  fromisoformat_empty :
    fromisoformat "" = None
}.

(** ** The codec *)

(** The dict [decrypt_promo_code] returns. *)
Module Decoded.
Record t : Type := {
  promo_text : string;
  promoter_id : string;
  restaurant_id : string;
  post_id : string;
  dish_id : string
}.
End Decoded.

Section Codec.
Context {L : Library}.

(** [f"{promo_text}|{promoter_id}|{restaurant_id}|{post_id}|{dish_id}"]. *)
Definition promo_data (promo_text promoter_id restaurant_id post_id dish_id : string)
  : string :=
  (promo_text ++ "|" ++ promoter_id ++ "|" ++ restaurant_id ++ "|"
     ++ post_id ++ "|" ++ dish_id)%string.

Definition encrypt_promo_code (iv : bytes)
    (promo_text promoter_id restaurant_id post_id dish_id : string)
  : result string :=
  let data := promo_data promo_text promoter_id restaurant_id post_id dish_id in
  let encrypted := fernet_encrypt iv (str_encode data) in
  of_option UnicodeDecodeError (bytes_decode (urlsafe_b64encode encrypted)).

(** [parts[i]]. *)
Definition item (parts : list string) (i : nat) : result string :=
  of_option IndexError (nth_error parts i).

(** The body of the [try] block. *)
Definition decrypt_promo_code_body (encrypted_code : string)
  : result Decoded.t :=
  (decoded <- of_option BinasciiError
                (urlsafe_b64decode (str_encode encrypted_code)) ;;
   token_data <- of_option InvalidToken (fernet_decrypt decoded) ;;
   decrypted <- of_option UnicodeDecodeError (bytes_decode token_data) ;;
   let parts := str_split delimiter decrypted in
   p0 <- item parts 0 ;;
   p1 <- item parts 1 ;;
   p2 <- item parts 2 ;;
   p3 <- item parts 3 ;;
   p4 <- (if (4 <? length parts)%nat then item parts 4
          else Returns "") ;;
   Returns {| Decoded.promo_text := p0; Decoded.promoter_id := p1;
              Decoded.restaurant_id := p2; Decoded.post_id := p3;
              Decoded.dish_id := p4 |})%result.

Definition decrypt_promo_code (encrypted_code : string) : result Decoded.t :=
  try_except (decrypt_promo_code_body encrypted_code) InvalidCodeError.

End Codec.


(** ** Documents *)

(** Request bodies (the pydantic models). *)
Module PostCreate.
Record t : Type := {
  image_base64 : string;
  caption : string;
  stars : option Z;
  restaurant_tagged_id : option string;
  location : option (list (string * string));
  is_promotion_request : bool;
  promotion_offer_idea : option string
}.
End PostCreate.

Module PromoApprove.
Record t : Type := {
  promo_code_plain_text : string;
  offer_description : string;
  expiry_date : option string
}.
End PromoApprove.

Module PromoRedeem.
Record t : Type := {
  promo_code_encrypted : string;
  redeemer_user_id : string
}.
End PromoRedeem.

(** The token payload [get_current_user] yields. *)
Module Payload.
Record t : Type := {
  user_id : string;
  user_type : string
}.
End Payload.

Inductive PromotionStatus : Type :=
| NA          (* "N/A" *)
| Pending     (* "Pending" *)
| Approved    (* "Approved" *)
| Rejected.   (* "Rejected" *)

(** A document of [db.posts]: the body of the request and what
    [create_post] adds; [promo_code_id] is absent until an approval sets
    it. *)
Module Post.
Record t : Type := {
  _id : nat;
  body : PostCreate.t;
  user_id : string;
  post_type : string;
  likes : list string;
  comments : list (string * string * Z);
  promotion_status : PromotionStatus;
  created_at : Z;
  updated_at : Z;
  promo_code_id : option string
}.

(** [{"$set": {"promotion_status": "Approved", "promo_code_id": id,
               "updated_at": now}}]. *)
Definition set_approved (id : string) (now : Z) (p : t) : t :=
  {| _id := _id p; body := body p; user_id := user_id p;
     post_type := post_type p; likes := likes p; comments := comments p;
     promotion_status := Approved; created_at := created_at p;
     updated_at := now; promo_code_id := Some id |}.

(** [{"$set": {"promotion_status": "Rejected", "updated_at": now}}]. *)
Definition set_rejected (now : Z) (p : t) : t :=
  {| _id := _id p; body := body p; user_id := user_id p;
     post_type := post_type p; likes := likes p; comments := comments p;
     promotion_status := Rejected; created_at := created_at p;
     updated_at := now; promo_code_id := promo_code_id p |}.
End Post.

Module Redemption.
Record t : Type := {
  redeemer_user_id : string;
  redeemed_at : Z;
  restaurant_confirmation_status : string
}.
End Redemption.

(** A document of [db.promocodes]. *)
Module PromoCode.
Record t : Type := {
  _id : nat;
  code_encrypted : string;
  promoter_foodie_id : string;
  restaurant_id : string;
  post_id : string;
  offer_description : string;
  expiry_date : option string;
  redemptions : list Redemption.t;
  created_at : Z
}.

(** [{"$push": {"redemptions": r}}]. *)
Definition push_redemption (r : Redemption.t) (p : t) : t :=
  {| _id := _id p; code_encrypted := code_encrypted p;
     promoter_foodie_id := promoter_foodie_id p;
     restaurant_id := restaurant_id p; post_id := post_id p;
     offer_description := offer_description p;
     expiry_date := expiry_date p;
     redemptions := redemptions p ++ [r]; created_at := created_at p |}.
End PromoCode.

Module Transaction.
Record t : Type := {
  amount : Z;
  type : string;
  source_promo_code_id : string;
  date : Z
}.
End Transaction.

(** A document of [db.loyalty_points]. *)
Module Loyalty.
Record t : Type := {
  _id : nat;
  restaurant_id : string;
  foodie_id : string;
  points : Z;
  transactions : list Transaction.t;
  last_updated : Z
}.

(** [{"$inc": {"points": n}, "$push": {"transactions": tx},
      "$set": {"last_updated": now}}]. *)
Definition credit (n : Z) (tx : Transaction.t) (now : Z) (l : t) : t :=
  {| _id := _id l; restaurant_id := restaurant_id l;
     foodie_id := foodie_id l; points := points l + n;
     transactions := transactions l ++ [tx]; last_updated := now |}.
End Loyalty.

(** ** The store *)

Record store : Type := {
  posts : list Post.t;
  promocodes : list PromoCode.t;
  loyalty_points : list Loyalty.t;
  (** the next object id the driver generates *)
  next_oid : nat
}.

Definition empty_store : store :=
  {| posts := []; promocodes := []; loyalty_points := []; next_oid := 0 |}.

(** [collection.update_one(filter, update)]: the first document that
    matches is rewritten; none matching changes nothing. *)
Fixpoint update_one {A} (filter : A -> bool) (update : A -> A) (docs : list A)
  : list A :=
  match docs with
  | [] => []
  | d :: rest =>
      if filter d then update d :: rest
      else d :: update_one filter update rest
  end.

(** Store-passing computations that may raise. *)
Definition M (A : Type) : Type := store -> result A * store.

Definition ret {A} (a : A) : M A := fun st => (Returns a, st).
Definition raise {A} (e : exn) : M A := fun st => (Raises e, st).
Definition lift {A} (r : result A) : M A := fun st => (r, st).
Definition bind {A B} (m : M A) (k : A -> M B) : M B :=
  fun st =>
    match m st with
    | (Returns a, st') => k a st'
    | (Raises e, st') => (Raises e, st')
    end.

Declare Scope db_scope.
Delimit Scope db_scope with db.
Notation "x <- m ;; k" := (bind m (fun x => k))
  (at level 61, m at next level, right associativity) : db_scope.
Notation "m ;; k" := (bind m (fun _ => k))
  (at level 61, right associativity) : db_scope.

Definition find_one_post (filter : Post.t -> bool) : M (option Post.t) :=
  fun st => (Returns (find filter (posts st)), st).
Definition find_one_promocode (filter : PromoCode.t -> bool)
  : M (option PromoCode.t) :=
  fun st => (Returns (find filter (promocodes st)), st).
Definition find_one_loyalty (filter : Loyalty.t -> bool)
  : M (option Loyalty.t) :=
  fun st => (Returns (find filter (loyalty_points st)), st).

(** [insert_one]: the document gets a fresh [_id], which is returned. *)
Definition insert_one_post (doc : nat -> Post.t) : M nat :=
  fun st =>
    (Returns (next_oid st),
     {| posts := posts st ++ [doc (next_oid st)];
        promocodes := promocodes st;
        loyalty_points := loyalty_points st;
        next_oid := S (next_oid st) |}).
Definition insert_one_promocode (doc : nat -> PromoCode.t) : M nat :=
  fun st =>
    (Returns (next_oid st),
     {| posts := posts st;
        promocodes := promocodes st ++ [doc (next_oid st)];
        loyalty_points := loyalty_points st;
        next_oid := S (next_oid st) |}).
Definition insert_one_loyalty (doc : nat -> Loyalty.t) : M nat :=
  fun st =>
    (Returns (next_oid st),
     {| posts := posts st;
        promocodes := promocodes st;
        loyalty_points := loyalty_points st ++ [doc (next_oid st)];
        next_oid := S (next_oid st) |}).

Definition update_one_post (filter : Post.t -> bool) (update : Post.t -> Post.t)
  : M unit :=
  fun st =>
    (Returns tt,
     {| posts := update_one filter update (posts st);
        promocodes := promocodes st;
        loyalty_points := loyalty_points st;
        next_oid := next_oid st |}).
Definition update_one_promocode (filter : PromoCode.t -> bool)
    (update : PromoCode.t -> PromoCode.t) : M unit :=
  fun st =>
    (Returns tt,
     {| posts := posts st;
        promocodes := update_one filter update (promocodes st);
        loyalty_points := loyalty_points st;
        next_oid := next_oid st |}).
Definition update_one_loyalty (filter : Loyalty.t -> bool)
    (update : Loyalty.t -> Loyalty.t) : M unit :=
  fun st =>
    (Returns tt,
     {| posts := posts st;
        promocodes := promocodes st;
        loyalty_points := update_one filter update (loyalty_points st);
        next_oid := next_oid st |}).

(** ** The endpoints *)

(** The JSON objects the endpoints return. *)
Inductive response : Type :=
| PostCreated (post_id : string) (message : string)
| PromoApproved (message : string) (encrypted_code : string)
| PromoRejected (message : string)
| PromoRedeemed (message : string) (points_awarded : Z).

Section Endpoints.
Context {L : Library}.

(** Each endpoint reads the clock ([datetime.utcnow()]) as [now]. *)

Definition create_post (post : PostCreate.t) (current_user : Payload.t)
    (now : Z) : M response :=
  (inserted_id <- insert_one_post (fun oid =>
     {| Post._id := oid;
        Post.body := post;
        Post.user_id := Payload.user_id current_user;
        Post.post_type :=
          if PostCreate.is_promotion_request post then "Promotion" else "Normal";
        Post.likes := [];
        Post.comments := [];
        Post.promotion_status :=
          if PostCreate.is_promotion_request post then Pending else NA;
        Post.created_at := now;
        Post.updated_at := now;
        Post.promo_code_id := None |}) ;;
   ret (PostCreated (str_of_oid inserted_id) "Post created successfully"))%db.

Definition approve_promo (restaurant_id post_id : string)
    (promo : PromoApprove.t) (current_user : Payload.t)
    (now : Z) (iv : bytes) : M response :=
  if negb (Payload.user_id current_user =? restaurant_id)%string
  then raise Forbidden
  else
    (oid <- lift (of_option InvalidId (ObjectId post_id)) ;;
     found <- find_one_post (fun p => Nat.eqb (Post._id p) oid) ;;
     match found with
     | None => raise PostNotFound
     | Some post =>
         encrypted_code <- lift (encrypt_promo_code iv
                                   (PromoApprove.promo_code_plain_text promo)
                                   (Post.user_id post) restaurant_id post_id
                                   "") ;;
         inserted_id <- insert_one_promocode (fun id =>
           {| PromoCode._id := id;
              PromoCode.code_encrypted := encrypted_code;
              PromoCode.promoter_foodie_id := Post.user_id post;
              PromoCode.restaurant_id := restaurant_id;
              PromoCode.post_id := post_id;
              PromoCode.offer_description :=
                PromoApprove.offer_description promo;
              PromoCode.expiry_date := PromoApprove.expiry_date promo;
              PromoCode.redemptions := [];
              PromoCode.created_at := now |}) ;;
         let promo_code_id := str_of_oid inserted_id in
         update_one_post (fun p => Nat.eqb (Post._id p) oid)
                         (Post.set_approved promo_code_id now) ;;
         ret (PromoApproved "Promo approved" encrypted_code)
     end)%db.

Definition reject_promo (restaurant_id post_id : string)
    (current_user : Payload.t) (now : Z) : M response :=
  if negb (Payload.user_id current_user =? restaurant_id)%string
  then raise Forbidden
  else
    (oid <- lift (of_option InvalidId (ObjectId post_id)) ;;
     update_one_post (fun p => Nat.eqb (Post._id p) oid)
                     (Post.set_rejected now) ;;
     ret (PromoRejected "Promo rejected"))%db.

(** [if promo.get("expiry_date"): ...]: [None] and the empty string are
    falsy. *)
Definition check_expiry (promo : PromoCode.t) (now : Z) : result unit :=
  match PromoCode.expiry_date promo with
  | Some s =>
      if (s =? "")%string then Returns tt
      else
        (expiry <- of_option ValueError (fromisoformat s) ;;
         if now >? expiry then Raises Expired else Returns tt)%result
  | None => Returns tt
  end.

Definition redeem_promo (restaurant_id : string) (redemption : PromoRedeem.t)
    (current_user : Payload.t) (now : Z) : M response :=
  if negb (Payload.user_id current_user =? restaurant_id)%string
  then raise Forbidden
  else
    (decrypted <- lift (decrypt_promo_code
                          (PromoRedeem.promo_code_encrypted redemption)) ;;
     if negb (Decoded.restaurant_id decrypted =? restaurant_id)%string
     then raise RestaurantMismatch
     else
       found <- find_one_promocode
                  (fun p => (PromoCode.post_id p =? Decoded.post_id decrypted)%string) ;;
       match found with
       | None => raise PromoNotFound
       | Some promo =>
           lift (check_expiry promo now) ;;
           let redemption_obj :=
             {| Redemption.redeemer_user_id :=
                  PromoRedeem.redeemer_user_id redemption;
                Redemption.redeemed_at := now;
                Redemption.restaurant_confirmation_status := "Confirmed" |} in
           update_one_promocode
             (fun p => Nat.eqb (PromoCode._id p) (PromoCode._id promo))
             (PromoCode.push_redemption redemption_obj) ;;
           let promoter_id := Decoded.promoter_id decrypted in
           let earned :=
             {| Transaction.amount := 10;
                Transaction.type := "Earned";
                Transaction.source_promo_code_id :=
                  str_of_oid (PromoCode._id promo);
                Transaction.date := now |} in
           loyalty <- find_one_loyalty
                        (fun l => (Loyalty.restaurant_id l =? restaurant_id)%string
                                  && (Loyalty.foodie_id l =? promoter_id)%string) ;;
           match loyalty with
           | Some loyalty =>
               update_one_loyalty
                 (fun l => Nat.eqb (Loyalty._id l) (Loyalty._id loyalty))
                 (Loyalty.credit 10 earned now)
           | None =>
               _ <- insert_one_loyalty (fun id =>
                 {| Loyalty._id := id;
                    Loyalty.restaurant_id := restaurant_id;
                    Loyalty.foodie_id := promoter_id;
                    Loyalty.points := 10;
                    Loyalty.transactions := [earned];
                    Loyalty.last_updated := now |}) ;;
               ret tt
           end ;;
           ret (PromoRedeemed "Promo redeemed successfully" 10)
       end)%db.

End Endpoints.

(** ** Derived notions used in the statements *)

(** The fields Decode returns, read off a list of pieces: the first four,
    and the fifth or the empty string. *)
Definition fields_of (parts : list string) : option Decoded.t :=
  match parts with
  | p0 :: p1 :: p2 :: p3 :: rest =>
      Some {| Decoded.promo_text := p0; Decoded.promoter_id := p1;
              Decoded.restaurant_id := p2; Decoded.post_id := p3;
              Decoded.dish_id := hd EmptyString rest |}
  | _ => None
  end.

Definition ledger_key (restaurant_id foodie_id : string) (l : Loyalty.t) : bool :=
  (Loyalty.restaurant_id l =? restaurant_id)%string
  && (Loyalty.foodie_id l =? foodie_id)%string.

(** The ledger records of a (restaurant, foodie) pair. *)
Definition ledger_of (restaurant_id foodie_id : string) (st : store)
  : list Loyalty.t :=
  List.filter (ledger_key restaurant_id foodie_id) (loyalty_points st).

(** Object ids of the ledger are pairwise distinct and were all generated
    already (what the unique [_id] index and the id generator guarantee). *)
Definition ledger_ids_ok (st : store) : Prop :=
  NoDup (map Loyalty._id (loyalty_points st)) /\
  Forall (fun id => (id < next_oid st)%nat) (map Loyalty._id (loyalty_points st)).

(** What the ledger of a pair looks like after [n] credits. *)
Definition credited (n : nat) (records : list Loyalty.t) : Prop :=
  match n with
  | O => records = []
  | S _ =>
      exists l, records = [l] /\
                Loyalty.points l = 10 * Z.of_nat n /\
                length (Loyalty.transactions l) = n
  end.

Section Derived.
Context {L : Library}.

(** The plaintext record behind a code: base64, then Fernet, then text. *)
Definition plaintext_of (code : string) : result string :=
  (decoded <- of_option BinasciiError (urlsafe_b64decode (str_encode code)) ;;
   token_data <- of_option InvalidToken (fernet_decrypt decoded) ;;
   of_option UnicodeDecodeError (bytes_decode token_data))%result.

(** The PromoCode document an approval inserts. *)
Definition minted (restaurant_id post_id : string) (promo : PromoApprove.t)
    (now : Z) (post : Post.t) (code : string) (id : nat) : PromoCode.t :=
  {| PromoCode._id := id;
     PromoCode.code_encrypted := code;
     PromoCode.promoter_foodie_id := Post.user_id post;
     PromoCode.restaurant_id := restaurant_id;
     PromoCode.post_id := post_id;
     PromoCode.offer_description := PromoApprove.offer_description promo;
     PromoCode.expiry_date := PromoApprove.expiry_date promo;
     PromoCode.redemptions := [];
     PromoCode.created_at := now |}.

Definition redemption_obj (redemption : PromoRedeem.t) (now : Z) : Redemption.t :=
  {| Redemption.redeemer_user_id := PromoRedeem.redeemer_user_id redemption;
     Redemption.redeemed_at := now;
     Redemption.restaurant_confirmation_status := "Confirmed" |}.

Definition earned (promo : PromoCode.t) (now : Z) : Transaction.t :=
  {| Transaction.amount := 10;
     Transaction.type := "Earned";
     Transaction.source_promo_code_id := str_of_oid (PromoCode._id promo);
     Transaction.date := now |}.

(** The store after steps 6 and 7 of a redemption that passed validation. *)
Definition settle (restaurant_id : string) (redemption : PromoRedeem.t)
    (now : Z) (decrypted : Decoded.t) (promo : PromoCode.t) (st : store)
  : store :=
  let key := ledger_key restaurant_id (Decoded.promoter_id decrypted) in
  {| posts := posts st;
     promocodes :=
       update_one (fun p => Nat.eqb (PromoCode._id p) (PromoCode._id promo))
                  (PromoCode.push_redemption (redemption_obj redemption now))
                  (promocodes st);
     loyalty_points :=
       match find key (loyalty_points st) with
       | Some loyalty =>
           update_one (fun l => Nat.eqb (Loyalty._id l) (Loyalty._id loyalty))
                      (Loyalty.credit 10 (earned promo now) now)
                      (loyalty_points st)
       | None =>
           loyalty_points st ++
             [{| Loyalty._id := next_oid st;
                 Loyalty.restaurant_id := restaurant_id;
                 Loyalty.foodie_id := Decoded.promoter_id decrypted;
                 Loyalty.points := 10;
                 Loyalty.transactions := [earned promo now];
                 Loyalty.last_updated := now |}]
       end;
     next_oid :=
       match find key (loyalty_points st) with
       | Some _ => next_oid st
       | None => S (next_oid st)
       end |}.

(** The five validation steps, without the store writes. *)
Definition validate (restaurant_id : string) (redemption : PromoRedeem.t)
    (current_user : Payload.t) (now : Z) (st : store)
  : result (Decoded.t * PromoCode.t) :=
  if negb (Payload.user_id current_user =? restaurant_id)%string
  then Raises Forbidden
  else
    (decrypted <- decrypt_promo_code
                    (PromoRedeem.promo_code_encrypted redemption) ;;
     if negb (Decoded.restaurant_id decrypted =? restaurant_id)%string
     then Raises RestaurantMismatch
     else
       match find (fun p => (PromoCode.post_id p =? Decoded.post_id decrypted)%string)
                  (promocodes st) with
       | None => Raises PromoNotFound
       | Some promo =>
           _ <- check_expiry promo now ;;
           Returns (decrypted, promo)
       end)%result.

(** N successful sequential redemptions at restaurant [R] whose codes
    decode to promoter [F], leading from one store to another. *)
Inductive redemptions (R F : string) : nat -> store -> store -> Prop :=
| redemptions_none st :
    redemptions R F 0 st st
| redemptions_next n st0 st st' redemption current_user now response decrypted :
    redemptions R F n st0 st ->
    redeem_promo R redemption current_user now st = (Returns response, st') ->
    decrypt_promo_code (PromoRedeem.promo_code_encrypted redemption)
      = Returns decrypted ->
    Decoded.promoter_id decrypted = F ->
    redemptions R F (S n) st0 st'.

End Derived.

(** ** An executable instance of the interface

    Used to run the endpoints on concrete requests; it satisfies the laws
    of [Library] and nothing more.  Object ids print as 24 hexadecimal
    digits; text is one byte per character; the cipher frames the plaintext
    with a marker byte and one byte of the [iv]; the base64 layer is the
    identity; dates are read as YYYY-MM-DD. *)
Module Reference.

Local Open Scope nat_scope.

Definition hex_digits : list ascii :=
  list_ascii_of_string "0123456789abcdef".

Fixpoint hex_of (width n : nat) : string :=
  match width with
  | O => EmptyString
  | S w => hex_of w (n / 16) ++ String (nth (n mod 16) hex_digits "0"%char) EmptyString
  end.

Fixpoint position (c : ascii) (l : list ascii) : option nat :=
  match l with
  | [] => None
  | a :: rest =>
      if Ascii.eqb a c then Some 0
      else option_map S (position c rest)
  end.

Fixpoint number_in (base : nat) (acc : nat) (s : string) : option nat :=
  match s with
  | EmptyString => Some acc
  | String c rest =>
      match position c hex_digits with
      | Some v => if v <? base then number_in base (base * acc + v) rest else None
      | None => None
      end
  end.

Definition object_id (s : string) : option nat :=
  if String.length s =? 24 then number_in 16 0 s else None.

(** "YYYY-MM-DD" as the number YYYYMMDD. *)
Definition iso_date (s : string) : option Z :=
  if String.length s =? 10 then
    match number_in 10 0 (substring 0 4 s),
          number_in 10 0 (substring 5 2 s),
          number_in 10 0 (substring 8 2 s) with
    | Some y, Some m, Some d =>
        if (substring 4 1 s =? "-")%string && (substring 7 1 s =? "-")%string
        then Some (Z.of_nat y * 10000 + Z.of_nat m * 100 + Z.of_nat d)%Z
        else None
    | _, _, _ => None
    end
  else None.

Definition seal (iv data : bytes) : bytes :=
  x46 :: hd x30 iv :: data.

Definition unseal (token : bytes) : option bytes :=
  match token with
  | x46 :: _ :: data => Some data
  | _ => None
  end.

#[local] Instance library : Library := {|
  fernet_encrypt := seal;
  fernet_decrypt := unseal;
  urlsafe_b64encode := fun b => b;
  urlsafe_b64decode := fun b => Some b;
  str_encode := list_byte_of_string;
  bytes_decode := fun b => Some (string_of_list_byte b);
  ObjectId := object_id;
  str_of_oid := hex_of 24;
  fromisoformat := iso_date;
  fernet_decrypt_encrypt := fun _ _ => eq_refl;
  urlsafe_b64decode_encode := fun _ => eq_refl;
  bytes_decode_encode :=
    fun s => f_equal Some (string_of_list_byte_of_string s);
  str_encode_decode :=
    fun b s (H : Some (string_of_list_byte b) = Some s) =>
      eq_trans
        (f_equal list_byte_of_string
           (eq_sym (f_equal (fun o => match o with
                                     | Some x => x
                                     | None => string_of_list_byte b
                                     end) H)))
        (list_byte_of_string_of_list_byte b);
  urlsafe_b64encode_text :=
    fun b (H : Some (string_of_list_byte b) = None) =>
      eq_ind (Some (string_of_list_byte b))
             (fun o => match o with Some _ => True | None => False end)
             I None H;
  fromisoformat_empty := eq_refl
|}.

End Reference.

(** ** Concrete runs

    Two restaurants r1 and r2, foodies f1 and f2.  f1 posts a promotion
    request that tags r1; f2 posts one that tags r2.  Every store below is
    reached from the empty store through the endpoints, and every code
    presented is one an approval returned. *)
Module Scenario.

#[local] Existing Instance Reference.library.

Definition f1 : Payload.t :=
  {| Payload.user_id := "f1"; Payload.user_type := "Foodie" |}.
Definition f2 : Payload.t :=
  {| Payload.user_id := "f2"; Payload.user_type := "Foodie" |}.
Definition r1 : Payload.t :=
  {| Payload.user_id := "r1"; Payload.user_type := "Restaurant" |}.
Definition r2 : Payload.t :=
  {| Payload.user_id := "r2"; Payload.user_type := "Restaurant" |}.
Definition r3 : Payload.t :=
  {| Payload.user_id := "r3"; Payload.user_type := "Restaurant" |}.

Definition request (tagged : string) : PostCreate.t :=
  {| PostCreate.image_base64 := "aW1n";
     PostCreate.caption := "lunch";
     PostCreate.stars := Some 5;
     PostCreate.restaurant_tagged_id := Some tagged;
     PostCreate.location := None;
     PostCreate.is_promotion_request := true;
     PostCreate.promotion_offer_idea := Some "10% off" |}.

Definition offer (text : string) (expiry : option string) : PromoApprove.t :=
  {| PromoApprove.promo_code_plain_text := text;
     PromoApprove.offer_description := "10% off";
     PromoApprove.expiry_date := expiry |}.

Definition present (code redeemer : string) : PromoRedeem.t :=
  {| PromoRedeem.promo_code_encrypted := code;
     PromoRedeem.redeemer_user_id := redeemer |}.

Definition iv : bytes := [x30].

(** The ids of the two posts. *)
Definition p1 : string := "000000000000000000000000".
Definition p2 : string := "000000000000000000000001".

(** f1's post exists, status Pending. *)
Definition posted : store :=
  Eval vm_compute in snd (create_post (request "r1") f1 20240101 empty_store).

(** ... and f2's post as well. *)
Definition posted2 : store :=
  Eval vm_compute in snd (create_post (request "r2") f2 20240101 posted).

(** r1 rejected f1's post. *)
Definition rejected : store :=
  Eval vm_compute in snd (reject_promo "r1" p1 r1 20240102 posted).

(** r1 approved f1's post with the text SAVE10 and no expiry. *)
Definition approved : store :=
  Eval vm_compute in
    snd (approve_promo "r1" p1 (offer "SAVE10" None) r1 20240102 iv posted).

(** The code r1 got back. *)
Definition code_r1 : string := "F0SAVE10|f1|r1|000000000000000000000000|".

(** After r1, r2 approved the same post. *)
Definition approved_twice : store :=
  Eval vm_compute in
    snd (approve_promo "r2" p1 (offer "SAVE10" None) r2 20240103 iv approved).

Definition code_r2 : string := "F0SAVE10|f1|r2|000000000000000000000000|".

(** r1 approved f1's post with an expiry date. *)
Definition approved_until : store :=
  Eval vm_compute in
    snd (approve_promo "r1" p1 (offer "SAVE10" (Some "2024-06-30")) r1
           20240102 iv posted).

(** r1 approved f1's post twice: first with SAVE10 and no expiry, then
    with SAVE20 and an expiry date long past; and the other way round. *)
Definition code_save20 : string := "F0SAVE20|f1|r1|000000000000000000000000|".

Definition approved_then_expiring : store :=
  Eval vm_compute in
    snd (approve_promo "r1" p1 (offer "SAVE20" (Some "2020-01-01")) r1
           20240103 iv approved).

Definition expiring : store :=
  Eval vm_compute in
    snd (approve_promo "r1" p1 (offer "SAVE20" (Some "2020-01-01")) r1
           20240102 iv posted).

Definition expiring_then_approved : store :=
  Eval vm_compute in
    snd (approve_promo "r1" p1 (offer "SAVE10" None) r1 20240103 iv expiring).

(** r1 approved f1's post with an expiry date far ahead that carries a
    UTC offset. *)
Definition approved_aware : store :=
  Eval vm_compute in
    snd (approve_promo "r1" p1
           (offer "SAVE10" (Some "2099-01-01T00:00:00+00:00")) r1 20240102 iv
           posted).

(** r2 approved f2's post; then r1 approved f1's post with a promo text
    that contains the delimiter. *)
Definition injected_text : string := "x|f9|r2|000000000000000000000001".

Definition approved_r2 : store :=
  Eval vm_compute in
    snd (approve_promo "r2" p2 (offer "LUNCH" None) r2 20240102 iv posted2).

Definition approved_injected : store :=
  Eval vm_compute in
    snd (approve_promo "r1" p1 (offer injected_text None) r1 20240103 iv
           approved_r2).

Definition code_injected : string :=
  "F0x|f9|r2|000000000000000000000001|f1|r1|000000000000000000000000|".

(** f1's code redeemed once and twice at r1. *)
Definition redeemed_once : store :=
  Eval vm_compute in
    snd (redeem_promo "r1" (present code_r1 "f1") r1 20240201 approved).
Definition redeemed_twice : store :=
  Eval vm_compute in
    snd (redeem_promo "r1" (present code_r1 "f1") r1 20240202 redeemed_once).

End Scenario.

(** ** Likes and comments *)

(** [{"$addToSet": {field: x}}] on an array of strings: [x] is appended
    unless the array already holds it. *)
Definition add_to_set (x : string) (l : list string) : list string :=
  if existsb (String.eqb x) l then l else l ++ [x].

(** [{"$pull": {field: x}}]: every occurrence of [x] is removed. *)
Definition pull (x : string) (l : list string) : list string :=
  List.filter (fun y => negb (y =? x)%string) l.

Definition post_with_likes (f : list string -> list string) (p : Post.t)
  : Post.t :=
  {| Post._id := Post._id p; Post.body := Post.body p;
     Post.user_id := Post.user_id p; Post.post_type := Post.post_type p;
     Post.likes := f (Post.likes p); Post.comments := Post.comments p;
     Post.promotion_status := Post.promotion_status p;
     Post.created_at := Post.created_at p;
     Post.updated_at := Post.updated_at p;
     Post.promo_code_id := Post.promo_code_id p |}.

(** [{"$push": {"comments": c}}]. *)
Definition post_push_comment (c : string * string * Z) (p : Post.t) : Post.t :=
  {| Post._id := Post._id p; Post.body := Post.body p;
     Post.user_id := Post.user_id p; Post.post_type := Post.post_type p;
     Post.likes := Post.likes p; Post.comments := Post.comments p ++ [c];
     Post.promotion_status := Post.promotion_status p;
     Post.created_at := Post.created_at p;
     Post.updated_at := Post.updated_at p;
     Post.promo_code_id := Post.promo_code_id p |}.

(** The part of a post the promotion lifecycle works on. *)
Definition post_core (p : Post.t)
  : nat * string * PostCreate.t * PromotionStatus * option string :=
  (Post._id p, Post.user_id p, Post.body p, Post.promotion_status p,
   Post.promo_code_id p).

Definition promotions_kept (st st' : store) : Prop :=
  map post_core (posts st') = map post_core (posts st)
  /\ promocodes st' = promocodes st
  /\ loyalty_points st' = loyalty_points st.

(** [{"message": m}]. *)
Inductive ack : Type :=
| Message (message : string).

Section Social.
Context {L : Library}.

Definition like_post (post_id : string) (current_user : Payload.t) : M ack :=
  (oid <- lift (of_option InvalidId (ObjectId post_id)) ;;
   update_one_post (fun p => Nat.eqb (Post._id p) oid)
     (post_with_likes (add_to_set (Payload.user_id current_user))) ;;
   ret (Message "Post liked"))%db.

Definition unlike_post (post_id : string) (current_user : Payload.t) : M ack :=
  (oid <- lift (of_option InvalidId (ObjectId post_id)) ;;
   update_one_post (fun p => Nat.eqb (Post._id p) oid)
     (post_with_likes (pull (Payload.user_id current_user))) ;;
   ret (Message "Post unliked"))%db.

(** [comment] is the [text] of the CommentCreate body. *)
Definition add_comment (post_id : string) (comment : string)
    (current_user : Payload.t) (now : Z) : M ack :=
  let comment_obj := (Payload.user_id current_user, comment, now) in
  (oid <- lift (of_option InvalidId (ObjectId post_id)) ;;
   update_one_post (fun p => Nat.eqb (Post._id p) oid)
     (post_push_comment comment_obj) ;;
   ret (Message "Comment added"))%db.

(** One request that writes to the store, served. *)
Inductive step : store -> store -> Prop :=
| step_create_post post current_user now st :
    step st (snd (create_post post current_user now st))
| step_approve_promo restaurant_id post_id promo current_user now iv st :
    step st (snd (approve_promo restaurant_id post_id promo current_user
                    now iv st))
| step_reject_promo restaurant_id post_id current_user now st :
    step st (snd (reject_promo restaurant_id post_id current_user now st))
| step_redeem_promo restaurant_id redemption current_user now st :
    step st (snd (redeem_promo restaurant_id redemption current_user now st))
| step_like_post post_id current_user st :
    step st (snd (like_post post_id current_user st))
| step_unlike_post post_id current_user st :
    step st (snd (unlike_post post_id current_user st))
| step_add_comment post_id comment current_user now st :
    step st (snd (add_comment post_id comment current_user now st)).

(** The stores the endpoints can produce, starting with empty
    collections. *)
Inductive reachable : store -> Prop :=
| reachable_empty : reachable empty_store
| reachable_step st st' : reachable st -> step st st' -> reachable st'.

End Social.

(** The verdict of validation, without the values it hands on. *)
Definition verdict {A} (r : result A) : result unit :=
  match r with
  | Returns _ => Returns tt
  | Raises e => Raises e
  end.

(** ** Consistency of a store *)

Definition sum_Z {A} (f : A -> Z) (l : list A) : Z :=
  fold_right (fun a acc => f a + acc) 0 l.

Definition ids_fresh (ids : list nat) (next : nat) : Prop :=
  NoDup ids /\ Forall (fun id => (id < next)%nat) ids.

Definition ledger_pair (l : Loyalty.t) : string * string :=
  (Loyalty.restaurant_id l, Loyalty.foodie_id l).

Definition earned_ten (t : Transaction.t) : Prop :=
  Transaction.amount t = 10 /\ Transaction.type t = "Earned".

Section Consistency.
Context {L : Library}.

(** A post's [promo_code_id], when set, names a PromoCode record that was
    minted for this post and its author. *)
Definition promo_link_ok (st : store) (p : Post.t) : Prop :=
  forall s, Post.promo_code_id p = Some s ->
    exists pc, In pc (promocodes st) /\
               s = str_of_oid (PromoCode._id pc) /\
               ObjectId (PromoCode.post_id pc) = Some (Post._id p) /\
               PromoCode.promoter_foodie_id pc = Post.user_id p.

(** A PromoCode record belongs to an existing post and names its author as
    promoter. *)
Definition promo_post_ok (st : store) (pc : PromoCode.t) : Prop :=
  exists p, In p (posts st) /\
            ObjectId (PromoCode.post_id pc) = Some (Post._id p) /\
            PromoCode.promoter_foodie_id pc = Post.user_id p.

Record consistent (st : store) : Prop := {
  post_ids_fresh : ids_fresh (map Post._id (posts st)) (next_oid st);
  promo_ids_fresh : ids_fresh (map PromoCode._id (promocodes st)) (next_oid st);
  ledger_ids_fresh : ids_fresh (map Loyalty._id (loyalty_points st)) (next_oid st);
  likes_distinct : Forall (fun p => NoDup (Post.likes p)) (posts st);
  ledger_pairs_distinct : NoDup (map ledger_pair (loyalty_points st));
  ledger_balanced :
    Forall (fun l => Loyalty.points l
                       = 10 * Z.of_nat (length (Loyalty.transactions l))
                     /\ Forall earned_ten (Loyalty.transactions l))
           (loyalty_points st);
  points_conserved :
    sum_Z Loyalty.points (loyalty_points st)
      = 10 * sum_Z (fun pc => Z.of_nat (length (PromoCode.redemptions pc)))
                   (promocodes st);
  promo_links : Forall (promo_link_ok st) (posts st);
  promo_posts : Forall (promo_post_ok st) (promocodes st)
}.

End Consistency.

(** ** Authentication *)

(** [s.replace(old, new)] for a non-empty [old]: occurrences are replaced
    from left to right, without overlap.  [skip] counts the characters of
    a matched occurrence that are still to be passed over. *)
Fixpoint replace_from (old new : string) (skip : nat) (s : string) : string :=
  match s with
  | EmptyString => EmptyString
  | String c rest =>
      match skip with
      | S k => replace_from old new k rest
      | O =>
          if prefix old s
          then new ++ replace_from old new (String.length old - 1) rest
          else String c (replace_from old new 0 rest)
      end
  end.

(** With an empty [old], [new] is put before every character and at the
    end. *)
Fixpoint interleave (new s : string) : string :=
  match s with
  | EmptyString => new
  | String c rest => new ++ String c (interleave new rest)
  end.

Definition str_replace (old new s : string) : string :=
  match old with
  | EmptyString => interleave new s
  | String _ _ => replace_from old new 0 s
  end.

(** The claims of a token: what [create_token] puts in and
    [get_current_user] hands to the endpoints. *)
Module Claims.
Record t : Type := {
  user_id : string;
  user_type : string;
  exp : Z
}.
End Claims.

Definition payload_of (claims : Claims.t) : Payload.t :=
  {| Payload.user_id := Claims.user_id claims;
     Payload.user_type := Claims.user_type claims |}.

(** What [jwt.decode] does with a token. *)
Inductive jwt_outcome : Type :=
| JwtPayload (claims : Claims.t)
| ExpiredSignatureError
| InvalidTokenError.

(** passlib's bcrypt context and PyJWT under the secret key of the process.
    Instants are read off the clock of the process, like [now]
    everywhere. *)
Class Credentials : Type := {
  (** [pwd_context.hash(password)], with the salt it draws. *)
  pwd_hash : bytes -> string -> string;
  (** [pwd_context.verify(plain, hashed)]; [None] when the stored string is
      no hash the context knows (UnknownHashError, a ValueError). *)
  pwd_verify : string -> string -> option bool;
  (** [jwt.encode(payload, SECRET_KEY, algorithm=ALGORITHM)]. *)
  jwt_encode : Claims.t -> string;
  (** [jwt.decode(token, SECRET_KEY, algorithms=[ALGORITHM])] at an
      instant. *)
  jwt_decode : string -> Z -> jwt_outcome;
  (** [timedelta(days=30)]. *)
  thirty_days : Z;

  pwd_verify_hash :
    forall salt password, pwd_verify password (pwd_hash salt password) = Some true;
  jwt_decode_encode :
    forall claims now,
      now < Claims.exp claims ->
      jwt_decode (jwt_encode claims) now = JwtPayload claims;
  jwt_decode_expired :
    forall claims now,
      Claims.exp claims < now ->
      jwt_decode (jwt_encode claims) now = ExpiredSignatureError;
  thirty_days_positive : 0 < thirty_days
}.

Definition NotAuthenticated : exn := HTTPException 401 "Not authenticated".
Definition TokenExpired : exn := HTTPException 401 "Token expired".
Definition InvalidToken401 : exn := HTTPException 401 "Invalid token".
Definition InvalidCredentials : exn := HTTPException 401 "Invalid credentials".
Definition AlreadyExists : exn :=
  HTTPException 400 "Email or handle already exists".

Section Tokens.
Context {C : Credentials}.

Definition hash_password (salt : bytes) (password : string) : string :=
  pwd_hash salt password.

Definition verify_password (plain_password hashed_password : string)
  : result bool :=
  of_option ValueError (pwd_verify plain_password hashed_password).

Definition create_token (user_id user_type : string) (now : Z) : string :=
  jwt_encode {| Claims.user_id := user_id;
                Claims.user_type := user_type;
                Claims.exp := now + thirty_days |}.

Definition verify_token (token : string) (now : Z) : result Claims.t :=
  match jwt_decode token now with
  | JwtPayload payload => Returns payload
  | ExpiredSignatureError => Raises TokenExpired
  | InvalidTokenError => Raises InvalidToken401
  end.

(** [authorization] is the Authorization header, [None] when absent. *)
Definition get_current_user (authorization : option string) (now : Z)
  : result Claims.t :=
  match authorization with
  | None => Raises NotAuthenticated
  | Some header =>
      if (header =? "")%string || negb (prefix "Bearer " header)
      then Raises NotAuthenticated
      else
        let token := str_replace "Bearer " "" header in
        verify_token token now
  end.

End Tokens.

(** ** Users *)

Module UserRegister.
Record t : Type := {
  email : string;
  password : string;
  profile_name : string;
  handle : string;
  user_type : string;
  avatar_base64 : option string;
  bio : option string;
  restaurant_details : option (list (string * string))
}.
End UserRegister.

Module UserLogin.
Record t : Type := {
  email : string;
  password : string
}.
End UserLogin.

(** A document of [db.users]: the registration body without the password,
    and what [register] adds. *)
Module User.
Record t : Type := {
  _id : nat;
  email : string;
  profile_name : string;
  handle : string;
  user_type : string;
  avatar_base64 : option string;
  bio : option string;
  restaurant_details : option (list (string * string));
  password_hash : string;
  followers : list string;
  following : list string;
  created_at : Z
}.

Definition with_followers (f : list string -> list string) (u : t) : t :=
  {| _id := _id u; email := email u; profile_name := profile_name u;
     handle := handle u; user_type := user_type u;
     avatar_base64 := avatar_base64 u; bio := bio u;
     restaurant_details := restaurant_details u;
     password_hash := password_hash u;
     followers := f (followers u); following := following u;
     created_at := created_at u |}.

Definition with_following (f : list string -> list string) (u : t) : t :=
  {| _id := _id u; email := email u; profile_name := profile_name u;
     handle := handle u; user_type := user_type u;
     avatar_base64 := avatar_base64 u; bio := bio u;
     restaurant_details := restaurant_details u;
     password_hash := password_hash u;
     followers := followers u; following := f (following u);
     created_at := created_at u |}.
End User.

(** The users collection with the id generator of its driver. *)
Record userbase : Type := {
  users : list User.t;
  next_user_oid : nat
}.

Definition no_users : userbase := {| users := []; next_user_oid := 0 |}.

(** The answers of the account endpoints. *)
Inductive account_response : Type :=
| Registered (token user_id user_type profile_name handle : string)
| LoggedIn (token user_id user_type profile_name handle : string)
           (avatar_base64 : option string).

Section Accounts.
Context {L : Library} {C : Credentials}.

Definition register (user : UserRegister.t) (now : Z) (salt : bytes)
    (ub : userbase) : result account_response * userbase :=
  let existing_user :=
    find (fun u => (User.email u =? UserRegister.email user)%string
                   || (User.handle u =? UserRegister.handle user)%string)
         (users ub) in
  match existing_user with
  | Some _ => (Raises AlreadyExists, ub)
  | None =>
      let inserted_id := next_user_oid ub in
      let user_dict :=
        {| User._id := inserted_id;
           User.email := UserRegister.email user;
           User.profile_name := UserRegister.profile_name user;
           User.handle := UserRegister.handle user;
           User.user_type := UserRegister.user_type user;
           User.avatar_base64 := UserRegister.avatar_base64 user;
           User.bio := UserRegister.bio user;
           User.restaurant_details := UserRegister.restaurant_details user;
           User.password_hash :=
             hash_password salt (UserRegister.password user);
           User.followers := [];
           User.following := [];
           User.created_at := now |} in
      let user_id := str_of_oid inserted_id in
      let token := create_token user_id (UserRegister.user_type user) now in
      (Returns (Registered token user_id (UserRegister.user_type user)
                  (UserRegister.profile_name user) (UserRegister.handle user)),
       {| users := users ub ++ [user_dict];
          next_user_oid := S inserted_id |})
  end.

Definition login (credentials : UserLogin.t) (now : Z) (ub : userbase)
  : result account_response :=
  match find (fun u => (User.email u =? UserLogin.email credentials)%string)
             (users ub) with
  | None => Raises InvalidCredentials
  | Some user =>
      (ok <- verify_password (UserLogin.password credentials)
                             (User.password_hash user) ;;
       if negb ok then Raises InvalidCredentials
       else
         let user_id := str_of_oid (User._id user) in
         let token := create_token user_id (User.user_type user) now in
         Returns (LoggedIn token user_id (User.user_type user)
                    (User.profile_name user) (User.handle user)
                    (User.avatar_base64 user)))%result
  end.

(** The two writes of [follow_user] happen in order: the second object id
    is only built after the first update is done. *)
Definition follow_user (user_id : string) (current_user : Payload.t)
    (ub : userbase) : result ack * userbase :=
  let follower_id := Payload.user_id current_user in
  match ObjectId follower_id with
  | None => (Raises InvalidId, ub)
  | Some follower_oid =>
      let ub1 :=
        {| users := update_one (fun u => Nat.eqb (User._id u) follower_oid)
                      (User.with_following (add_to_set user_id)) (users ub);
           next_user_oid := next_user_oid ub |} in
      match ObjectId user_id with
      | None => (Raises InvalidId, ub1)
      | Some user_oid =>
          (Returns (Message "Followed successfully"),
           {| users := update_one (fun u => Nat.eqb (User._id u) user_oid)
                         (User.with_followers (add_to_set follower_id))
                         (users ub1);
              next_user_oid := next_user_oid ub1 |})
      end
  end.

Definition unfollow_user (user_id : string) (current_user : Payload.t)
    (ub : userbase) : result ack * userbase :=
  let follower_id := Payload.user_id current_user in
  match ObjectId follower_id with
  | None => (Raises InvalidId, ub)
  | Some follower_oid =>
      let ub1 :=
        {| users := update_one (fun u => Nat.eqb (User._id u) follower_oid)
                      (User.with_following (pull user_id)) (users ub);
           next_user_oid := next_user_oid ub |} in
      match ObjectId user_id with
      | None => (Raises InvalidId, ub1)
      | Some user_oid =>
          (Returns (Message "Unfollowed successfully"),
           {| users := update_one (fun u => Nat.eqb (User._id u) user_oid)
                         (User.with_followers (pull follower_id))
                         (users ub1);
              next_user_oid := next_user_oid ub1 |})
      end
  end.

End Accounts.

(** ** Listings *)

Definition status_eqb (a b : PromotionStatus) : bool :=
  match a, b with
  | NA, NA | Pending, Pending | Approved, Approved | Rejected, Rejected => true
  | _, _ => false
  end.

(** The query of [get_promo_requests]: tagged to the restaurant, a
    promotion request, still Pending. *)
Definition pending_for (restaurant_id : string) (p : Post.t) : bool :=
  match PostCreate.restaurant_tagged_id (Post.body p) with
  | Some tagged => (tagged =? restaurant_id)%string
  | None => false
  end
  && PostCreate.is_promotion_request (Post.body p)
  && status_eqb (Post.promotion_status p) Pending.

(** An item of a listing: the document with its [_id] as a string, and the
    entry attached when the user it names was found. *)
Definition listed (A E : Type) : Type := string * A * option E.

Section Listings.
Context {L : Library}.

(** The loop [for doc in docs: ...] that looks up the user named by
    [owner doc] and attaches [entry user]; a malformed id stops it with
    InvalidId. *)
Fixpoint enrich {A E} (doc_id : A -> nat) (owner : A -> string)
    (entry : User.t -> E) (all_users : list User.t) (docs : list A)
  : result (list (listed A E)) :=
  match docs with
  | [] => Returns []
  | doc :: rest =>
      (oid <- of_option InvalidId (ObjectId (owner doc)) ;;
       let user := find (fun u => Nat.eqb (User._id u) oid) all_users in
       rest' <- enrich doc_id owner entry all_users rest ;;
       Returns ((str_of_oid (doc_id doc), doc, option_map entry user)
                  :: rest'))%result
  end.

(** [{"_id", "profile_name", "handle", "avatar_base64"}]. *)
Definition requester_entry (u : User.t)
  : string * string * string * option string :=
  (str_of_oid (User._id u), User.profile_name u, User.handle u,
   User.avatar_base64 u).

(** [{"profile_name", "avatar_base64"}]. *)
Definition restaurant_entry (u : User.t) : string * option string :=
  (User.profile_name u, User.avatar_base64 u).

(** [{"profile_name", "handle", "avatar_base64"}]. *)
Definition foodie_entry (u : User.t) : string * string * option string :=
  (User.profile_name u, User.handle u, User.avatar_base64 u).

Definition get_promo_requests (restaurant_id : string)
    (current_user : Payload.t) (all_users : list User.t) (st : store)
  : result (list (listed Post.t (string * string * string * option string))) :=
  if negb (Payload.user_id current_user =? restaurant_id)%string
  then Raises Forbidden
  else
    let found := firstn 100 (List.filter (pending_for restaurant_id) (posts st)) in
    enrich Post._id Post.user_id requester_entry all_users found.

Definition get_loyalty_points (foodie_id : string)
    (current_user : Payload.t) (all_users : list User.t) (st : store)
  : result (list (listed Loyalty.t (string * option string))) :=
  if negb (Payload.user_id current_user =? foodie_id)%string
  then Raises Forbidden
  else
    let found :=
      firstn 100
        (List.filter (fun l => (Loyalty.foodie_id l =? foodie_id)%string)
                     (loyalty_points st)) in
    enrich Loyalty._id Loyalty.restaurant_id restaurant_entry all_users found.

Definition get_restaurant_loyalty_points (restaurant_id : string)
    (current_user : Payload.t) (all_users : list User.t) (st : store)
  : result (list (listed Loyalty.t (string * string * option string))) :=
  if negb (Payload.user_id current_user =? restaurant_id)%string
  then Raises Forbidden
  else
    let found :=
      firstn 100
        (List.filter (fun l => (Loyalty.restaurant_id l =? restaurant_id)%string)
                     (loyalty_points st)) in
    enrich Loyalty._id Loyalty.foodie_id foodie_entry all_users found.

End Listings.

(** The documents of a listing. *)
Definition documents {A E} (items : list (listed A E)) : list A :=
  map (fun i => snd (fst i)) items.

(** Emails, handles and object ids are pairwise distinct and no follow list
    names a user twice. *)
Definition accounts_ok (ub : userbase) : Prop :=
  NoDup (map User.email (users ub))
  /\ NoDup (map User.handle (users ub))
  /\ ids_fresh (map User._id (users ub)) (next_user_oid ub)
  /\ Forall (fun u => NoDup (User.following u) /\ NoDup (User.followers u))
            (users ub).

(** No listing of pending requests shows a post with this object id. *)
Definition not_listed {L : Library} (oid : nat) (st : store) : Prop :=
  forall restaurant_id current_user all_users items,
    get_promo_requests restaurant_id current_user all_users st = Returns items ->
    forall p, In p (documents items) -> Post._id p <> oid.

(** ** An executable instance of the credentials

    Used to run the account endpoints on concrete requests; it satisfies
    the laws of [Credentials] and nothing more.  A hash is the password
    behind a marker; a token spells out its three claims, each character
    of the two strings behind an [x], a [.] after each string, the expiry
    in decimal digits. *)
Module ReferenceAuth.

Definition marker : string := "$ref$".

Definition hash (salt : bytes) (password : string) : string :=
  marker ++ password.

Definition verify (password hashed : string) : option bool :=
  if prefix marker hashed
  then Some (hashed =? marker ++ password)%string
  else None.

Fixpoint write_str (s : string) : string :=
  match s with
  | EmptyString => "."
  | String c rest => String "x" (String c (write_str rest))
  end.

(** The string written at the start of [s], and what follows it. *)
Fixpoint read_str (s : string) : option (string * string) :=
  match s with
  | EmptyString => None
  | String m rest =>
      if Ascii.eqb m "." then Some (EmptyString, rest)
      else if Ascii.eqb m "x" then
        match rest with
        | EmptyString => None
        | String c rest' =>
            match read_str rest' with
            | Some (a, r) => Some (String c a, r)
            | None => None
            end
        end
      else None
  end.

Definition token_of (claims : Claims.t) : string :=
  write_str (Claims.user_id claims)
  ++ write_str (Claims.user_type claims)
  ++ DecimalString.NilEmpty.string_of_int (Z.to_int (Claims.exp claims)).

Definition claims_of (token : string) : option Claims.t :=
  match read_str token with
  | Some (user_id, rest) =>
      match read_str rest with
      | Some (user_type, digits) =>
          match DecimalString.NilEmpty.int_of_string digits with
          | Some exp =>
              Some {| Claims.user_id := user_id;
                      Claims.user_type := user_type;
                      Claims.exp := Z.of_int exp |}
          | None => None
          end
      | None => None
      end
  | None => None
  end.

(** A token is expired from the instant of its expiry on. *)
Definition decode (token : string) (now : Z) : jwt_outcome :=
  match claims_of token with
  | Some claims =>
      if now <? Claims.exp claims then JwtPayload claims
      else ExpiredSignatureError
  | None => InvalidTokenError
  end.

(** The reference clock counts days. *)
#[local] Instance credentials : Credentials.
Proof.
  refine {| pwd_hash := hash;
            pwd_verify := verify;
            jwt_encode := token_of;
            jwt_decode := decode;
            thirty_days := 30 |}.
  - intros salt password. unfold verify, hash.
    replace (prefix marker (marker ++ password)) with true
      by (destruct password; reflexivity).
    now rewrite String.eqb_refl.
  - assert (Hread : forall a r, read_str (write_str a ++ r) = Some (a, r)).
    { induction a as [|c a IH]; intros r; [reflexivity|].
      cbn [write_str append read_str]. cbn [Ascii.eqb Bool.eqb].
      now rewrite IH. }
    assert (Hclaims : forall claims, claims_of (token_of claims) = Some claims).
    { intros [user_id user_type exp]. unfold claims_of, token_of.
      cbn [Claims.user_id Claims.user_type Claims.exp].
      rewrite !Hread, DecimalString.NilEmpty.isi, DecimalZ.of_to. reflexivity. }
    intros claims now Hnow. unfold decode. rewrite Hclaims.
    apply Z.ltb_lt in Hnow. now rewrite Hnow.
  - assert (Hread : forall a r, read_str (write_str a ++ r) = Some (a, r)).
    { induction a as [|c a IH]; intros r; [reflexivity|].
      cbn [write_str append read_str]. cbn [Ascii.eqb Bool.eqb].
      now rewrite IH. }
    assert (Hclaims : forall claims, claims_of (token_of claims) = Some claims).
    { intros [user_id user_type exp]. unfold claims_of, token_of.
      cbn [Claims.user_id Claims.user_type Claims.exp].
      rewrite !Hread, DecimalString.NilEmpty.isi, DecimalZ.of_to. reflexivity. }
    intros claims now Hnow. unfold decode. rewrite Hclaims.
    replace (now <? Claims.exp claims) with false; [reflexivity|].
    symmetry. apply Z.ltb_ge. lia.
  - reflexivity.
Defined.

End ReferenceAuth.

(** ** Concrete runs with registered users

    Alice, a foodie, and Roma, a restaurant, register; their ids are the
    first two object ids.  Alice follows Roma, posts a promotion request
    that tags Roma; Roma likes the post, comments on it, approves it and
    redeems the code twice. *)
Module Community.

#[local] Existing Instance Reference.library.
#[local] Existing Instance ReferenceAuth.credentials.

Definition alice_form : UserRegister.t :=
  {| UserRegister.email := "alice@example.org";
     UserRegister.password := "correct horse";
     UserRegister.profile_name := "Alice";
     UserRegister.handle := "alice";
     UserRegister.user_type := "Foodie";
     UserRegister.avatar_base64 := None;
     UserRegister.bio := Some "always hungry";
     UserRegister.restaurant_details := None |}.

Definition roma_form : UserRegister.t :=
  {| UserRegister.email := "roma@example.org";
     UserRegister.password := "margherita";
     UserRegister.profile_name := "Roma";
     UserRegister.handle := "roma";
     UserRegister.user_type := "Restaurant";
     UserRegister.avatar_base64 := Some "cm9tYQ==";
     UserRegister.bio := None;
     UserRegister.restaurant_details := Some [("cuisine", "Italian")] |}.

Definition salt : bytes := [x73].

Definition alice_id : string := "000000000000000000000000".
Definition roma_id : string := "000000000000000000000001".

Definition alice : Payload.t :=
  {| Payload.user_id := alice_id; Payload.user_type := "Foodie" |}.
Definition roma : Payload.t :=
  {| Payload.user_id := roma_id; Payload.user_type := "Restaurant" |}.

(** The token Alice got when she registered on 2024-01-01. *)
Definition alice_token : string :=
  Eval vm_compute in create_token alice_id "Foodie" 20240101.

Definition one_user : userbase :=
  Eval vm_compute in snd (register alice_form 20240101 salt no_users).
Definition two_users : userbase :=
  Eval vm_compute in snd (register roma_form 20240102 salt one_user).

(** Alice follows Roma. *)
Definition followed : userbase :=
  Eval vm_compute in snd (follow_user roma_id alice two_users).

(** The id of Alice's post, and of the PromoCode record of its approval. *)
Definition post_id : string := "000000000000000000000000".

Definition requested : store :=
  Eval vm_compute in
    snd (create_post (Scenario.request roma_id) alice 20240103 empty_store).
Definition liked : store :=
  Eval vm_compute in snd (like_post post_id roma requested).
Definition commented : store :=
  Eval vm_compute in snd (add_comment post_id "come by" roma 20240104 liked).
Definition approved : store :=
  Eval vm_compute in
    snd (approve_promo roma_id post_id (Scenario.offer "SAVE10" None) roma
           20240105 Scenario.iv commented).

(** The code Roma got back. *)
Definition code : string :=
  "F0SAVE10|000000000000000000000000|000000000000000000000001|000000000000000000000000|".

Definition settled : store :=
  Eval vm_compute in
    snd (redeem_promo roma_id (Scenario.present code alice_id) roma 20240110
           approved).
Definition settled_twice : store :=
  Eval vm_compute in
    snd (redeem_promo roma_id (Scenario.present code alice_id) roma 20240111
           settled).

(** Alice's post as it was created, and the documents of Alice and Roma
    as they were registered. *)
Definition first_post : Post.t :=
  {| Post._id := 0;
     Post.body := Scenario.request roma_id;
     Post.user_id := alice_id;
     Post.post_type := "Promotion";
     Post.likes := [];
     Post.comments := [];
     Post.promotion_status := Pending;
     Post.created_at := 20240103;
     Post.updated_at := 20240103;
     Post.promo_code_id := None |}.

(** The post after Roma's like and comment. *)
Definition commented_post : Post.t :=
  post_push_comment (roma_id, "come by", 20240104)
    (post_with_likes (add_to_set roma_id) first_post).

Definition alice_doc : User.t :=
  {| User._id := 0;
     User.email := "alice@example.org";
     User.profile_name := "Alice";
     User.handle := "alice";
     User.user_type := "Foodie";
     User.avatar_base64 := None;
     User.bio := Some "always hungry";
     User.restaurant_details := None;
     User.password_hash := "$ref$correct horse";
     User.followers := [];
     User.following := [];
     User.created_at := 20240101 |}.

Definition roma_doc : User.t :=
  {| User._id := 1;
     User.email := "roma@example.org";
     User.profile_name := "Roma";
     User.handle := "roma";
     User.user_type := "Restaurant";
     User.avatar_base64 := Some "cm9tYQ==";
     User.bio := None;
     User.restaurant_details := Some [("cuisine", "Italian")];
     User.password_hash := "$ref$margherita";
     User.followers := [];
     User.following := [];
     User.created_at := 20240102 |}.

(** What Alice holds at Roma after the two redemptions. *)
Definition ledger : Loyalty.t :=
  {| Loyalty._id := 2;
     Loyalty.restaurant_id := roma_id;
     Loyalty.foodie_id := alice_id;
     Loyalty.points := 20;
     Loyalty.transactions :=
       [{| Transaction.amount := 10;
           Transaction.type := "Earned";
           Transaction.source_promo_code_id := "000000000000000000000001";
           Transaction.date := 20240110 |};
        {| Transaction.amount := 10;
           Transaction.type := "Earned";
           Transaction.source_promo_code_id := "000000000000000000000001";
           Transaction.date := 20240111 |}];
     Loyalty.last_updated := 20240111 |}.

Definition item_or_nothing {A} (r : result (list A)) : list A :=
  match r with
  | Returns items => items
  | Raises _ => []
  end.

(** What Roma sees among its pending requests before the approval. *)
Definition requests
  : list (listed Post.t (string * string * string * option string)) :=
  Eval vm_compute in
    item_or_nothing
      (get_promo_requests roma_id roma (users followed) commented).

End Community.
(** ** Splitting what was joined *)

Lemma str_split_nonempty (sep : ascii) (s : string) : str_split sep s <> [].
Proof.
  destruct s as [|a rest]; simpl; [discriminate|].
  destruct (Ascii.eqb a sep); [discriminate|].
  destruct (str_split sep rest); discriminate.
Qed.

Lemma str_split_no_sep (sep : ascii) (s : string) :
  contains sep s = false -> str_split sep s = [s].
Proof.
  induction s as [|a rest IH]; simpl; [reflexivity|].
  destruct (Ascii.eqb a sep); [discriminate|].
  intros H. rewrite (IH H). reflexivity.
Qed.

Lemma str_split_app (sep : ascii) (s t : string) :
  contains sep s = false ->
  str_split sep (s ++ String sep t) = s :: str_split sep t.
Proof.
  induction s as [|a rest IH]; simpl.
  - intros _. rewrite Ascii.eqb_refl. reflexivity.
  - destruct (Ascii.eqb a sep); [discriminate|].
    intros H. rewrite (IH H). reflexivity.
Qed.

Lemma str_app_assoc (s t u : string) :
  ((s ++ t) ++ u = s ++ (t ++ u))%string.
Proof. induction s as [|a s IH]; simpl; [reflexivity|now rewrite IH]. Qed.

Example str_split_pieces :
  str_split delimiter "a||b|" = ["a"; ""; "b"; ""]
  /\ str_split delimiter "" = [""]
  /\ str_split delimiter "SAVE10" = ["SAVE10"].
Proof. repeat split. Qed.

Lemma str_split_promo_data (a b c d e : string) :
  contains delimiter a = false -> contains delimiter b = false ->
  contains delimiter c = false -> contains delimiter d = false ->
  contains delimiter e = false ->
  str_split delimiter (promo_data a b c d e) = [a; b; c; d; e].
Proof.
  intros Ha Hb Hc Hd He. unfold promo_data.
  change "|" with (String delimiter EmptyString).
  simpl append.
  rewrite !str_split_app by assumption.
  rewrite str_split_no_sep by assumption. reflexivity.
Qed.

Section CodecFacts.
Context {L : Library}.

(** Encode never raises: the base64 text always decodes as text. *)
Lemma encrypt_promo_code_returns iv a b c d e :
  exists code,
    encrypt_promo_code iv a b c d e = Returns code /\
    str_encode code =
      urlsafe_b64encode (fernet_encrypt iv (str_encode (promo_data a b c d e))).
Proof.
  unfold encrypt_promo_code.
  destruct (bytes_decode (urlsafe_b64encode
              (fernet_encrypt iv (str_encode (promo_data a b c d e)))))
    as [code|] eqn:E.
  - exists code. split; [reflexivity|]. now apply str_encode_decode.
  - now apply urlsafe_b64encode_text in E.
Qed.

(** Decoding a minted code recovers the plaintext record, whatever the
    fields are. *)
Lemma decrypt_minted iv a b c d e code :
  encrypt_promo_code iv a b c d e = Returns code ->
  urlsafe_b64decode (str_encode code)
    = Some (fernet_encrypt iv (str_encode (promo_data a b c d e))).
Proof.
  intros H. destruct (encrypt_promo_code_returns iv a b c d e) as (code' & H' & Henc).
  rewrite H in H'. injection H' as <-.
  rewrite Henc. apply urlsafe_b64decode_encode.
Qed.

(** Decoding a code minted from delimiter-free fields returns them. *)
Lemma decrypt_promo_code_minted iv a b c d e code :
  contains delimiter a = false -> contains delimiter b = false ->
  contains delimiter c = false -> contains delimiter d = false ->
  contains delimiter e = false ->
  encrypt_promo_code iv a b c d e = Returns code ->
  decrypt_promo_code code =
    Returns {| Decoded.promo_text := a; Decoded.promoter_id := b;
               Decoded.restaurant_id := c; Decoded.post_id := d;
               Decoded.dish_id := e |}.
Proof.
  intros Ha Hb Hc Hd He Hcode.
  unfold decrypt_promo_code, decrypt_promo_code_body.
  rewrite (decrypt_minted _ _ _ _ _ _ _ Hcode). cbn [of_option result_bind].
  rewrite fernet_decrypt_encrypt. cbn [of_option result_bind].
  rewrite bytes_decode_encode. cbn [of_option result_bind].
  rewrite str_split_promo_data by assumption.
  reflexivity.
Qed.

(** C1.  Round trip: for every tuple (promo_text, promoter_id,
    restaurant_id, post_id, dish_id) none of whose fields contains the
    delimiter '|', Encode returns a code and Decode of that code returns
    exactly the tuple; an empty dish_id comes back as the empty string
    (it is one of the fields quantified over). *)
Theorem decode_encode_roundtrip iv a b c d e :
  contains delimiter a = false -> contains delimiter b = false ->
  contains delimiter c = false -> contains delimiter d = false ->
  contains delimiter e = false ->
  exists code,
    encrypt_promo_code iv a b c d e = Returns code /\
    decrypt_promo_code code =
      Returns {| Decoded.promo_text := a; Decoded.promoter_id := b;
                 Decoded.restaurant_id := c; Decoded.post_id := d;
                 Decoded.dish_id := e |}.
Proof.
  intros Ha Hb Hc Hd He.
  destruct (encrypt_promo_code_returns iv a b c d e) as (code & Hcode & _).
  exists code. split; [assumption|].
  now apply (decrypt_promo_code_minted iv).
Qed.

(** Whatever goes wrong inside Decode is reported as InvalidCodeError. *)
Lemma decrypt_promo_code_raises code e :
  decrypt_promo_code code = Raises e -> e = InvalidCodeError.
Proof.
  unfold decrypt_promo_code, try_except.
  destruct (decrypt_promo_code_body code); intros H; inversion H; reflexivity.
Qed.

Lemma fields_of_none_iff parts :
  fields_of parts = None <-> (length parts < 4)%nat.
Proof.
  destruct parts as [|p0 [|p1 [|p2 [|p3 rest]]]]; simpl;
    split; intros H; try reflexivity; try discriminate; lia.
Qed.

Lemma decrypt_promo_code_body_spec code :
  decrypt_promo_code_body code =
    (decrypted <- plaintext_of code ;;
     of_option IndexError (fields_of (str_split delimiter decrypted)))%result.
Proof.
  unfold decrypt_promo_code_body, plaintext_of.
  destruct (urlsafe_b64decode (str_encode code)) as [decoded|]; [|reflexivity].
  cbn [of_option result_bind].
  destruct (fernet_decrypt decoded) as [token_data|]; [|reflexivity].
  cbn [of_option result_bind].
  destruct (bytes_decode token_data) as [decrypted|]; [|reflexivity].
  cbn [of_option result_bind].
  destruct (str_split delimiter decrypted) as [|p0 [|p1 [|p2 [|p3 [|p4 rest]]]]];
    reflexivity.
Qed.

(** Decode raises exactly when the base64 text is malformed, the token
    fails verification, the plaintext is not text, or the record splits
    into fewer than four pieces. *)
Lemma decrypt_promo_code_raises_iff code :
  decrypt_promo_code code = Raises InvalidCodeError <->
  urlsafe_b64decode (str_encode code) = None
  \/ (exists decoded,
        urlsafe_b64decode (str_encode code) = Some decoded /\
        fernet_decrypt decoded = None)
  \/ (exists decoded token_data,
        urlsafe_b64decode (str_encode code) = Some decoded /\
        fernet_decrypt decoded = Some token_data /\
        bytes_decode token_data = None)
  \/ (exists decrypted,
        plaintext_of code = Returns decrypted /\
        (length (str_split delimiter decrypted) < 4)%nat).
Proof.
  unfold decrypt_promo_code. rewrite decrypt_promo_code_body_spec.
  unfold plaintext_of.
  destruct (urlsafe_b64decode (str_encode code)) as [decoded|];
    cbn [of_option result_bind try_except].
  2:{ split; [intros _; left; reflexivity | reflexivity]. }
  destruct (fernet_decrypt decoded) as [token_data|] eqn:Hd;
    cbn [of_option result_bind try_except].
  2:{ split; [intros _; right; left; exists decoded; auto | reflexivity]. }
  destruct (bytes_decode token_data) as [decrypted|] eqn:Ht;
    cbn [of_option result_bind try_except].
  2:{ split; [intros _; right; right; left; exists decoded, token_data; auto
             | reflexivity]. }
  destruct (fields_of (str_split delimiter decrypted)) as [f|] eqn:Hf;
    cbn [of_option try_except].
  - split; [discriminate|].
    intros [H | [(d & H & H') | [(d & t & H1 & H2 & H3) | (s & H & Hlen)]]].
    + discriminate.
    + injection H as <-. rewrite Hd in H'. discriminate.
    + injection H1 as <-. rewrite Hd in H2. injection H2 as <-.
      rewrite Ht in H3. discriminate.
    + injection H as <-. apply fields_of_none_iff in Hlen.
      rewrite Hlen in Hf. discriminate.
  - split; [|reflexivity]. intros _. right; right; right.
    exists decrypted. split; [reflexivity|]. now apply fields_of_none_iff.
Qed.

(** When Decode returns, the fields are those of the record that passed
    verification. *)
Lemma decrypt_promo_code_returns code d :
  decrypt_promo_code code = Returns d <->
  exists decrypted,
    plaintext_of code = Returns decrypted /\
    fields_of (str_split delimiter decrypted) = Some d.
Proof.
  unfold decrypt_promo_code. rewrite decrypt_promo_code_body_spec.
  destruct (plaintext_of code) as [decrypted|e]; cbn [result_bind try_except].
  - destruct (fields_of (str_split delimiter decrypted)) as [f|] eqn:E;
      cbn [of_option].
    + split.
      * intros H. injection H as <-. exists decrypted. split; [reflexivity|exact E].
      * intros (s & Hs & Hf). injection Hs as <-. rewrite E in Hf.
        injection Hf as <-. reflexivity.
    + split; [discriminate|]. intros (s & Hs & Hf). injection Hs as <-.
      rewrite E in Hf. discriminate.
  - split; [discriminate|]. intros (s & Hs & _). discriminate.
Qed.

(** The plaintext of a minted code is the joined record. *)
Lemma plaintext_of_minted iv a b c d e code :
  encrypt_promo_code iv a b c d e = Returns code ->
  plaintext_of code = Returns (promo_data a b c d e).
Proof.
  intros H. unfold plaintext_of.
  rewrite (decrypt_minted _ _ _ _ _ _ _ H). cbn [of_option result_bind].
  rewrite fernet_decrypt_encrypt. cbn [of_option result_bind].
  rewrite bytes_decode_encode. reflexivity.
Qed.

(** Decode reports every failure as InvalidCodeError, and fails exactly
    when the base64 text is malformed, the token fails verification, the
    verified plaintext is not text, or the record has fewer than four
    fields. *)
Theorem decrypt_promo_code_failure code :
  (forall e, decrypt_promo_code code = Raises e -> e = InvalidCodeError)
  /\ (decrypt_promo_code code = Raises InvalidCodeError <->
      urlsafe_b64decode (str_encode code) = None
      \/ (exists decoded,
            urlsafe_b64decode (str_encode code) = Some decoded /\
            fernet_decrypt decoded = None)
      \/ (exists decoded token_data,
            urlsafe_b64decode (str_encode code) = Some decoded /\
            fernet_decrypt decoded = Some token_data /\
            bytes_decode token_data = None)
      \/ (exists decrypted,
            plaintext_of code = Returns decrypted /\
            (length (str_split delimiter decrypted) < 4)%nat)).
Proof.
  split.
  - intros e. apply decrypt_promo_code_raises.
  - apply decrypt_promo_code_raises_iff.
Qed.

(** A promo text that itself contains delimiters shifts the decoded
    fields: its pieces are read as promoter, restaurant and post, and the
    real promoter as the dish. *)
Lemma decrypt_promo_code_injected iv a b c d promoter R1 post code :
  contains delimiter a = false -> contains delimiter b = false ->
  contains delimiter c = false -> contains delimiter d = false ->
  contains delimiter promoter = false ->
  encrypt_promo_code iv (a ++ "|" ++ b ++ "|" ++ c ++ "|" ++ d)
    promoter R1 post "" = Returns code ->
  decrypt_promo_code code =
    Returns {| Decoded.promo_text := a; Decoded.promoter_id := b;
               Decoded.restaurant_id := c; Decoded.post_id := d;
               Decoded.dish_id := promoter |}.
Proof.
  intros Ha Hb Hc Hd Hp Hcode.
  unfold decrypt_promo_code.
  rewrite decrypt_promo_code_body_spec, (plaintext_of_minted _ _ _ _ _ _ _ Hcode).
  cbn [result_bind]. unfold promo_data.
  change "|" with (String delimiter EmptyString). simpl append.
  rewrite !str_app_assoc. simpl append.
  rewrite (str_split_app _ a) by assumption.
  rewrite !str_app_assoc. simpl append.
  rewrite (str_split_app _ b) by assumption.
  rewrite !str_app_assoc. simpl append.
  rewrite (str_split_app _ c) by assumption.
  rewrite (str_split_app _ d) by assumption.
  rewrite (str_split_app _ promoter) by assumption.
  reflexivity.
Qed.

End CodecFacts.

(** ** Facts about collections *)

Lemma update_one_no_match {A} (filter : A -> bool) (update : A -> A) docs :
  find filter docs = None -> update_one filter update docs = docs.
Proof.
  induction docs as [|d rest IH]; simpl; [reflexivity|].
  destruct (filter d); [discriminate|].
  intros H. now rewrite IH.
Qed.

Lemma find_update_one {A} (filter : A -> bool) (update : A -> A) docs d :
  find filter docs = Some d ->
  filter (update d) = true ->
  find filter (update_one filter update docs) = Some (update d).
Proof.
  induction docs as [|a rest IH]; simpl; [discriminate|].
  destruct (filter a) eqn:Ea.
  - intros H Hd. injection H as ->. simpl. now rewrite Hd.
  - intros H Hd. simpl. rewrite Ea. now apply IH.
Qed.

Lemma map_update_one {A B} (key : A -> B) (filter : A -> bool)
    (update : A -> A) docs :
  (forall d, key (update d) = key d) ->
  map key (update_one filter update docs) = map key docs.
Proof.
  intros Hkey. induction docs as [|a rest IH]; simpl; [reflexivity|].
  destruct (filter a); simpl; [now rewrite Hkey|now rewrite IH].
Qed.

(** With pairwise distinct ids, updating by the [_id] of the first match of
    [filter] rewrites that very document. *)
Lemma update_one_by_id {A} (key : A -> nat) (filter : A -> bool)
    (update : A -> A) docs d :
  NoDup (map key docs) ->
  find filter docs = Some d ->
  update_one (fun x => Nat.eqb (key x) (key d)) update docs
    = update_one filter update docs.
Proof.
  induction docs as [|a rest IH]; simpl; [discriminate|].
  intros Hnd Hfind. inversion Hnd as [|k ks Hnotin Hnd']; subst.
  destruct (filter a) eqn:Ea.
  - injection Hfind as ->. now rewrite Nat.eqb_refl.
  - destruct (Nat.eqb (key a) (key d)) eqn:Ek.
    + exfalso. apply Hnotin. apply Nat.eqb_eq in Ek. rewrite Ek.
      apply in_map. apply find_some in Hfind. tauto.
    + f_equal. now apply IH.
Qed.

Lemma filter_update_one {A} (filter : A -> bool) (update : A -> A) docs :
  (forall d, filter (update d) = filter d) ->
  List.filter filter (update_one filter update docs) =
    match List.filter filter docs with
    | [] => []
    | d :: rest => update d :: rest
    end.
Proof.
  intros Hf. induction docs as [|a rest IH]; simpl; [reflexivity|].
  destruct (filter a) eqn:Ea; simpl.
  - now rewrite Hf, Ea.
  - now rewrite Ea.
Qed.

Lemma find_filter_head {A} (filter : A -> bool) docs :
  find filter docs = hd_error (List.filter filter docs).
Proof.
  induction docs as [|a rest IH]; simpl; [reflexivity|].
  destruct (filter a); [reflexivity|assumption].
Qed.

Lemma NoDup_snoc {A} (l : list A) (x : A) :
  NoDup l -> ~ In x l -> NoDup (l ++ [x]).
Proof.
  induction l as [|a rest IH]; simpl; intros Hnd Hx.
  - constructor; [intros []|constructor].
  - inversion Hnd as [|a' l' Ha Hrest]; subst. constructor.
    + rewrite in_app_iff. simpl. intros [H|[H|[]]]; [auto|subst; auto].
    + apply IH; auto.
Qed.

(** ** Redeem, step by step *)

Section RedeemFacts.
Context {L : Library}.

Lemma redeem_promo_unfold restaurant_id redemption current_user now st :
  redeem_promo restaurant_id redemption current_user now st =
    match validate restaurant_id redemption current_user now st with
    | Raises e => (Raises e, st)
    | Returns (decrypted, promo) =>
        (Returns (PromoRedeemed "Promo redeemed successfully" 10),
         settle restaurant_id redemption now decrypted promo st)
    end.
Proof.
  unfold redeem_promo, validate.
  destruct (negb (Payload.user_id current_user =? restaurant_id)%string);
    [reflexivity|].
  unfold bind at 1, lift at 1.
  destruct (decrypt_promo_code (PromoRedeem.promo_code_encrypted redemption))
    as [decrypted|e]; [|reflexivity].
  cbn [result_bind].
  destruct (negb (Decoded.restaurant_id decrypted =? restaurant_id)%string);
    [reflexivity|].
  unfold bind at 1, find_one_promocode at 1.
  destruct (find _ (promocodes st)) as [promo|]; [|reflexivity].
  unfold bind at 1, lift at 1.
  destruct (check_expiry promo now) as [[]|e]; [|reflexivity].
  cbn [result_bind].
  unfold settle, bind, update_one_promocode, find_one_loyalty, ret.
  cbn [posts promocodes loyalty_points next_oid].
  unfold ledger_key, redemption_obj, earned.
  destruct (find _ (loyalty_points st)) as [loyalty|]; reflexivity.
Qed.

End RedeemFacts.

(** ** Validation failures, restaurant binding and expiry *)

Section RedeemClaims.
Context {L : Library}.

(** C7.  A Redeem call that fails (authorization, decode, restaurant match,
    promo lookup or expiry: every exception Redeem raises comes from these
    steps) leaves the whole store as it was: no redemption is appended and
    no loyalty record is created or modified. *)
Theorem redeem_promo_failure_keeps_store
    restaurant_id redemption current_user now st e st' :
  redeem_promo restaurant_id redemption current_user now st = (Raises e, st') ->
  st' = st.
Proof.
  rewrite redeem_promo_unfold.
  destruct (validate restaurant_id redemption current_user now st)
    as [[decrypted promo]|e0]; intros H; inversion H; reflexivity.
Qed.

(** C2 (amended).  For every Redeem call that succeeds, the caller is the
    restaurant of the request, the restaurant_id decoded from the code is
    that restaurant, and the PromoCode record retrieved is the first one
    whose post_id is the decoded post_id.  The promoter_id and the
    restaurant_id stored in that record are not compared with the decoded
    ones. *)
Theorem redeem_promo_success_checks
    restaurant_id redemption current_user now st response st' :
  redeem_promo restaurant_id redemption current_user now st
    = (Returns response, st') ->
  exists decrypted promo,
    decrypt_promo_code (PromoRedeem.promo_code_encrypted redemption)
      = Returns decrypted /\
    Payload.user_id current_user = restaurant_id /\
    Decoded.restaurant_id decrypted = restaurant_id /\
    find (fun p => (PromoCode.post_id p =? Decoded.post_id decrypted)%string)
         (promocodes st) = Some promo /\
    PromoCode.post_id promo = Decoded.post_id decrypted.
Proof.
  rewrite redeem_promo_unfold. unfold validate.
  destruct (Payload.user_id current_user =? restaurant_id)%string eqn:Hactor;
    cbn [negb]; [|discriminate].
  destruct (decrypt_promo_code (PromoRedeem.promo_code_encrypted redemption))
    as [decrypted|e]; cbn [result_bind]; [|discriminate].
  destruct (Decoded.restaurant_id decrypted =? restaurant_id)%string eqn:Hrest;
    cbn [negb]; [|discriminate].
  destruct (find _ (promocodes st)) as [promo|] eqn:Hfind; [|discriminate].
  intros _. exists decrypted, promo.
  apply String.eqb_eq in Hactor, Hrest.
  repeat split; try assumption.
  apply find_some in Hfind. now apply String.eqb_eq.
Qed.

(** C5 (amended).  A code minted with restaurant_id R1 from fields none of
    which contains '|', presented in a Redeem call for a restaurant R2
    distinct from R1, is refused and the store is unchanged: with
    RestaurantMismatch when the caller is R2, and already with Forbidden
    when the caller is not R2. *)
Theorem redeem_promo_other_restaurant
    iv promo_text promoter_id R1 post_id dish_id code
    R2 redemption current_user now st :
  contains delimiter promo_text = false ->
  contains delimiter promoter_id = false ->
  contains delimiter R1 = false ->
  contains delimiter post_id = false ->
  contains delimiter dish_id = false ->
  encrypt_promo_code iv promo_text promoter_id R1 post_id dish_id
    = Returns code ->
  PromoRedeem.promo_code_encrypted redemption = code ->
  R2 <> R1 ->
  redeem_promo R2 redemption current_user now st =
    (Raises (if (Payload.user_id current_user =? R2)%string
             then RestaurantMismatch else Forbidden), st).
Proof.
  intros Ha Hb Hc Hd He Hcode Hred Hneq.
  rewrite redeem_promo_unfold. unfold validate.
  destruct (Payload.user_id current_user =? R2)%string; cbn [negb];
    [|reflexivity].
  rewrite Hred, (decrypt_promo_code_minted iv _ _ _ _ _ _ Ha Hb Hc Hd He Hcode).
  cbn [result_bind Decoded.restaurant_id].
  destruct (R1 =? R2)%string eqn:E; cbn [negb]; [|reflexivity].
  apply String.eqb_eq in E. congruence.
Qed.

Lemma check_expiry_past promo now s expiry :
  PromoCode.expiry_date promo = Some s ->
  fromisoformat s = Some expiry ->
  expiry < now ->
  check_expiry promo now = Raises Expired.
Proof.
  intros Hs Hparse Hlt. unfold check_expiry. rewrite Hs.
  destruct (s =? "")%string eqn:E.
  - apply String.eqb_eq in E. subst s.
    rewrite fromisoformat_empty in Hparse. discriminate.
  - rewrite Hparse. cbn [of_option result_bind].
    replace (now >? expiry) with true; [reflexivity|].
    symmetry. apply Z.gtb_lt. assumption.
Qed.

Lemma check_expiry_none promo now :
  PromoCode.expiry_date promo = None ->
  check_expiry promo now = Returns tt.
Proof. intros H. unfold check_expiry. now rewrite H. Qed.

Lemma check_expiry_future promo now s expiry :
  PromoCode.expiry_date promo = Some s ->
  fromisoformat s = Some expiry ->
  now <= expiry ->
  check_expiry promo now = Returns tt.
Proof.
  intros Hs Hparse Hle. unfold check_expiry. rewrite Hs.
  destruct (s =? "")%string; [reflexivity|].
  rewrite Hparse. cbn [of_option result_bind].
  replace (now >? expiry) with false; [reflexivity|].
  symmetry. rewrite Z.gtb_ltb. apply Z.ltb_ge. assumption.
Qed.

Lemma check_expiry_empty promo now :
  PromoCode.expiry_date promo = Some "" ->
  check_expiry promo now = Returns tt.
Proof. intros H. unfold check_expiry. now rewrite H. Qed.

Lemma check_expiry_unread promo now s :
  PromoCode.expiry_date promo = Some s ->
  s <> "" ->
  fromisoformat s = None ->
  check_expiry promo now = Raises ValueError.
Proof.
  intros Hs Hne Hparse. unfold check_expiry. rewrite Hs.
  destruct (s =? "")%string eqn:E.
  - apply String.eqb_eq in E. contradiction.
  - now rewrite Hparse.
Qed.

(** C6 (amended).  Take a Redeem call on a valid code: the caller is the
    restaurant and the code decodes to that restaurant.  The expiry that
    counts is that of the first PromoCode record stored for the decoded
    post_id, which need not be the record made with the presented code.
    If that record's expiry_date is read by fromisoformat as a naive
    instant before the current time, the call fails with Expired and the
    store is unchanged; if the record has no expiry_date or an empty one,
    or one read as an instant not before the current time, the call
    succeeds and reports the 10 points awarded; if the expiry_date is a
    non-empty string that fromisoformat rejects or reads as offset-aware,
    the call fails with the error of the date library, not with Expired,
    and the store is unchanged. *)
Theorem redeem_promo_expiry
    restaurant_id redemption current_user now st decrypted promo :
  Payload.user_id current_user = restaurant_id ->
  decrypt_promo_code (PromoRedeem.promo_code_encrypted redemption)
    = Returns decrypted ->
  Decoded.restaurant_id decrypted = restaurant_id ->
  find (fun p => (PromoCode.post_id p =? Decoded.post_id decrypted)%string)
       (promocodes st) = Some promo ->
  (forall s expiry,
      PromoCode.expiry_date promo = Some s ->
      fromisoformat s = Some expiry ->
      expiry < now ->
      redeem_promo restaurant_id redemption current_user now st
        = (Raises Expired, st))
  /\ (PromoCode.expiry_date promo = None ->
      fst (redeem_promo restaurant_id redemption current_user now st)
        = Returns (PromoRedeemed "Promo redeemed successfully" 10))
  /\ (forall s expiry,
      PromoCode.expiry_date promo = Some s ->
      fromisoformat s = Some expiry ->
      now <= expiry ->
      fst (redeem_promo restaurant_id redemption current_user now st)
        = Returns (PromoRedeemed "Promo redeemed successfully" 10))
  /\ (PromoCode.expiry_date promo = Some "" ->
      fst (redeem_promo restaurant_id redemption current_user now st)
        = Returns (PromoRedeemed "Promo redeemed successfully" 10))
  /\ (forall s,
      PromoCode.expiry_date promo = Some s ->
      s <> "" ->
      fromisoformat s = None ->
      redeem_promo restaurant_id redemption current_user now st
        = (Raises ValueError, st)).
Proof.
  intros Hactor Hdec Hrest Hfind.
  assert (Hval : validate restaurant_id redemption current_user now st =
                 (_ <- check_expiry promo now ;; Returns (decrypted, promo))%result).
  { unfold validate. rewrite Hactor, String.eqb_refl. cbn [negb].
    rewrite Hdec. cbn [result_bind].
    rewrite Hrest, String.eqb_refl. cbn [negb].
    rewrite Hfind. reflexivity. }
  rewrite redeem_promo_unfold, Hval.
  split; [|split; [|split; [|split]]].
  - intros s expiry Hs Hparse Hlt.
    now rewrite (check_expiry_past _ _ _ _ Hs Hparse Hlt).
  - intros Hnone. now rewrite (check_expiry_none _ _ Hnone).
  - intros s expiry Hs Hparse Hle.
    now rewrite (check_expiry_future _ _ _ _ Hs Hparse Hle).
  - intros Hempty. now rewrite (check_expiry_empty _ _ Hempty).
  - intros s Hs Hne Hparse.
    now rewrite (check_expiry_unread _ _ _ Hs Hne Hparse).
Qed.

End RedeemClaims.

(** ** The loyalty ledger *)

Section Ledger.
Context {L : Library}.

Lemma ledger_ids_ok_empty : ledger_ids_ok empty_store.
Proof. split; simpl; constructor. Qed.

Lemma ledger_ids_ok_same_ledger st st' :
  loyalty_points st' = loyalty_points st ->
  (next_oid st <= next_oid st')%nat ->
  ledger_ids_ok st -> ledger_ids_ok st'.
Proof.
  intros Hl Hn [Hnd Hlt]. unfold ledger_ids_ok. rewrite Hl. split; [assumption|].
  eapply Forall_impl; [|exact Hlt]. simpl. intros; lia.
Qed.

Lemma credit_key R F n tx now l :
  ledger_key R F (Loyalty.credit n tx now l) = ledger_key R F l.
Proof. reflexivity. Qed.

(** One settled redemption for the pair: the first ledger record of the
    pair is credited, or a record is created when there is none. *)
Lemma settle_ledger R redemption now decrypted promo st :
  ledger_ids_ok st ->
  let st' := settle R redemption now decrypted promo st in
  ledger_ids_ok st' /\
  ledger_of R (Decoded.promoter_id decrypted) st' =
    match ledger_of R (Decoded.promoter_id decrypted) st with
    | [] => [{| Loyalty._id := next_oid st;
                Loyalty.restaurant_id := R;
                Loyalty.foodie_id := Decoded.promoter_id decrypted;
                Loyalty.points := 10;
                Loyalty.transactions := [earned promo now];
                Loyalty.last_updated := now |}]
    | l :: rest => Loyalty.credit 10 (earned promo now) now l :: rest
    end.
Proof.
  intros [Hnd Hlt]. unfold ledger_of, ledger_ids_ok, settle.
  cbn [loyalty_points next_oid].
  set (F := Decoded.promoter_id decrypted).
  pose proof (find_filter_head (ledger_key R F) (loyalty_points st)) as Hhd.
  destruct (find (ledger_key R F) (loyalty_points st)) as [l|] eqn:Hfind.
  - rewrite (update_one_by_id Loyalty._id _ _ _ _ Hnd Hfind).
    rewrite map_update_one by reflexivity.
    split; [split; assumption|].
    rewrite filter_update_one by (intros; apply credit_key).
    destruct (List.filter (ledger_key R F) (loyalty_points st));
      [discriminate|reflexivity].
  - split.
    + rewrite map_app. cbn [map Loyalty._id]. split.
      * apply NoDup_snoc; [assumption|].
        intros Hin. rewrite Forall_forall in Hlt. apply Hlt in Hin. lia.
      * apply Forall_app. split.
        -- eapply Forall_impl; [|exact Hlt]. simpl. intros; lia.
        -- constructor; [lia|constructor].
    + rewrite filter_app. cbn [List.filter].
      assert (Hkey : ledger_key R F
                {| Loyalty._id := next_oid st; Loyalty.restaurant_id := R;
                   Loyalty.foodie_id := F; Loyalty.points := 10;
                   Loyalty.transactions := [earned promo now];
                   Loyalty.last_updated := now |} = true).
      { unfold ledger_key. cbn. now rewrite !String.eqb_refl. }
      rewrite Hkey.
      destruct (List.filter (ledger_key R F) (loyalty_points st));
        [reflexivity|discriminate].
Qed.

End Ledger.

Section LedgerClaims.
Context {L : Library}.

Lemma validate_returns restaurant_id redemption current_user now st decrypted promo :
  validate restaurant_id redemption current_user now st
    = Returns (decrypted, promo) ->
  decrypt_promo_code (PromoRedeem.promo_code_encrypted redemption)
    = Returns decrypted.
Proof.
  unfold validate.
  destruct (negb _); [discriminate|].
  destruct (decrypt_promo_code _) as [d|e]; cbn [result_bind]; [|discriminate].
  destruct (negb _); [discriminate|].
  destruct (find _ _) as [p|]; [|discriminate].
  destruct (check_expiry p now) as [[]|e]; cbn [result_bind]; [|discriminate].
  intros H. injection H as -> _. reflexivity.
Qed.

Lemma redemptions_credited R F n st0 st :
  ledger_ids_ok st0 ->
  ledger_of R F st0 = [] ->
  redemptions R F n st0 st ->
  ledger_ids_ok st /\ credited n (ledger_of R F st).
Proof.
  intros Hok Hnone Hrun.
  induction Hrun as [st|n st0 st st' redemption current_user now response
                        decrypted Hrun IH Hredeem Hdec HF].
  - split; assumption.
  - destruct (IH Hok Hnone) as [Hok' Hcred]. clear IH.
    rewrite redeem_promo_unfold in Hredeem.
    destruct (validate R redemption current_user now st)
      as [[d promo]|e] eqn:Hval; [|discriminate].
    apply validate_returns in Hval. rewrite Hdec in Hval.
    injection Hval as <-. injection Hredeem as _ <-.
    destruct (settle_ledger R redemption now decrypted promo st Hok')
      as [Hok'' Hledger].
    rewrite HF in Hledger. split; [assumption|].
    rewrite Hledger. destruct n as [|n]; simpl in Hcred.
    + rewrite Hcred. simpl. eexists. split; [reflexivity|]. split; reflexivity.
    + destruct Hcred as (l & -> & Hpoints & Htx).
      eexists. split; [reflexivity|].
      cbn [Loyalty.credit Loyalty.points Loyalty.transactions].
      split.
      * rewrite Hpoints. lia.
      * rewrite length_app, Htx. simpl. lia.
Qed.

(** C8.  Start from a store with no ledger record for the pair
    (restaurant, foodie).  After any sequence of N (at least one)
    successful sequential redemptions crediting the pair, exactly one
    ledger record exists for the pair, its points are 10 * N and its
    transactions sequence has length N. *)
Theorem ledger_after_redemptions R F N st0 st :
  ledger_ids_ok st0 ->
  ledger_of R F st0 = [] ->
  redemptions R F N st0 st ->
  (0 < N)%nat ->
  exists l,
    ledger_of R F st = [l] /\
    Loyalty.points l = 10 * Z.of_nat N /\
    length (Loyalty.transactions l) = N.
Proof.
  intros Hok Hnone Hrun Hpos.
  destruct (redemptions_credited R F N st0 st Hok Hnone Hrun) as [_ Hcred].
  destruct N as [|n]; [lia|]. exact Hcred.
Qed.

End LedgerClaims.

(** ** Approve and Reject *)

Section ApproveReject.
Context {L : Library}.

Lemma approve_promo_unfold restaurant_id post_id promo current_user now iv st :
  approve_promo restaurant_id post_id promo current_user now iv st =
    if negb (Payload.user_id current_user =? restaurant_id)%string
    then (Raises Forbidden, st)
    else
      match ObjectId post_id with
      | None => (Raises InvalidId, st)
      | Some oid =>
          match find (fun p => Nat.eqb (Post._id p) oid) (posts st) with
          | None => (Raises PostNotFound, st)
          | Some post =>
              match encrypt_promo_code iv
                      (PromoApprove.promo_code_plain_text promo)
                      (Post.user_id post) restaurant_id post_id "" with
              | Raises e => (Raises e, st)
              | Returns code =>
                  (Returns (PromoApproved "Promo approved" code),
                   {| posts :=
                        update_one (fun p => Nat.eqb (Post._id p) oid)
                          (Post.set_approved (str_of_oid (next_oid st)) now)
                          (posts st);
                      promocodes :=
                        promocodes st ++
                          [minted restaurant_id post_id promo now post code
                                  (next_oid st)];
                      loyalty_points := loyalty_points st;
                      next_oid := S (next_oid st) |})
              end
          end
      end.
Proof.
  unfold approve_promo.
  destruct (negb _); [reflexivity|].
  unfold bind at 1, lift at 1.
  destruct (ObjectId post_id) as [oid|]; [|reflexivity].
  cbn [of_option].
  unfold bind at 1, find_one_post at 1.
  destruct (find _ (posts st)) as [post|]; [|reflexivity].
  unfold bind at 1, lift at 1.
  destruct (encrypt_promo_code _ _ _ _ _ _) as [code|e]; reflexivity.
Qed.

Lemma reject_promo_unfold restaurant_id post_id current_user now st :
  reject_promo restaurant_id post_id current_user now st =
    if negb (Payload.user_id current_user =? restaurant_id)%string
    then (Raises Forbidden, st)
    else
      match ObjectId post_id with
      | None => (Raises InvalidId, st)
      | Some oid =>
          (Returns (PromoRejected "Promo rejected"),
           {| posts :=
                update_one (fun p => Nat.eqb (Post._id p) oid)
                           (Post.set_rejected now) (posts st);
              promocodes := promocodes st;
              loyalty_points := loyalty_points st;
              next_oid := next_oid st |})
      end.
Proof.
  unfold reject_promo.
  destruct (negb _); [reflexivity|].
  unfold bind at 1, lift at 1.
  destruct (ObjectId post_id) as [oid|]; reflexivity.
Qed.

Lemma actor_mismatch (actor restaurant_id : string) :
  actor <> restaurant_id -> negb (actor =? restaurant_id)%string = true.
Proof.
  intros H. destruct (actor =? restaurant_id)%string eqn:E; [|reflexivity].
  apply String.eqb_eq in E. contradiction.
Qed.

Lemma actor_match (actor restaurant_id : string) :
  actor = restaurant_id -> negb (actor =? restaurant_id)%string = false.
Proof. intros ->. now rewrite String.eqb_refl. Qed.

(** C3 (amended).  For every Approve call, if the acting principal is not
    the restaurant_id of the request (the restaurant in whose name the call
    is made), the call fails with Forbidden and the store is unchanged, so
    no PromoCode is created.  The restaurant tagged on the post is not
    consulted. *)
Theorem approve_promo_forbidden
    restaurant_id post_id promo current_user now iv st :
  Payload.user_id current_user <> restaurant_id ->
  approve_promo restaurant_id post_id promo current_user now iv st
    = (Raises Forbidden, st).
Proof.
  intros H. rewrite approve_promo_unfold.
  now rewrite (actor_mismatch _ _ H).
Qed.

(** C4 (amended).  Approve and Reject do not look at the current
    promotion_status.  For every existing post, whatever its status (also
    Approved or Rejected), an authorized Approve sets it to Approved,
    attaches the id of a newly inserted PromoCode record and returns the
    code; an authorized Reject sets it to Rejected. *)
Theorem approve_reject_overwrite_status
    restaurant_id post_id current_user now st oid post :
  Payload.user_id current_user = restaurant_id ->
  ObjectId post_id = Some oid ->
  find (fun p => Nat.eqb (Post._id p) oid) (posts st) = Some post ->
  (forall promo iv, exists code st',
      approve_promo restaurant_id post_id promo current_user now iv st
        = (Returns (PromoApproved "Promo approved" code), st') /\
      find (fun p => Nat.eqb (Post._id p) oid) (posts st')
        = Some (Post.set_approved (str_of_oid (next_oid st)) now post) /\
      promocodes st' =
        (promocodes st ++
           [minted restaurant_id post_id promo now post code (next_oid st)])%list)
  /\ (exists st',
      reject_promo restaurant_id post_id current_user now st
        = (Returns (PromoRejected "Promo rejected"), st') /\
      find (fun p => Nat.eqb (Post._id p) oid) (posts st')
        = Some (Post.set_rejected now post)).
Proof.
  intros Hactor Hoid Hfind.
  assert (Hid : Nat.eqb (Post._id post) oid = true)
    by (apply find_some in Hfind; tauto).
  split.
  - intros promo iv.
    destruct (encrypt_promo_code_returns iv
                (PromoApprove.promo_code_plain_text promo)
                (Post.user_id post) restaurant_id post_id "")
      as (code & Hcode & _).
    eexists code, _. rewrite approve_promo_unfold.
    rewrite (actor_match _ _ Hactor), Hoid, Hfind, Hcode.
    split; [reflexivity|]. cbn [posts promocodes]. split; [|reflexivity].
    now apply find_update_one.
  - eexists. rewrite reject_promo_unfold.
    rewrite (actor_match _ _ Hactor), Hoid.
    split; [reflexivity|]. cbn [posts].
    now apply find_update_one.
Qed.

(** C10 (amended).  For every Reject call whose actor equals the
    restaurant_id of the request, the call never fails with NotFound (no
    HTTP 404).  For a post id that ObjectId accepts it reports success
    whether or not a post with that id exists, and when none exists the
    store is left as it was; for a post id that ObjectId rejects it fails
    with InvalidId and the store is left as it was. *)
Theorem reject_promo_no_existence_check
    restaurant_id post_id current_user now st :
  Payload.user_id current_user = restaurant_id ->
  (forall detail,
      fst (reject_promo restaurant_id post_id current_user now st)
        <> Raises (HTTPException 404 detail))
  /\ (forall oid,
      ObjectId post_id = Some oid ->
      fst (reject_promo restaurant_id post_id current_user now st)
        = Returns (PromoRejected "Promo rejected") /\
      (find (fun p => Nat.eqb (Post._id p) oid) (posts st) = None ->
       reject_promo restaurant_id post_id current_user now st
         = (Returns (PromoRejected "Promo rejected"), st)))
  /\ (ObjectId post_id = None ->
      reject_promo restaurant_id post_id current_user now st
        = (Raises InvalidId, st)).
Proof.
  intros Hactor. rewrite reject_promo_unfold, (actor_match _ _ Hactor).
  split; [|split].
  - intros detail. destruct (ObjectId post_id); simpl; discriminate.
  - intros oid ->. split; [reflexivity|].
    intros Hnone. rewrite (update_one_no_match _ _ _ Hnone).
    destruct st; reflexivity.
  - intros ->. reflexivity.
Qed.

(** The code an authorized Approve returns for an existing post decodes to
    the plain text, the author of the post, the restaurant and the post id,
    with an empty dish_id (none of them containing the delimiter). *)
Theorem approve_promo_code_decodes
    restaurant_id post_id promo current_user now iv st oid post :
  Payload.user_id current_user = restaurant_id ->
  ObjectId post_id = Some oid ->
  find (fun p => Nat.eqb (Post._id p) oid) (posts st) = Some post ->
  contains delimiter (PromoApprove.promo_code_plain_text promo) = false ->
  contains delimiter (Post.user_id post) = false ->
  contains delimiter restaurant_id = false ->
  contains delimiter post_id = false ->
  exists code st',
    approve_promo restaurant_id post_id promo current_user now iv st
      = (Returns (PromoApproved "Promo approved" code), st') /\
    decrypt_promo_code code =
      Returns {| Decoded.promo_text := PromoApprove.promo_code_plain_text promo;
                 Decoded.promoter_id := Post.user_id post;
                 Decoded.restaurant_id := restaurant_id;
                 Decoded.post_id := post_id;
                 Decoded.dish_id := "" |}.
Proof.
  intros Hactor Hoid Hfind Ht Hu Hr Hp.
  destruct (encrypt_promo_code_returns iv
              (PromoApprove.promo_code_plain_text promo)
              (Post.user_id post) restaurant_id post_id "")
    as (code & Hcode & _).
  eexists code, _. rewrite approve_promo_unfold.
  rewrite (actor_match _ _ Hactor), Hoid, Hfind, Hcode.
  split; [reflexivity|].
  now apply (decrypt_promo_code_minted iv).
Qed.

End ApproveReject.

(** ** The ledger id invariant holds in every reachable store *)

Section Reachable.
Context {L : Library}.

Lemma create_post_ledger_ids_ok post current_user now st :
  ledger_ids_ok st ->
  ledger_ids_ok (snd (create_post post current_user now st)).
Proof.
  apply ledger_ids_ok_same_ledger; simpl; [reflexivity|lia].
Qed.

Lemma approve_promo_ledger_ids_ok
    restaurant_id post_id promo current_user now iv st :
  ledger_ids_ok st ->
  ledger_ids_ok
    (snd (approve_promo restaurant_id post_id promo current_user now iv st)).
Proof.
  rewrite approve_promo_unfold.
  destruct (negb _); [trivial|].
  destruct (ObjectId post_id); [|trivial].
  destruct (find _ _); [|trivial].
  destruct (encrypt_promo_code _ _ _ _ _ _); [|trivial].
  apply ledger_ids_ok_same_ledger; simpl; [reflexivity|lia].
Qed.

Lemma reject_promo_ledger_ids_ok restaurant_id post_id current_user now st :
  ledger_ids_ok st ->
  ledger_ids_ok (snd (reject_promo restaurant_id post_id current_user now st)).
Proof.
  rewrite reject_promo_unfold.
  destruct (negb _); [trivial|].
  destruct (ObjectId post_id); [|trivial].
  apply ledger_ids_ok_same_ledger; simpl; [reflexivity|lia].
Qed.

Lemma redeem_promo_ledger_ids_ok restaurant_id redemption current_user now st :
  ledger_ids_ok st ->
  ledger_ids_ok (snd (redeem_promo restaurant_id redemption current_user now st)).
Proof.
  intros Hok. rewrite redeem_promo_unfold.
  destruct (validate _ _ _ _ _) as [[decrypted promo]|e]; [|exact Hok].
  apply (settle_ledger restaurant_id redemption now decrypted promo st Hok).
Qed.

End Reachable.

(** ** The claims on concrete runs *)

Section Runs.
Import Scenario.
#[local] Existing Instance Reference.library.

(** Closed facts about concrete runs are settled by evaluation. *)
Ltac by_running := vm_compute; repeat split.

(** How the stores of the scenario are reached. *)
Example scenario_runs :
  create_post (request "r1") f1 20240101 empty_store
    = (Returns (PostCreated p1 "Post created successfully"), posted)
  /\ create_post (request "r2") f2 20240101 posted
    = (Returns (PostCreated p2 "Post created successfully"), posted2)
  /\ reject_promo "r1" p1 r1 20240102 posted
    = (Returns (PromoRejected "Promo rejected"), rejected)
  /\ approve_promo "r1" p1 (offer "SAVE10" None) r1 20240102 iv posted
    = (Returns (PromoApproved "Promo approved" code_r1), approved)
  /\ approve_promo "r1" p1 (offer "SAVE10" (Some "2024-06-30")) r1 20240102 iv
       posted
    = (Returns (PromoApproved "Promo approved" code_r1), approved_until)
  /\ approve_promo "r2" p2 (offer "LUNCH" None) r2 20240102 iv posted2
    = (Returns (PromoApproved "Promo approved"
                  "F0LUNCH|f2|r2|000000000000000000000001|"), approved_r2)
  /\ redeem_promo "r1" (present code_r1 "f1") r1 20240201 approved
    = (Returns (PromoRedeemed "Promo redeemed successfully" 10), redeemed_once)
  /\ redeem_promo "r1" (present code_r1 "f1") r1 20240202 redeemed_once
    = (Returns (PromoRedeemed "Promo redeemed successfully" 10), redeemed_twice).
Proof. by_running. Qed.

Lemma decode_encode_roundtrip_witness :
  exists code,
    encrypt_promo_code iv "SAVE10" "f1" "r1" "p1" "" = Returns code /\
    decrypt_promo_code code =
      Returns {| Decoded.promo_text := "SAVE10"; Decoded.promoter_id := "f1";
                 Decoded.restaurant_id := "r1"; Decoded.post_id := "p1";
                 Decoded.dish_id := "" |}.
Proof.
  apply (decode_encode_roundtrip (L := Reference.library)); reflexivity.
Defined.

Lemma redeem_promo_failure_keeps_store_witness :
  snd (redeem_promo "r2" (present code_r1 "f1") r2 20240201 approved) = approved.
Proof.
  apply (redeem_promo_failure_keeps_store (L := Reference.library)
           "r2" (present code_r1 "f1") r2 20240201 approved RestaurantMismatch).
  vm_compute. reflexivity.
Defined.

Lemma redeem_promo_success_checks_witness :
  exists decrypted promo,
    decrypt_promo_code (PromoRedeem.promo_code_encrypted (present code_r1 "f1"))
      = Returns decrypted /\
    Payload.user_id r1 = "r1" /\
    Decoded.restaurant_id decrypted = "r1" /\
    find (fun p => (PromoCode.post_id p =? Decoded.post_id decrypted)%string)
         (promocodes approved) = Some promo /\
    PromoCode.post_id promo = Decoded.post_id decrypted.
Proof.
  apply (redeem_promo_success_checks (L := Reference.library)
           "r1" (present code_r1 "f1") r1 20240201 approved
           (PromoRedeemed "Promo redeemed successfully" 10) redeemed_once).
  vm_compute. reflexivity.
Defined.

(** C2 as stated fails.  r1 and then r2 approve f1's post (nothing stops the
    second approval); r2 redeems the code it was given.  The call succeeds,
    the code decodes to restaurant r2, and the record retrieved by post_id
    is the one r1 created: its restaurant_id is r1. *)
Lemma redeem_promo_record_mismatch :
  approve_promo "r1" p1 (offer "SAVE10" None) r1 20240102 iv posted
    = (Returns (PromoApproved "Promo approved" code_r1), approved)
  /\ approve_promo "r2" p1 (offer "SAVE10" None) r2 20240103 iv approved
    = (Returns (PromoApproved "Promo approved" code_r2), approved_twice)
  /\ fst (redeem_promo "r2" (present code_r2 "f1") r2 20240201 approved_twice)
    = Returns (PromoRedeemed "Promo redeemed successfully" 10)
  /\ decrypt_promo_code code_r2 =
       Returns {| Decoded.promo_text := "SAVE10"; Decoded.promoter_id := "f1";
                  Decoded.restaurant_id := "r2"; Decoded.post_id := p1;
                  Decoded.dish_id := "" |}
  /\ option_map PromoCode.restaurant_id
       (find (fun p => (PromoCode.post_id p =? p1)%string)
             (promocodes approved_twice)) = Some "r1".
Proof. by_running. Qed.

Lemma approve_promo_forbidden_witness :
  approve_promo "r1" p1 (offer "SAVE10" None) r2 20240102 iv posted
    = (Raises Forbidden, posted).
Proof.
  apply (approve_promo_forbidden (L := Reference.library)).
  discriminate.
Defined.

(** C3 as stated fails.  f1's post tags r1.  r2, acting in its own name,
    approves it: the call returns a code and a PromoCode record of r2 is
    created. *)
Lemma approve_promo_by_untagged_restaurant :
  map (fun p => PostCreate.restaurant_tagged_id (Post.body p)) (posts posted)
    = [Some "r1"]
  /\ Payload.user_id r2 = "r2"
  /\ fst (approve_promo "r2" p1 (offer "SAVE10" None) r2 20240103 iv posted)
    = Returns (PromoApproved "Promo approved" code_r2)
  /\ promocodes posted = []
  /\ map PromoCode.restaurant_id
       (promocodes
          (snd (approve_promo "r2" p1 (offer "SAVE10" None) r2 20240103 iv posted)))
    = ["r2"].
Proof. by_running. Qed.

Lemma approve_reject_overwrite_status_witness :
  exists code st',
    approve_promo "r1" p1 (offer "SAVE10" None) r1 20240103 iv rejected
      = (Returns (PromoApproved "Promo approved" code), st') /\
    option_map Post.promotion_status
      (find (fun p => Nat.eqb (Post._id p) 0) (posts st')) = Some Approved.
Proof.
  destruct (approve_reject_overwrite_status (L := Reference.library)
              "r1" p1 r1 20240103 rejected 0%nat
              (Post.set_rejected 20240102
                 {| Post._id := 0; Post.body := request "r1";
                    Post.user_id := "f1"; Post.post_type := "Promotion";
                    Post.likes := []; Post.comments := [];
                    Post.promotion_status := Pending;
                    Post.created_at := 20240101; Post.updated_at := 20240101;
                    Post.promo_code_id := None |})
              eq_refl eq_refl eq_refl) as [Happrove _].
  destruct (Happrove (offer "SAVE10" None) iv) as (code & st' & Hrun & Hpost & _).
  exists code, st'. split; [exact Hrun|]. rewrite Hpost. reflexivity.
Defined.

(** C4 as stated fails.  A Rejected post becomes Approved by a later
    Approve, an Approved post becomes Rejected by a later Reject, and a
    second Approve of an Approved post inserts a second PromoCode record. *)
Lemma terminal_status_is_overwritten :
  map Post.promotion_status (posts rejected) = [Rejected]
  /\ fst (approve_promo "r1" p1 (offer "SAVE10" None) r1 20240103 iv rejected)
    = Returns (PromoApproved "Promo approved" code_r1)
  /\ map Post.promotion_status
       (posts (snd (approve_promo "r1" p1 (offer "SAVE10" None) r1 20240103 iv
                      rejected))) = [Approved]
  /\ map Post.promotion_status (posts approved) = [Approved]
  /\ fst (reject_promo "r1" p1 r1 20240103 approved)
    = Returns (PromoRejected "Promo rejected")
  /\ map Post.promotion_status
       (posts (snd (reject_promo "r1" p1 r1 20240103 approved))) = [Rejected]
  /\ length (promocodes approved) = 1%nat
  /\ length (promocodes
               (snd (approve_promo "r1" p1 (offer "SAVE10" None) r1 20240103 iv
                       approved))) = 2%nat.
Proof. by_running. Qed.

Lemma redeem_promo_other_restaurant_witness :
  redeem_promo "r2" (present code_r1 "f1") r2 20240201 approved
    = (Raises RestaurantMismatch, approved)
  /\ redeem_promo "r2" (present code_r1 "f1") r3 20240201 approved
    = (Raises Forbidden, approved).
Proof.
  split.
  - apply (redeem_promo_other_restaurant (L := Reference.library)
             iv "SAVE10" "f1" "r1" p1 "" code_r1
             "r2" (present code_r1 "f1") r2 20240201 approved);
      try reflexivity.
    discriminate.
  - apply (redeem_promo_other_restaurant (L := Reference.library)
             iv "SAVE10" "f1" "r1" p1 "" code_r1
             "r2" (present code_r1 "f1") r3 20240201 approved);
      try reflexivity.
    discriminate.
Defined.

(** C5 as stated fails.  r2 has approved f2's post.  r1 approves f1's post
    with a promo text that contains the delimiter: the code is minted with
    restaurant_id r1.  Presented at r2, it decodes to restaurant r2 and to
    the post of r2's own promotion: the redemption succeeds and credits
    foodie f9 at r2. *)
Lemma redeem_promo_injected_code :
  encrypt_promo_code iv injected_text "f1" "r1" p1 "" = Returns code_injected
  /\ approve_promo "r1" p1 (offer injected_text None) r1 20240103 iv approved_r2
    = (Returns (PromoApproved "Promo approved" code_injected), approved_injected)
  /\ fst (redeem_promo "r2" (present code_injected "f9") r2 20240201
            approved_injected)
    = Returns (PromoRedeemed "Promo redeemed successfully" 10)
  /\ loyalty_points approved_injected = []
  /\ map (fun l => (Loyalty.restaurant_id l, Loyalty.foodie_id l, Loyalty.points l))
       (loyalty_points
          (snd (redeem_promo "r2" (present code_injected "f9") r2 20240201
                  approved_injected)))
    = [("r2", "f9", 10)].
Proof. by_running. Qed.

Lemma redeem_promo_expiry_witness :
  redeem_promo "r1" (present code_r1 "f1") r1 20240701 approved_until
    = (Raises Expired, approved_until)
  /\ fst (redeem_promo "r1" (present code_r1 "f1") r1 20240601 approved_until)
    = Returns (PromoRedeemed "Promo redeemed successfully" 10).
Proof.
  pose (decrypted :=
          {| Decoded.promo_text := "SAVE10"; Decoded.promoter_id := "f1";
             Decoded.restaurant_id := "r1"; Decoded.post_id := p1;
             Decoded.dish_id := "" |}).
  pose (promo :=
          {| PromoCode._id := 1; PromoCode.code_encrypted := code_r1;
             PromoCode.promoter_foodie_id := "f1";
             PromoCode.restaurant_id := "r1"; PromoCode.post_id := p1;
             PromoCode.offer_description := "10% off";
             PromoCode.expiry_date := Some "2024-06-30";
             PromoCode.redemptions := []; PromoCode.created_at := 20240102 |}).
  split.
  - apply (proj1 (redeem_promo_expiry (L := Reference.library)
                    "r1" (present code_r1 "f1") r1 20240701 approved_until
                    decrypted promo eq_refl eq_refl eq_refl eq_refl))
      with (s := "2024-06-30") (expiry := 20240630);
      [reflexivity | reflexivity | lia].
  - apply (proj1 (proj2 (proj2 (redeem_promo_expiry (L := Reference.library)
                    "r1" (present code_r1 "f1") r1 20240601 approved_until
                    decrypted promo eq_refl eq_refl eq_refl eq_refl))))
      with (s := "2024-06-30") (expiry := 20240630);
      [reflexivity | reflexivity | lia].
Defined.

(** C6 as stated fails.  r1 approves f1's post twice, first without an
    expiry date and then, as SAVE20, with one long past: the SAVE20 code,
    whose own record is expired, is redeemed, because the record looked at
    is the first one of the post.  With the approvals the other way round
    the SAVE10 code, whose own record has no expiry date, is refused with
    Expired.  And a code whose record has an expiry date far ahead, written
    with a UTC offset, is not redeemed either: the comparison with the
    clock raises. *)
Lemma redeem_promo_expiry_of_other_record :
  approve_promo "r1" p1 (offer "SAVE20" (Some "2020-01-01")) r1 20240103 iv
    approved
    = (Returns (PromoApproved "Promo approved" code_save20),
       approved_then_expiring)
  /\ map (fun p => (PromoCode.code_encrypted p, PromoCode.expiry_date p))
       (promocodes approved_then_expiring)
    = [(code_r1, None); (code_save20, Some "2020-01-01")]
  /\ fst (redeem_promo "r1" (present code_save20 "f1") r1 20240201
            approved_then_expiring)
    = Returns (PromoRedeemed "Promo redeemed successfully" 10)
  /\ approve_promo "r1" p1 (offer "SAVE10" None) r1 20240103 iv expiring
    = (Returns (PromoApproved "Promo approved" code_r1),
       expiring_then_approved)
  /\ map (fun p => (PromoCode.code_encrypted p, PromoCode.expiry_date p))
       (promocodes expiring_then_approved)
    = [(code_save20, Some "2020-01-01"); (code_r1, None)]
  /\ redeem_promo "r1" (present code_r1 "f1") r1 20240201
       expiring_then_approved
    = (Raises Expired, expiring_then_approved)
  /\ map (fun p => (PromoCode.code_encrypted p, PromoCode.expiry_date p))
       (promocodes approved_aware)
    = [(code_r1, Some "2099-01-01T00:00:00+00:00")]
  /\ redeem_promo "r1" (present code_r1 "f1") r1 20240201 approved_aware
    = (Raises ValueError, approved_aware).
Proof. by_running. Qed.

Lemma ledger_after_redemptions_witness :
  ledger_of "r1" "f1" approved = []
  /\ exists l,
       ledger_of "r1" "f1" redeemed_twice = [l] /\
       Loyalty.points l = 10 * Z.of_nat 2 /\
       length (Loyalty.transactions l) = 2%nat.
Proof.
  split; [reflexivity|].
  apply (ledger_after_redemptions (L := Reference.library)
           "r1" "f1" 2 approved redeemed_twice).
  - split; simpl; constructor.
  - reflexivity.
  - apply redemptions_next
      with (st := redeemed_once) (redemption := present code_r1 "f1")
           (current_user := r1) (now := 20240202)
           (response := PromoRedeemed "Promo redeemed successfully" 10)
           (decrypted :=
              {| Decoded.promo_text := "SAVE10"; Decoded.promoter_id := "f1";
                 Decoded.restaurant_id := "r1"; Decoded.post_id := p1;
                 Decoded.dish_id := "" |});
      [|reflexivity..].
    apply redemptions_next
      with (st := approved) (redemption := present code_r1 "f1")
           (current_user := r1) (now := 20240201)
           (response := PromoRedeemed "Promo redeemed successfully" 10)
           (decrypted :=
              {| Decoded.promo_text := "SAVE10"; Decoded.promoter_id := "f1";
                 Decoded.restaurant_id := "r1"; Decoded.post_id := p1;
                 Decoded.dish_id := "" |});
      [|reflexivity..].
    apply redemptions_none.
  - lia.
Defined.

Lemma reject_promo_no_existence_check_witness :
  find (fun p => Nat.eqb (Post._id p) 7) (posts posted) = None
  /\ reject_promo "r1" "000000000000000000000007" r1 20240102 posted
    = (Returns (PromoRejected "Promo rejected"), posted).
Proof.
  split; [reflexivity|].
  apply (proj1 (proj2 (reject_promo_no_existence_check
                         (L := Reference.library)
                         "r1" "000000000000000000000007" r1 20240102 posted
                         eq_refl))
               7%nat eq_refl).
  reflexivity.
Defined.

(** C10 as stated fails.  r1 rejects, in its own name, the post id "p1" of
    the specification's scenario: no object id can be made of it, and the
    call does not report success but raises InvalidId. *)
Lemma reject_promo_malformed_post_id :
  Payload.user_id r1 = "r1"
  /\ ObjectId "p1" = None
  /\ reject_promo "r1" "p1" r1 20240102 posted = (Raises InvalidId, posted).
Proof. by_running. Qed.

(** The scenario of the specification: r1 approves f1's post with the text
    SAVE10; the code it gets decodes to SAVE10, f1, r1 and the post. *)
Lemma approve_promo_code_decodes_witness :
  exists code st',
    approve_promo "r1" p1 (offer "SAVE10" None) r1 20240102 iv posted
      = (Returns (PromoApproved "Promo approved" code), st') /\
    decrypt_promo_code code =
      Returns {| Decoded.promo_text := "SAVE10"; Decoded.promoter_id := "f1";
                 Decoded.restaurant_id := "r1"; Decoded.post_id := p1;
                 Decoded.dish_id := "" |}.
Proof.
  apply (approve_promo_code_decodes (L := Reference.library)
           "r1" p1 (offer "SAVE10" None) r1 20240102 iv posted 0%nat
           {| Post._id := 0; Post.body := request "r1";
              Post.user_id := "f1"; Post.post_type := "Promotion";
              Post.likes := []; Post.comments := [];
              Post.promotion_status := Pending;
              Post.created_at := 20240101; Post.updated_at := 20240101;
              Post.promo_code_id := None |});
    reflexivity.
Defined.

End Runs.

(** ** More facts about collections *)

Lemma Forall_update_one {A} (P : A -> Prop) (filter : A -> bool)
    (update : A -> A) docs :
  (forall d, P d -> P (update d)) ->
  Forall P docs -> Forall P (update_one filter update docs).
Proof.
  intros Hup H. induction H as [|d rest Hd Hrest IH]; simpl; [constructor|].
  destruct (filter d); constructor; auto.
Qed.

Lemma update_one_twice {A} (filter : A -> bool) (g h : A -> A) docs :
  (forall d, filter (g d) = filter d) ->
  update_one filter h (update_one filter g docs)
    = update_one filter (fun d => h (g d)) docs.
Proof.
  intros Hf. induction docs as [|d rest IH]; simpl; [reflexivity|].
  destruct (filter d) eqn:E; simpl.
  - now rewrite Hf, E.
  - now rewrite E, IH.
Qed.

Lemma update_one_ext {A} (filter : A -> bool) (g h : A -> A) docs :
  (forall d, In d docs -> g d = h d) ->
  update_one filter g docs = update_one filter h docs.
Proof.
  induction docs as [|d rest IH]; simpl; intros H; [reflexivity|].
  destruct (filter d).
  - f_equal. apply H. now left.
  - f_equal. apply IH. intros x Hx. apply H. now right.
Qed.

Lemma update_one_fixed {A} (filter : A -> bool) (g : A -> A) docs :
  (forall d, find filter docs = Some d -> g d = d) ->
  update_one filter g docs = docs.
Proof.
  induction docs as [|d rest IH]; simpl; intros H; [reflexivity|].
  destruct (filter d).
  - f_equal. now apply H.
  - f_equal. now apply IH.
Qed.

Lemma find_none_iff {A} (filter : A -> bool) docs :
  find filter docs = None <-> forall d, In d docs -> filter d = false.
Proof.
  split.
  - intros H d Hd. now apply (find_none _ _ H).
  - induction docs as [|d rest IH]; simpl; intros H; [reflexivity|].
    rewrite (H d) by now left. apply IH. intros x Hx. apply H. now right.
Qed.

Lemma sum_Z_app {A} (f : A -> Z) (l l' : list A) :
  sum_Z f (l ++ l') = sum_Z f l + sum_Z f l'.
Proof. induction l as [|a l IH]; simpl; [reflexivity|]. rewrite IH. lia. Qed.

(** [update_one] by a filter that some document passes changes a sum by
    what the update adds to one document. *)
Lemma sum_Z_update_one {A} (f : A -> Z) (filter : A -> bool) (g : A -> A)
    (delta : Z) docs d :
  find filter docs = Some d ->
  (forall x, f (g x) = f x + delta) ->
  sum_Z f (update_one filter g docs) = sum_Z f docs + delta.
Proof.
  intros Hfind Hg. revert Hfind.
  induction docs as [|a rest IH]; simpl; [discriminate|].
  destruct (filter a); intros H; simpl.
  - rewrite Hg. lia.
  - rewrite (IH H). lia.
Qed.

Lemma find_by_key_some {A} (key : A -> nat) (docs : list A) (d : A) :
  In d docs ->
  exists d', find (fun x => Nat.eqb (key x) (key d)) docs = Some d'.
Proof.
  induction docs as [|a rest IH]; simpl; [intros []|].
  intros [->|H].
  - rewrite Nat.eqb_refl. eauto.
  - destruct (Nat.eqb (key a) (key d)); eauto.
Qed.

Lemma ids_fresh_mono ids n m :
  (n <= m)%nat -> ids_fresh ids n -> ids_fresh ids m.
Proof.
  intros Hle [Hnd Hlt]. split; [assumption|].
  eapply Forall_impl; [|exact Hlt]. simpl. intros; lia.
Qed.

Lemma ids_fresh_snoc ids n :
  ids_fresh ids n -> ids_fresh (ids ++ [n]) (S n).
Proof.
  intros [Hnd Hlt]. split.
  - apply NoDup_snoc; [assumption|].
    intros Hin. rewrite Forall_forall in Hlt. apply Hlt in Hin. lia.
  - apply Forall_app. split.
    + eapply Forall_impl; [|exact Hlt]. simpl. intros; lia.
    + constructor; [lia|constructor].
Qed.

Lemma add_to_set_NoDup x l : NoDup l -> NoDup (add_to_set x l).
Proof.
  intros H. unfold add_to_set.
  destruct (existsb (String.eqb x) l) eqn:E; [assumption|].
  apply NoDup_snoc; [assumption|].
  intros Hin. assert (existsb (String.eqb x) l = true).
  { apply existsb_exists. exists x. split; [assumption|apply String.eqb_refl]. }
  congruence.
Qed.

Lemma add_to_set_In x l : In x (add_to_set x l).
Proof.
  unfold add_to_set. destruct (existsb (String.eqb x) l) eqn:E.
  - apply existsb_exists in E. destruct E as (y & Hy & Heq).
    apply String.eqb_eq in Heq. now subst.
  - apply in_or_app. right. now left.
Qed.

Lemma add_to_set_idem x l : add_to_set x (add_to_set x l) = add_to_set x l.
Proof.
  unfold add_to_set at 1.
  replace (existsb (String.eqb x) (add_to_set x l)) with true; [reflexivity|].
  symmetry. apply existsb_exists. exists x.
  split; [apply add_to_set_In|apply String.eqb_refl].
Qed.

Lemma pull_not_In x l : ~ In x (pull x l).
Proof.
  unfold pull. intros H. apply filter_In in H. destruct H as [_ H].
  now rewrite String.eqb_refl in H.
Qed.

Lemma pull_absent x l : ~ In x l -> pull x l = l.
Proof.
  unfold pull. induction l as [|a l IH]; simpl; intros H; [reflexivity|].
  destruct (a =? x)%string eqn:E.
  - apply String.eqb_eq in E. subst. exfalso. apply H. now left.
  - simpl. f_equal. apply IH. intros Hin. apply H. now right.
Qed.

Lemma pull_add_to_set x l : ~ In x l -> pull x (add_to_set x l) = l.
Proof.
  intros H. unfold add_to_set.
  destruct (existsb (String.eqb x) l) eqn:E.
  - now apply pull_absent.
  - unfold pull. rewrite filter_app. simpl. rewrite String.eqb_refl. simpl.
    rewrite app_nil_r. now apply pull_absent.
Qed.

Lemma pull_NoDup x l : NoDup l -> NoDup (pull x l).
Proof. apply NoDup_filter. Qed.

Lemma In_update_one_keep {A} (filter : A -> bool) (g : A -> A) docs d :
  In d docs ->
  exists d', In d' (update_one filter g docs) /\ (d' = d \/ d' = g d).
Proof.
  induction docs as [|a rest IH]; simpl; [intros []|].
  intros [->|H].
  - destruct (filter d); eexists; (split; [now left|]); auto.
  - destruct (filter a).
    + exists d. split; [now right|now left].
    + destruct (IH H) as (d' & Hin & Hd'). exists d'. split; [now right|assumption].
Qed.

Lemma Forall_update_one_rel {A} (P Q : A -> Prop) (filter : A -> bool)
    (g : A -> A) docs :
  (forall d, P d -> Q d) ->
  (forall d, P d -> Q (g d)) ->
  Forall P docs -> Forall Q (update_one filter g docs).
Proof.
  intros HPQ HPg H. induction H as [|d rest Hd Hrest IH]; simpl; [constructor|].
  destruct (filter d); constructor; auto.
  eapply Forall_impl; [|exact Hrest]. assumption.
Qed.

(** ** Every endpoint keeps the store consistent *)

Section ConsistencyFacts.
Context {L : Library}.

Lemma promo_link_ok_transfer st st' p p' :
  (forall pc, In pc (promocodes st) ->
     exists pc', In pc' (promocodes st') /\
                 PromoCode._id pc' = PromoCode._id pc /\
                 PromoCode.post_id pc' = PromoCode.post_id pc /\
                 PromoCode.promoter_foodie_id pc'
                   = PromoCode.promoter_foodie_id pc) ->
  Post._id p' = Post._id p ->
  Post.user_id p' = Post.user_id p ->
  Post.promo_code_id p' = Post.promo_code_id p ->
  promo_link_ok st p -> promo_link_ok st' p'.
Proof.
  intros Hpcs Hid Hu Hc Hok s Hs. rewrite Hc in Hs.
  destruct (Hok s Hs) as (pc & Hin & Hstr & Hoid & Hprom).
  destruct (Hpcs pc Hin) as (pc' & Hin' & E1 & E2 & E3).
  exists pc'. rewrite E1, E2, E3, Hid, Hu. auto.
Qed.

Lemma promo_post_ok_transfer st st' pc pc' :
  (forall p, In p (posts st) ->
     exists p', In p' (posts st') /\
                Post._id p' = Post._id p /\ Post.user_id p' = Post.user_id p) ->
  PromoCode.post_id pc' = PromoCode.post_id pc ->
  PromoCode.promoter_foodie_id pc' = PromoCode.promoter_foodie_id pc ->
  promo_post_ok st pc -> promo_post_ok st' pc'.
Proof.
  intros Hposts E1 E2 (p & Hin & Hoid & Hprom).
  destruct (Hposts p Hin) as (p' & Hin' & Hid & Hu).
  exists p'. rewrite E1, E2, Hid, Hu. auto.
Qed.

(** Rewriting one post without touching its id, author or promo code id. *)
Lemma consistent_post_update st filter g :
  (forall p, Post._id (g p) = Post._id p) ->
  (forall p, Post.user_id (g p) = Post.user_id p) ->
  (forall p, Post.promo_code_id (g p) = Post.promo_code_id p) ->
  (forall p, NoDup (Post.likes p) -> NoDup (Post.likes (g p))) ->
  consistent st ->
  consistent {| posts := update_one filter g (posts st);
                promocodes := promocodes st;
                loyalty_points := loyalty_points st;
                next_oid := next_oid st |}.
Proof.
  intros Hid Hu Hc Hl [H1 H2 H3 H4 H5 H6 H7 H8 H9].
  constructor; cbn [posts promocodes loyalty_points next_oid]; try assumption.
  - now rewrite map_update_one.
  - now apply Forall_update_one.
  - apply Forall_update_one_rel with (P := promo_link_ok st); [| |assumption].
    + intros p. apply promo_link_ok_transfer; eauto.
    + intros p. apply promo_link_ok_transfer; eauto.
  - eapply Forall_impl; [|exact H9].
    intros pc. apply promo_post_ok_transfer; try reflexivity.
    cbn [posts]. intros p Hin.
    destruct (In_update_one_keep filter g _ _ Hin) as (p' & Hin' & [->| ->]);
      eauto.
Qed.

Lemma create_post_consistent post current_user now st :
  consistent st -> consistent (snd (create_post post current_user now st)).
Proof.
  intros [H1 H2 H3 H4 H5 H6 H7 H8 H9].
  constructor; cbn [create_post bind insert_one_post ret snd posts promocodes
                    loyalty_points next_oid]; try assumption.
  - rewrite map_app. cbn [map Post._id]. now apply ids_fresh_snoc.
  - apply (ids_fresh_mono _ _ _ (Nat.le_succ_diag_r _) H2).
  - apply (ids_fresh_mono _ _ _ (Nat.le_succ_diag_r _) H3).
  - apply Forall_app. split; [assumption|].
    constructor; [constructor|constructor].
  - apply Forall_app. split.
    + eapply Forall_impl; [|exact H8].
      intros p. apply promo_link_ok_transfer; eauto.
    + constructor; [|constructor]. intros s Hs. discriminate.
  - eapply Forall_impl; [|exact H9].
    intros pc. apply promo_post_ok_transfer; try reflexivity.
    cbn [posts]. intros p Hin. exists p. rewrite in_app_iff. auto.
Qed.

Lemma reject_promo_consistent restaurant_id post_id current_user now st :
  consistent st ->
  consistent (snd (reject_promo restaurant_id post_id current_user now st)).
Proof.
  intros H. rewrite reject_promo_unfold.
  destruct (negb _); [exact H|].
  destruct (ObjectId post_id); [|exact H].
  apply consistent_post_update; auto.
Qed.

Lemma like_post_consistent post_id current_user st :
  consistent st -> consistent (snd (like_post post_id current_user st)).
Proof.
  intros H. unfold like_post, bind, lift, update_one_post, ret.
  destruct (ObjectId post_id); [|exact H].
  apply consistent_post_update; auto.
  intros p. apply add_to_set_NoDup.
Qed.

Lemma unlike_post_consistent post_id current_user st :
  consistent st -> consistent (snd (unlike_post post_id current_user st)).
Proof.
  intros H. unfold unlike_post, bind, lift, update_one_post, ret.
  destruct (ObjectId post_id); [|exact H].
  apply consistent_post_update; auto.
  intros p. apply pull_NoDup.
Qed.

Lemma add_comment_consistent post_id comment current_user now st :
  consistent st ->
  consistent (snd (add_comment post_id comment current_user now st)).
Proof.
  intros H. unfold add_comment, bind, lift, update_one_post, ret.
  destruct (ObjectId post_id); [|exact H].
  apply consistent_post_update; auto.
Qed.

End ConsistencyFacts.

Lemma Forall_update_one_found {A} (P Q : A -> Prop) (filter : A -> bool)
    (g : A -> A) docs x :
  find filter docs = Some x ->
  (forall d, P d -> Q d) ->
  (P x -> Q (g x)) ->
  Forall P docs -> Forall Q (update_one filter g docs).
Proof.
  intros Hfind HPQ Hx H. revert Hfind.
  induction H as [|d rest Hd Hrest IH]; simpl; [discriminate|].
  destruct (filter d); intros Hfind.
  - injection Hfind as ->. constructor; [auto|].
    eapply Forall_impl; [|exact Hrest]. assumption.
  - constructor; auto.
Qed.

Section ConsistencySteps.
Context {L : Library}.

Lemma approve_promo_consistent
    restaurant_id post_id promo current_user now iv st :
  consistent st ->
  consistent
    (snd (approve_promo restaurant_id post_id promo current_user now iv st)).
Proof.
  intros H. rewrite approve_promo_unfold.
  destruct (negb _); [exact H|].
  destruct (ObjectId post_id) as [oid|] eqn:Hoid; [|exact H].
  destruct (find _ (posts st)) as [post|] eqn:Hfind; [|exact H].
  destruct (encrypt_promo_code _ _ _ _ _ _) as [code|e]; [|exact H].
  destruct H as [H1 H2 H3 H4 H5 H6 H7 H8 H9].
  pose proof (find_some _ _ Hfind) as [Hin Hid].
  apply Nat.eqb_eq in Hid.
  set (st' := {| posts := _; promocodes := _; loyalty_points := _;
                 next_oid := _ |}).
  assert (Hpcs : forall pc, In pc (promocodes st) ->
            exists pc', In pc' (promocodes st') /\
                        PromoCode._id pc' = PromoCode._id pc /\
                        PromoCode.post_id pc' = PromoCode.post_id pc /\
                        PromoCode.promoter_foodie_id pc'
                          = PromoCode.promoter_foodie_id pc).
  { intros pc Hpc. exists pc. cbn [st' promocodes]. rewrite in_app_iff. auto. }
  assert (Hposts : forall p, In p (posts st) ->
            exists p', In p' (posts st') /\
                       Post._id p' = Post._id p /\
                       Post.user_id p' = Post.user_id p).
  { intros p Hp. cbn [st' posts].
    destruct (In_update_one_keep (fun p0 => Nat.eqb (Post._id p0) oid)
                (Post.set_approved (str_of_oid (next_oid st)) now) _ _ Hp)
      as (p' & Hin' & [->| ->]); eauto. }
  constructor; cbn [snd st' posts promocodes loyalty_points next_oid].
  - rewrite map_update_one by reflexivity.
    apply (ids_fresh_mono _ _ _ (Nat.le_succ_diag_r _) H1).
  - rewrite map_app. cbn [map minted PromoCode._id]. now apply ids_fresh_snoc.
  - apply (ids_fresh_mono _ _ _ (Nat.le_succ_diag_r _) H3).
  - apply Forall_update_one; auto.
  - assumption.
  - assumption.
  - rewrite sum_Z_app. cbn [sum_Z fold_right minted PromoCode.redemptions length].
    rewrite H7. lia.
  - apply Forall_update_one_found with (P := promo_link_ok st) (x := post);
      [assumption| | |assumption].
    + intros p. apply promo_link_ok_transfer; auto.
    + intros _ s Hs. cbn [Post.set_approved Post.promo_code_id] in Hs.
      injection Hs as <-.
      exists (minted restaurant_id post_id promo now post code (next_oid st)).
      cbn [st' promocodes]. rewrite in_app_iff.
      cbn [minted PromoCode._id PromoCode.post_id PromoCode.promoter_foodie_id
           Post.set_approved Post._id Post.user_id].
      rewrite Hid. repeat split; auto. right. now left.
  - apply Forall_app. split.
    + eapply Forall_impl; [|exact H9].
      intros pc. apply promo_post_ok_transfer; auto.
    + constructor; [|constructor].
      destruct (Hposts post Hin) as (p' & Hin' & Hid' & Hu').
      exists p'. cbn [minted PromoCode.post_id PromoCode.promoter_foodie_id].
      rewrite Hid', Hu', Hid. auto.
Qed.

Lemma settle_consistent restaurant_id redemption now decrypted promo st :
  In promo (promocodes st) ->
  consistent st ->
  consistent (settle restaurant_id redemption now decrypted promo st).
Proof.
  intros Hpromo [H1 H2 H3 H4 H5 H6 H7 H8 H9].
  destruct (settle_ledger restaurant_id redemption now decrypted promo st H3)
    as [Hledger _].
  set (F := Decoded.promoter_id decrypted).
  assert (Hnext : (next_oid st
                   <= next_oid (settle restaurant_id redemption now decrypted
                                  promo st))%nat).
  { unfold settle. cbn [next_oid]. destruct (find _ _); lia. }
  assert (Hpcs : forall pc, In pc (promocodes st) ->
            exists pc', In pc' (promocodes (settle restaurant_id redemption now
                                              decrypted promo st)) /\
                        PromoCode._id pc' = PromoCode._id pc /\
                        PromoCode.post_id pc' = PromoCode.post_id pc /\
                        PromoCode.promoter_foodie_id pc'
                          = PromoCode.promoter_foodie_id pc).
  { intros pc Hpc. unfold settle. cbn [promocodes].
    destruct (In_update_one_keep
                (fun p => Nat.eqb (PromoCode._id p) (PromoCode._id promo))
                (PromoCode.push_redemption (redemption_obj redemption now))
                _ _ Hpc) as (pc' & Hin' & [->| ->]); eauto. }
  constructor.
  - exact (ids_fresh_mono _ _ _ Hnext H1).
  - unfold settle at 1. cbn [promocodes].
    rewrite map_update_one by reflexivity.
    exact (ids_fresh_mono _ _ _ Hnext H2).
  - exact Hledger.
  - exact H4.
  - unfold settle. cbn [loyalty_points]. fold F.
    destruct (find (ledger_key restaurant_id F) (loyalty_points st))
      as [l|] eqn:Hfind.
    + now rewrite map_update_one by reflexivity.
    + rewrite map_app. cbn [map ledger_pair Loyalty.restaurant_id
                              Loyalty.foodie_id].
      apply NoDup_snoc; [assumption|].
      intros Hin. apply in_map_iff in Hin. destruct Hin as (l & Hpair & Hl).
      pose proof (proj1 (find_none_iff _ _) Hfind l Hl) as Hkey.
      unfold ledger_pair in Hpair. injection Hpair as HR HF.
      unfold ledger_key in Hkey. rewrite HR, HF, !String.eqb_refl in Hkey.
      discriminate.
  - unfold settle. cbn [loyalty_points]. fold F.
    assert (Hearned : earned_ten (earned promo now)) by (split; reflexivity).
    destruct (find (ledger_key restaurant_id F) (loyalty_points st)) as [l|].
    + apply Forall_update_one; [|assumption].
      intros d [Hp Htx].
      cbn [Loyalty.credit Loyalty.points Loyalty.transactions].
      split.
      * rewrite Hp, length_app, Nat2Z.inj_add. cbn [length]. lia.
      * apply Forall_app. split; [assumption|]. constructor; [assumption|constructor].
    + apply Forall_app. split; [assumption|]. constructor; [|constructor].
      cbn [Loyalty.points Loyalty.transactions]. split; [reflexivity|].
      constructor; [assumption|constructor].
  - unfold settle. cbn [loyalty_points promocodes]. fold F.
    destruct (find_by_key_some PromoCode._id _ _ Hpromo) as (pc0 & Hpc0).
    rewrite (sum_Z_update_one _ _ _ 1 _ _ Hpc0).
    2:{ intros x. cbn [PromoCode.push_redemption PromoCode.redemptions].
        rewrite length_app, Nat2Z.inj_add. cbn [length]. lia. }
    destruct (find (ledger_key restaurant_id F) (loyalty_points st))
      as [l|] eqn:Hfind.
    + apply find_some in Hfind. destruct Hfind as [Hl _].
      destruct (find_by_key_some Loyalty._id _ _ Hl) as (l0 & Hl0).
      rewrite (sum_Z_update_one _ _ _ 10 _ _ Hl0) by reflexivity.
      rewrite H7. lia.
    + rewrite sum_Z_app. cbn [sum_Z fold_right Loyalty.points].
      rewrite H7. lia.
  - eapply Forall_impl; [|exact H8].
    intros p. apply promo_link_ok_transfer; auto.
  - unfold settle at 2. cbn [promocodes].
    apply Forall_update_one_rel with (P := promo_post_ok st); [| |assumption].
    + intros pc. apply promo_post_ok_transfer; eauto.
    + intros pc. apply promo_post_ok_transfer; eauto.
Qed.

Lemma redeem_promo_consistent restaurant_id redemption current_user now st :
  consistent st ->
  consistent (snd (redeem_promo restaurant_id redemption current_user now st)).
Proof.
  intros H. rewrite redeem_promo_unfold.
  destruct (validate _ _ _ _ _) as [[decrypted promo]|e] eqn:Hval; [|exact H].
  apply settle_consistent; [|assumption].
  unfold validate in Hval.
  destruct (negb _); [discriminate|].
  destruct (decrypt_promo_code _) as [d|]; cbn [result_bind] in Hval;
    [|discriminate].
  destruct (negb _); [discriminate|].
  destruct (find _ (promocodes st)) as [pc|] eqn:Hfind; [|discriminate].
  destruct (check_expiry pc now) as [[]|]; cbn [result_bind] in Hval;
    [|discriminate].
  injection Hval as _ <-. now apply find_some in Hfind.
Qed.

Lemma consistent_empty : consistent empty_store.
Proof.
  constructor; simpl; try constructor; try constructor; reflexivity.
Qed.

Lemma step_consistent st st' : step st st' -> consistent st -> consistent st'.
Proof.
  intros [] H.
  - now apply create_post_consistent.
  - now apply approve_promo_consistent.
  - now apply reject_promo_consistent.
  - now apply redeem_promo_consistent.
  - now apply like_post_consistent.
  - now apply unlike_post_consistent.
  - now apply add_comment_consistent.
Qed.

Lemma reachable_consistent st : reachable st -> consistent st.
Proof.
  induction 1 as [|st st' _ IH Hstep].
  - apply consistent_empty.
  - exact (step_consistent _ _ Hstep IH).
Qed.

End ConsistencySteps.

(** ** What holds in every reachable store *)

Lemma NoDup_map_filter_le_1 {A B} (key : A -> B) (same : A -> bool)
    (k : B) (l : list A) :
  (forall a, same a = true -> key a = k) ->
  NoDup (map key l) ->
  (length (List.filter same l) <= 1)%nat.
Proof.
  intros Hsame. induction l as [|a l IH]; simpl; intros Hnd; [lia|].
  inversion Hnd as [|x xs Hnotin Hnd']; subst.
  destruct (same a) eqn:E; [|auto].
  simpl. enough (List.filter same l = []) as -> by (simpl; lia).
  destruct (List.filter same l) as [|b rest] eqn:Hf; [reflexivity|].
  exfalso. apply Hnotin.
  assert (Hb : In b (List.filter same l)) by (rewrite Hf; now left).
  apply filter_In in Hb. destruct Hb as [Hb Hsb].
  rewrite (Hsame a E), <- (Hsame b Hsb). now apply in_map.
Qed.

Section ReachableFacts.
Context {L : Library}.

(** In every store the endpoints can produce there is at most one loyalty
    record for a (restaurant, foodie) pair. *)
Theorem reachable_ledger_unique st restaurant_id foodie_id :
  reachable st ->
  (length (ledger_of restaurant_id foodie_id st) <= 1)%nat.
Proof.
  intros H. apply reachable_consistent in H.
  unfold ledger_of.
  apply NoDup_map_filter_le_1
    with (key := ledger_pair) (k := (restaurant_id, foodie_id)).
  - intros l Hl. unfold ledger_key in Hl. apply andb_prop in Hl.
    destruct Hl as [HR HF]. apply String.eqb_eq in HR, HF.
    unfold ledger_pair. now rewrite HR, HF.
  - apply (ledger_pairs_distinct _ H).
Qed.

(** In every reachable store the points of a loyalty record are ten times
    the number of its transactions, and each transaction is an "Earned" of
    10 points. *)
Theorem reachable_ledger_balanced st l :
  reachable st ->
  In l (loyalty_points st) ->
  Loyalty.points l = 10 * Z.of_nat (length (Loyalty.transactions l))
  /\ Loyalty.points l = sum_Z Transaction.amount (Loyalty.transactions l)
  /\ forall t, In t (Loyalty.transactions l) ->
               Transaction.amount t = 10 /\ Transaction.type t = "Earned".
Proof.
  intros H Hl. apply reachable_consistent in H.
  pose proof (ledger_balanced _ H) as Hb.
  rewrite Forall_forall in Hb. destruct (Hb l Hl) as [Hp Htx].
  split; [assumption|]. split.
  - rewrite Hp. clear Hp. induction Htx as [|t ts [Ht _] _ IH]; [reflexivity|].
    cbn [length sum_Z fold_right]. fold (sum_Z Transaction.amount ts).
    rewrite Ht, <- IH. lia.
  - rewrite Forall_forall in Htx. exact Htx.
Qed.

(** In every reachable store the points held by all loyalty records
    together are ten times the number of redemptions recorded on all
    PromoCode records together. *)
Theorem reachable_points_conserved st :
  reachable st ->
  sum_Z Loyalty.points (loyalty_points st)
    = 10 * sum_Z (fun pc => Z.of_nat (length (PromoCode.redemptions pc)))
                 (promocodes st).
Proof.
  intros H. apply (points_conserved _ (reachable_consistent _ H)).
Qed.

(** In every reachable store a post's promo_code_id names a PromoCode
    record minted for that post with the post's author as promoter, and
    every PromoCode record belongs to an existing post whose author is its
    promoter. *)
Theorem reachable_promo_references st :
  reachable st ->
  (forall p s,
      In p (posts st) -> Post.promo_code_id p = Some s ->
      exists pc, In pc (promocodes st) /\
                 s = str_of_oid (PromoCode._id pc) /\
                 ObjectId (PromoCode.post_id pc) = Some (Post._id p) /\
                 PromoCode.promoter_foodie_id pc = Post.user_id p)
  /\ (forall pc,
      In pc (promocodes st) ->
      exists p, In p (posts st) /\
                ObjectId (PromoCode.post_id pc) = Some (Post._id p) /\
                PromoCode.promoter_foodie_id pc = Post.user_id p).
Proof.
  intros H. apply reachable_consistent in H. split.
  - intros p s Hp Hs. pose proof (promo_links _ H) as Hl.
    rewrite Forall_forall in Hl. exact (Hl p Hp s Hs).
  - intros pc Hpc. pose proof (promo_posts _ H) as Hl.
    rewrite Forall_forall in Hl. exact (Hl pc Hpc).
Qed.

(** In every reachable store no user appears twice among the likes of a
    post. *)
Lemma reachable_likes_distinct st p :
  reachable st -> In p (posts st) -> NoDup (Post.likes p).
Proof.
  intros H Hp. apply reachable_consistent in H.
  pose proof (likes_distinct _ H) as Hl.
  rewrite Forall_forall in Hl. exact (Hl p Hp).
Qed.

End ReachableFacts.

(** ** Likes and comments *)

Lemma In_update_one_by_key {A} (key : A -> nat) (k : nat) (g : A -> A) docs p :
  (forall d, key (g d) = key d) ->
  NoDup (map key docs) ->
  In p (update_one (fun d => Nat.eqb (key d) k) g docs) ->
  key p = k ->
  exists d, In d docs /\ p = g d.
Proof.
  intros Hkey. induction docs as [|a rest IH]; simpl; [intros _ []|].
  intros Hnd Hin Hp. inversion Hnd as [|x xs Hnotin Hnd']; subst.
  destruct (Nat.eqb (key a) (key p)) eqn:E.
  - destruct Hin as [<-|Hin]; [eauto|].
    exfalso. apply Hnotin. apply Nat.eqb_eq in E. rewrite E. now apply in_map.
  - destruct Hin as [->|Hin].
    + rewrite Nat.eqb_refl in E. discriminate.
    + destruct (IH Hnd' Hin eq_refl) as (d & Hd & ->). eauto.
Qed.

Section SocialFacts.
Context {L : Library}.

(** Liking a post twice is the same as liking it once: the second call
    returns the same answer and leaves the store as the first call left
    it. *)
Theorem like_post_idempotent post_id current_user st :
  like_post post_id current_user (snd (like_post post_id current_user st))
    = like_post post_id current_user st.
Proof.
  unfold like_post, bind, lift, update_one_post, ret.
  destruct (ObjectId post_id) as [oid|]; [|reflexivity].
  cbn [of_option fst snd posts promocodes loyalty_points next_oid].
  f_equal. f_equal.
  rewrite update_one_twice by reflexivity.
  apply update_one_ext. intros p _. destruct p. unfold post_with_likes.
  cbn. now rewrite add_to_set_idem.
Qed.

(** Unlike undoes like: when the caller was not among the likes of the
    addressed post (or there is no such post), liking and then unliking
    gives back the store as it was. *)
Theorem unlike_post_undoes_like post_id current_user st :
  (forall oid p,
      ObjectId post_id = Some oid ->
      find (fun p => Nat.eqb (Post._id p) oid) (posts st) = Some p ->
      ~ In (Payload.user_id current_user) (Post.likes p)) ->
  snd (unlike_post post_id current_user
         (snd (like_post post_id current_user st))) = st.
Proof.
  intros Hfresh.
  unfold unlike_post, like_post, bind, lift, update_one_post, ret.
  destruct (ObjectId post_id) as [oid|]; [|reflexivity].
  cbn [of_option snd posts promocodes loyalty_points next_oid].
  rewrite update_one_twice by reflexivity.
  rewrite update_one_fixed; [destruct st; reflexivity|].
  intros p Hp. destruct p. unfold post_with_likes. cbn. f_equal.
  apply pull_add_to_set. exact (Hfresh oid _ eq_refl Hp).
Qed.

(** In a reachable store, after a like the caller is among the likes of the
    addressed post, and after an unlike the caller is not. *)
Theorem like_unlike_membership post_id current_user st oid p :
  reachable st ->
  ObjectId post_id = Some oid ->
  Post._id p = oid ->
  (In p (posts (snd (like_post post_id current_user st))) ->
   In (Payload.user_id current_user) (Post.likes p))
  /\ (In p (posts (snd (unlike_post post_id current_user st))) ->
      ~ In (Payload.user_id current_user) (Post.likes p)).
Proof.
  intros Hreach Hoid Hid.
  pose proof (post_ids_fresh _ (reachable_consistent _ Hreach)) as [Hnd _].
  unfold like_post, unlike_post, bind, lift, update_one_post, ret.
  rewrite Hoid. cbn [of_option snd posts].
  split; intros Hin.
  - destruct (In_update_one_by_key Post._id oid
                (post_with_likes (add_to_set (Payload.user_id current_user)))
                (posts st) p (fun _ => eq_refl) Hnd Hin Hid) as (d & _ & ->).
    apply add_to_set_In.
  - destruct (In_update_one_by_key Post._id oid
                (post_with_likes (pull (Payload.user_id current_user)))
                (posts st) p (fun _ => eq_refl) Hnd Hin Hid) as (d & _ & ->).
    apply pull_not_In.
Qed.

(** Likes, unlikes and comments leave the promotion lifecycle alone: the
    id, author, body, promotion_status and promo_code_id of every post, the
    PromoCode records and the loyalty records are as before. *)
Theorem likes_and_comments_keep_promotions post_id comment current_user now st :
  promotions_kept st (snd (like_post post_id current_user st))
  /\ promotions_kept st (snd (unlike_post post_id current_user st))
  /\ promotions_kept st (snd (add_comment post_id comment current_user now st)).
Proof.
  unfold promotions_kept, like_post, unlike_post, add_comment, bind, lift,
    update_one_post, ret.
  destruct (ObjectId post_id) as [oid|];
    cbn [of_option snd posts promocodes loyalty_points].
  - rewrite !map_update_one by reflexivity. repeat split.
  - repeat split.
Qed.

(** A comment is appended after the comments the post already has.  For a
    well-formed post id the call always answers "Comment added": when no
    post has that id the store is unchanged and the comment is stored
    nowhere. *)
Theorem add_comment_appends post_id comment current_user now st oid :
  ObjectId post_id = Some oid ->
  fst (add_comment post_id comment current_user now st)
    = Returns (Message "Comment added")
  /\ (forall p,
      find (fun p => Nat.eqb (Post._id p) oid) (posts st) = Some p ->
      exists p',
        find (fun p => Nat.eqb (Post._id p) oid)
             (posts (snd (add_comment post_id comment current_user now st)))
          = Some p' /\
        Post.comments p'
          = (Post.comments p
               ++ [(Payload.user_id current_user, comment, now)])%list
        /\ Post.likes p' = Post.likes p)
  /\ (find (fun p => Nat.eqb (Post._id p) oid) (posts st) = None ->
      snd (add_comment post_id comment current_user now st) = st).
Proof.
  intros Hoid. unfold add_comment, bind, lift, update_one_post, ret.
  rewrite Hoid. cbn [of_option fst snd posts].
  split; [reflexivity|]. split.
  - intros p Hp. eexists. split.
    + apply find_update_one; [exact Hp|].
      apply find_some in Hp. exact (proj2 Hp).
    + split; reflexivity.
  - intros Hnone. rewrite (update_one_no_match _ _ _ Hnone).
    destruct st; reflexivity.
Qed.

End SocialFacts.

(** ** The promotion flow end to end *)

Lemma find_snoc_fresh {A} (filter : A -> bool) (docs : list A) (x : A) :
  (forall d, In d docs -> filter d = false) ->
  filter x = true ->
  find filter (docs ++ [x]) = Some x.
Proof.
  intros Hold Hx. induction docs as [|a rest IH]; simpl.
  - now rewrite Hx.
  - rewrite (Hold a) by now left. apply IH. intros d Hd. apply Hold. now right.
Qed.

Lemma find_app_some {A} (filter : A -> bool) (docs more : list A) (x : A) :
  find filter docs = Some x -> find filter (docs ++ more) = Some x.
Proof.
  induction docs as [|a rest IH]; simpl; [discriminate|].
  destruct (filter a); auto.
Qed.

(** What a lookup sees of the first match is not changed by an update that
    keeps both the lookup's filter and the observed part. *)
Lemma find_update_one_observe {A B} (look filter : A -> bool) (g : A -> A)
    (observe : A -> B) docs :
  (forall d, look (g d) = look d) ->
  (forall d, observe (g d) = observe d) ->
  option_map observe (find look (update_one filter g docs))
    = option_map observe (find look docs).
Proof.
  intros Hlook Hobs. induction docs as [|a rest IH]; simpl; [reflexivity|].
  destruct (filter a) eqn:Ef; simpl.
  - rewrite Hlook. destruct (look a); simpl; [now rewrite Hobs|reflexivity].
  - destruct (look a); [reflexivity|assumption].
Qed.

Section FlowFacts.
Context {L : Library}.

(** The post_id that create_post returns identifies the post it created:
    a lookup by that id finds the new post, owned by the caller, Pending
    when it is a promotion request and N/A otherwise, with no likes, no
    comments and no promo code.  (The store is a reachable one and the
    object-id library reads back the id it printed.) *)
Theorem create_post_then_find post current_user now st :
  reachable st ->
  ObjectId (str_of_oid (next_oid st)) = Some (next_oid st) ->
  exists post_id oid p,
    fst (create_post post current_user now st)
      = Returns (PostCreated post_id "Post created successfully") /\
    ObjectId post_id = Some oid /\
    find (fun p => Nat.eqb (Post._id p) oid)
         (posts (snd (create_post post current_user now st))) = Some p /\
    Post.body p = post /\
    Post.user_id p = Payload.user_id current_user /\
    Post.promotion_status p
      = (if PostCreate.is_promotion_request post then Pending else NA) /\
    Post.likes p = [] /\ Post.comments p = [] /\ Post.promo_code_id p = None.
Proof.
  intros Hreach Hoid.
  pose proof (post_ids_fresh _ (reachable_consistent _ Hreach)) as [_ Hlt].
  eexists _, _, _. cbn [create_post bind insert_one_post ret fst snd posts].
  split; [reflexivity|]. split; [exact Hoid|]. split.
  - apply find_snoc_fresh.
    + intros d Hd. rewrite Forall_forall in Hlt.
      apply Nat.eqb_neq. specialize (Hlt _ (in_map Post._id _ _ Hd)). lia.
    + apply Nat.eqb_refl.
  - repeat split.
Qed.

Lemma check_expiry_push r promo now :
  check_expiry (PromoCode.push_redemption r promo) now = check_expiry promo now.
Proof. reflexivity. Qed.

Lemma validate_verdict restaurant_id redemption current_user now st st' :
  (forall post_id,
      option_map (fun p => check_expiry p now)
        (find (fun p => (PromoCode.post_id p =? post_id)%string) (promocodes st'))
      = option_map (fun p => check_expiry p now)
          (find (fun p => (PromoCode.post_id p =? post_id)%string)
                (promocodes st)))
  ->
  verdict (validate restaurant_id redemption current_user now st')
    = verdict (validate restaurant_id redemption current_user now st).
Proof.
  intros Hsame. unfold validate.
  destruct (negb _); [reflexivity|].
  destruct (decrypt_promo_code _) as [d|e]; cbn [result_bind]; [|reflexivity].
  destruct (negb _); [reflexivity|].
  specialize (Hsame (Decoded.post_id d)).
  destruct (find _ (promocodes st')) as [p'|], (find _ (promocodes st)) as [p|];
    cbn [option_map] in Hsame; try discriminate; [|reflexivity].
  injection Hsame as Hsame. rewrite Hsame.
  destruct (check_expiry p now) as [[]|]; reflexivity.
Qed.

Lemma redeem_promo_fst restaurant_id redemption current_user now st :
  fst (redeem_promo restaurant_id redemption current_user now st)
    = match verdict (validate restaurant_id redemption current_user now st) with
      | Returns _ => Returns (PromoRedeemed "Promo redeemed successfully" 10)
      | Raises e => Raises e
      end.
Proof.
  rewrite redeem_promo_unfold.
  destruct (validate _ _ _ _ _) as [[d p]|e]; reflexivity.
Qed.

(** A redemption never uses a code up: what Redeem answers to a call is the
    same after any other redemption (of the same or of another code) as
    before it. *)
Theorem redeem_promo_not_used_up
    restaurant_id redemption current_user now
    restaurant_id' redemption' current_user' now' st :
  fst (redeem_promo restaurant_id' redemption' current_user' now'
         (snd (redeem_promo restaurant_id redemption current_user now st)))
    = fst (redeem_promo restaurant_id' redemption' current_user' now' st).
Proof.
  rewrite !redeem_promo_fst.
  rewrite (validate_verdict restaurant_id' redemption' current_user' now' st
             (snd (redeem_promo restaurant_id redemption current_user now st)));
    [reflexivity|].
  intros post_id. rewrite redeem_promo_unfold.
  destruct (validate restaurant_id redemption current_user now st)
    as [[d p]|e]; [|reflexivity].
  unfold settle. cbn [snd promocodes].
  apply find_update_one_observe; reflexivity.
Qed.

Lemma validate_returns_inv
    restaurant_id redemption current_user now st decrypted promo :
  validate restaurant_id redemption current_user now st
    = Returns (decrypted, promo) ->
  decrypt_promo_code (PromoRedeem.promo_code_encrypted redemption)
    = Returns decrypted /\
  find (fun p => (PromoCode.post_id p =? Decoded.post_id decrypted)%string)
       (promocodes st) = Some promo.
Proof.
  unfold validate.
  destruct (negb _); [discriminate|].
  destruct (decrypt_promo_code _) as [d|e]; cbn [result_bind]; [|discriminate].
  destruct (negb _); [discriminate|].
  destruct (find _ (promocodes st)) as [p|] eqn:Hfind; [|discriminate].
  destruct (check_expiry p now) as [[]|e]; cbn [result_bind]; [|discriminate].
  intros H. injection H as -> ->. auto.
Qed.

(** In a reachable store a successful Redeem appends one Confirmed
    redemption, with the redeemer and the time of the call, to the
    PromoCode record it retrieved, after the redemptions already there; the
    record stays the one found for that post_id. *)
Theorem redeem_promo_records_redemption
    restaurant_id redemption current_user now st response st' :
  reachable st ->
  redeem_promo restaurant_id redemption current_user now st
    = (Returns response, st') ->
  exists decrypted promo,
    decrypt_promo_code (PromoRedeem.promo_code_encrypted redemption)
      = Returns decrypted /\
    find (fun p => (PromoCode.post_id p =? Decoded.post_id decrypted)%string)
         (promocodes st) = Some promo /\
    find (fun p => (PromoCode.post_id p =? Decoded.post_id decrypted)%string)
         (promocodes st')
      = Some (PromoCode.push_redemption
                {| Redemption.redeemer_user_id :=
                     PromoRedeem.redeemer_user_id redemption;
                   Redemption.redeemed_at := now;
                   Redemption.restaurant_confirmation_status := "Confirmed" |}
                promo) /\
    response = PromoRedeemed "Promo redeemed successfully" 10.
Proof.
  intros Hreach Hrun.
  pose proof (promo_ids_fresh _ (reachable_consistent _ Hreach)) as [Hnd _].
  rewrite redeem_promo_unfold in Hrun.
  destruct (validate _ _ _ _ _) as [[d promo]|e] eqn:Hval; [|discriminate].
  injection Hrun as <- <-.
  apply validate_returns_inv in Hval. destruct Hval as [Hdec Hfind].
  exists d, promo. repeat split; try assumption.
  unfold settle. cbn [promocodes].
  rewrite (update_one_by_id PromoCode._id _ _ _ _ Hnd Hfind).
  apply find_update_one; [assumption|].
  apply find_some in Hfind. exact (proj2 Hfind).
Qed.

Lemma sum_points_credit (records : list Loyalty.t) (fresh : Loyalty.t) tx now :
  Loyalty.points fresh = 10 ->
  sum_Z Loyalty.points
    match records with
    | [] => [fresh]
    | l :: rest => Loyalty.credit 10 tx now l :: rest
    end
  = sum_Z Loyalty.points records + 10.
Proof.
  intros Hfresh. destruct records as [|l rest]; cbn; [rewrite Hfresh|]; lia.
Qed.

(** The code an Approve returns can be redeemed right away.  In a reachable
    store, when the caller approves an existing post in its own name, no
    PromoCode was recorded for that post_id before, the offer has no expiry
    date and none of the plain text, the author's id, the restaurant id and
    the post id contains the delimiter, Redeem of the returned code by the
    same restaurant succeeds and adds 10 points to what the post's author
    holds at the restaurant. *)
Theorem approve_then_redeem
    restaurant_id post_id promo current_user now iv st oid post
    redeemer now' :
  reachable st ->
  Payload.user_id current_user = restaurant_id ->
  ObjectId post_id = Some oid ->
  find (fun p => Nat.eqb (Post._id p) oid) (posts st) = Some post ->
  find (fun p => (PromoCode.post_id p =? post_id)%string) (promocodes st)
    = None ->
  PromoApprove.expiry_date promo = None ->
  contains delimiter (PromoApprove.promo_code_plain_text promo) = false ->
  contains delimiter (Post.user_id post) = false ->
  contains delimiter restaurant_id = false ->
  contains delimiter post_id = false ->
  exists code st' st'',
    approve_promo restaurant_id post_id promo current_user now iv st
      = (Returns (PromoApproved "Promo approved" code), st') /\
    redeem_promo restaurant_id
      {| PromoRedeem.promo_code_encrypted := code;
         PromoRedeem.redeemer_user_id := redeemer |} current_user now' st'
      = (Returns (PromoRedeemed "Promo redeemed successfully" 10), st'') /\
    sum_Z Loyalty.points (ledger_of restaurant_id (Post.user_id post) st'')
      = sum_Z Loyalty.points (ledger_of restaurant_id (Post.user_id post) st)
        + 10.
Proof.
  intros Hreach Hactor Hoid Hfind Hnone Hexp Ht Hu Hr Hp.
  pose proof (reachable_consistent _ Hreach) as Hcons.
  destruct (encrypt_promo_code_returns iv
              (PromoApprove.promo_code_plain_text promo)
              (Post.user_id post) restaurant_id post_id "")
    as (code & Hcode & _).
  pose proof (decrypt_promo_code_minted iv _ _ _ _ "" _ Ht Hu Hr Hp eq_refl Hcode)
    as Hdec.
  set (fields := {| Decoded.promo_text := PromoApprove.promo_code_plain_text promo;
                    Decoded.promoter_id := Post.user_id post;
                    Decoded.restaurant_id := restaurant_id;
                    Decoded.post_id := post_id;
                    Decoded.dish_id := "" |}) in Hdec.
  pose (pc := minted restaurant_id post_id promo now post code (next_oid st)).
  pose (st' := snd (approve_promo restaurant_id post_id promo current_user now
                      iv st)).
  assert (Hst' : approve_promo restaurant_id post_id promo current_user now iv st
                 = (Returns (PromoApproved "Promo approved" code), st')).
  { unfold st'. rewrite approve_promo_unfold.
    rewrite (actor_match _ _ Hactor), Hoid, Hfind, Hcode. reflexivity. }
  assert (Hpcs : promocodes st' = (promocodes st ++ [pc])%list).
  { unfold st'. rewrite approve_promo_unfold.
    rewrite (actor_match _ _ Hactor), Hoid, Hfind, Hcode. reflexivity. }
  assert (Hloy : loyalty_points st' = loyalty_points st).
  { unfold st'. rewrite approve_promo_unfold.
    rewrite (actor_match _ _ Hactor), Hoid, Hfind, Hcode. reflexivity. }
  set (redemption := {| PromoRedeem.promo_code_encrypted := code;
                        PromoRedeem.redeemer_user_id := redeemer |}).
  assert (Hval : validate restaurant_id redemption current_user now' st'
                 = Returns (fields, pc)).
  { unfold validate. rewrite (actor_match _ _ Hactor).
    cbn [redemption PromoRedeem.promo_code_encrypted].
    rewrite Hdec. cbn [result_bind fields Decoded.restaurant_id Decoded.post_id].
    rewrite String.eqb_refl. cbn [negb]. rewrite Hpcs.
    rewrite (find_snoc_fresh _ _ pc).
    - unfold check_expiry. cbn [pc minted PromoCode.expiry_date].
      rewrite Hexp. reflexivity.
    - apply find_none_iff. exact Hnone.
    - cbn [pc minted PromoCode.post_id]. apply String.eqb_refl. }
  exists code, st', (settle restaurant_id redemption now' fields pc st').
  split; [exact Hst'|]. split.
  - fold redemption. rewrite redeem_promo_unfold, Hval. reflexivity.
  - assert (Hok : ledger_ids_ok st').
    { apply approve_promo_ledger_ids_ok. exact (ledger_ids_fresh _ Hcons). }
    destruct (settle_ledger restaurant_id redemption now' fields pc st' Hok)
      as [_ Hledger].
    cbn [fields Decoded.promoter_id] in Hledger. rewrite Hledger.
    replace (ledger_of restaurant_id (Post.user_id post) st')
      with (ledger_of restaurant_id (Post.user_id post) st)
      by (unfold ledger_of; now rewrite Hloy).
    apply sum_points_credit. reflexivity.
Qed.

End FlowFacts.

(** ** Authentication *)

Lemma prefix_app (p r : string) : prefix p (p ++ r) = true.
Proof.
  induction p as [|a p IH]; simpl; [destruct r; reflexivity|].
  destruct (ascii_dec a a); [assumption|contradiction].
Qed.

Lemma prefix_split (p s : string) :
  prefix p s = true -> exists r, s = (p ++ r)%string.
Proof.
  revert s. induction p as [|a p IH]; intros s.
  - intros _. now exists s.
  - destruct s as [|b s]; simpl; [discriminate|].
    destruct (ascii_dec a b) as [->|]; [|intros H; discriminate H].
    intros H. destruct (IH s H) as (r & ->). now exists r.
Qed.

Lemma contains_app c (p r : string) :
  contains c (p ++ r) = contains c p || contains c r.
Proof.
  induction p as [|a p IH]; simpl; [reflexivity|].
  destruct (Ascii.eqb a c); [reflexivity|assumption].
Qed.

(** Text without a character of the pattern holds no occurrence of it. *)
Lemma replace_from_absent old new c s :
  contains c old = true ->
  contains c s = false ->
  replace_from old new 0 s = s.
Proof.
  intros Hold. induction s as [|a s IH]; [reflexivity|].
  intros Hs. cbn [replace_from].
  destruct (prefix old (String a s)) eqn:Hp.
  - apply prefix_split in Hp. destruct Hp as (r & Hr).
    rewrite Hr, contains_app, Hold in Hs. discriminate.
  - f_equal. apply IH. simpl in Hs.
    destruct (Ascii.eqb a c); [discriminate|assumption].
Qed.

Lemma replace_from_skip old new (passed rest : string) :
  replace_from old new (String.length passed) (passed ++ rest)
    = replace_from old new 0 rest.
Proof.
  induction passed as [|a passed IH]; simpl; [|assumption].
  destruct rest; reflexivity.
Qed.

(** An occurrence at the very start is replaced and the scan goes on
    behind it. *)
Lemma replace_from_prefix a old new rest :
  replace_from (String a old) new 0 (String a old ++ rest)
    = (new ++ replace_from (String a old) new 0 rest)%string.
Proof.
  cbn [append replace_from].
  change (String a (old ++ rest)) with (String a old ++ rest)%string.
  rewrite prefix_app. cbn [String.length].
  replace (S (String.length old) - 1)%nat with (String.length old) by lia.
  now rewrite replace_from_skip.
Qed.

Lemma str_replace_bearer (token : string) :
  contains " " token = false ->
  str_replace "Bearer " "" ("Bearer " ++ token) = token.
Proof.
  intros H. unfold str_replace.
  rewrite replace_from_prefix. cbn [append].
  now apply (replace_from_absent _ _ " "%char).
Qed.

Example str_replace_examples :
  str_replace "ab" "-" "abcabab" = "-c--"
  /\ str_replace "aa" "b" "aaa" = "ba"
  /\ str_replace "" "-" "abc" = "-a-b-c-"
  /\ str_replace "Bearer " "" "Bearer abc.def" = "abc.def".
Proof. repeat split. Qed.

Section AuthFacts.
Context {C : Credentials}.

Lemma get_current_user_bearer token now :
  contains " " token = false ->
  get_current_user (Some ("Bearer " ++ token)) now = verify_token token now.
Proof.
  intros H. unfold get_current_user.
  change (("Bearer " ++ token =? "")%string) with false.
  rewrite prefix_app. cbn [orb negb]. now rewrite str_replace_bearer.
Qed.

(** Whatever get_current_user refuses, it refuses with HTTP 401: "Not
    authenticated" exactly when the header is missing or does not start
    with "Bearer " (the empty header included), otherwise "Token expired"
    or "Invalid token" from the verification of the token. *)
Theorem get_current_user_refusals authorization now :
  (forall e,
      get_current_user authorization now = Raises e ->
      e = NotAuthenticated \/ e = TokenExpired \/ e = InvalidToken401)
  /\ (get_current_user authorization now = Raises NotAuthenticated <->
      match authorization with
      | None => True
      | Some header => prefix "Bearer " header = false
      end).
Proof.
  unfold get_current_user, verify_token.
  destruct authorization as [header|].
  2:{ split; [intros e H; injection H as <-; auto|tauto]. }
  destruct header as [|a header].
  { split; [intros e H; injection H as <-; auto|]. simpl. tauto. }
  cbn [String.eqb orb].
  destruct (prefix "Bearer " (String a header)); cbn [negb].
  - destruct (jwt_decode _ now); split;
      try (intros e H; inversion H; auto);
      split; discriminate.
  - split; [intros e H; injection H as <-; auto|tauto].
Qed.

(** The header "Bearer <token>" is verified as <token>, and so is
    "Bearer Bearer <token>": every occurrence of "Bearer " is taken out of
    the header (<token> being free of blanks). *)
Theorem get_current_user_strips_bearer token now :
  contains " " token = false ->
  get_current_user (Some ("Bearer " ++ token)) now = verify_token token now
  /\ get_current_user (Some ("Bearer Bearer " ++ token)) now
     = verify_token token now.
Proof.
  intros H. split; [now apply get_current_user_bearer|].
  unfold get_current_user.
  change ("Bearer Bearer " ++ token)%string
    with ("Bearer " ++ ("Bearer " ++ token))%string.
  change (("Bearer " ++ ("Bearer " ++ token) =? "")%string) with false.
  rewrite prefix_app. cbn [orb negb]. unfold str_replace.
  rewrite !replace_from_prefix.
  rewrite (replace_from_absent "Bearer " "" " "%char token eq_refl H).
  reflexivity.
Qed.

(** A token issued by create_token, presented as "Bearer <token>",
    authenticates as the user and user type it was issued for until thirty
    days have passed, and is refused with "Token expired" afterwards (the
    token being free of blanks). *)
Theorem issued_token_authenticates user_id user_type issued now :
  contains " " (create_token user_id user_type issued) = false ->
  (now < issued + thirty_days ->
   get_current_user
     (Some ("Bearer " ++ create_token user_id user_type issued)) now
     = Returns {| Claims.user_id := user_id; Claims.user_type := user_type;
                  Claims.exp := issued + thirty_days |})
  /\ (issued + thirty_days < now ->
      get_current_user
        (Some ("Bearer " ++ create_token user_id user_type issued)) now
        = Raises TokenExpired).
Proof.
  intros H. rewrite (get_current_user_bearer _ now H).
  unfold verify_token, create_token. split; intros Hnow.
  - now rewrite jwt_decode_encode.
  - now rewrite jwt_decode_expired.
Qed.

End AuthFacts.

(** ** Accounts *)

Lemma find_some_of_In {A} (filter : A -> bool) (docs : list A) (x : A) :
  In x docs -> filter x = true -> exists y, find filter docs = Some y.
Proof.
  induction docs as [|a rest IH]; simpl; [intros []|].
  intros [->|H] Hx.
  - rewrite Hx. eauto.
  - destruct (filter a); eauto.
Qed.

Lemma update_one_commute {A} (f1 f2 : A -> bool) (g1 g2 : A -> A) docs :
  (forall d, f1 (g2 d) = f1 d) ->
  (forall d, f2 (g1 d) = f2 d) ->
  (forall d, g1 (g2 d) = g2 (g1 d)) ->
  update_one f1 g1 (update_one f2 g2 docs)
    = update_one f2 g2 (update_one f1 g1 docs).
Proof.
  intros H12 H21 Hc. induction docs as [|a rest IH]; simpl; [reflexivity|].
  destruct (f1 a) eqn:E1, (f2 a) eqn:E2; simpl;
    rewrite ?H12, ?H21, ?E1, ?E2; try reflexivity.
  - now rewrite Hc.
  - now rewrite IH.
Qed.

Lemma In_update_one_inv {A} (filter : A -> bool) (g : A -> A) docs p :
  In p (update_one filter g docs) ->
  exists d, In d docs /\ (p = d \/ p = g d).
Proof.
  induction docs as [|a rest IH]; simpl; [intros []|].
  destruct (filter a); simpl.
  - intros [<-|H]; eauto.
  - intros [<-|H]; [eauto|].
    destruct (IH H) as (d & Hd & Hp). eauto.
Qed.

Section AccountFacts.
Context {L : Library} {C : Credentials}.

(** Once a registration has succeeded, registering again with the same
    email or the same handle is refused with "Email or handle already
    exists" and adds nothing. *)
Theorem register_rejects_duplicates user now salt ub response ub'
    user2 now2 salt2 :
  register user now salt ub = (Returns response, ub') ->
  UserRegister.email user2 = UserRegister.email user
  \/ UserRegister.handle user2 = UserRegister.handle user ->
  register user2 now2 salt2 ub' = (Raises AlreadyExists, ub').
Proof.
  unfold register at 1.
  destruct (find _ (users ub)); [discriminate|].
  intros H Hsame. injection H as _ <-.
  unfold register. cbn [users].
  match goal with
  | |- context [find ?f (?l ++ [?x])] =>
      destruct (find_some_of_In f (l ++ [x]) x) as (y & ->);
        [apply in_or_app; right; now left| |reflexivity]
  end.
  cbn [User.email User.handle].
  destruct Hsame as [<-| <-]; rewrite String.eqb_refl;
    [reflexivity|apply orb_true_r].
Qed.

(** After a successful registration, logging in with the registered email
    and password succeeds: it returns the user id, user type, profile name
    and handle the registration returned, and a token issued for that user
    at the time of the login. *)
Theorem register_then_login user now salt ub response ub' now2 :
  register user now salt ub = (Returns response, ub') ->
  exists token user_id,
    response = Registered token user_id (UserRegister.user_type user)
                 (UserRegister.profile_name user) (UserRegister.handle user)
    /\ token = create_token user_id (UserRegister.user_type user) now
    /\ login {| UserLogin.email := UserRegister.email user;
                UserLogin.password := UserRegister.password user |} now2 ub'
       = Returns (LoggedIn
                    (create_token user_id (UserRegister.user_type user) now2)
                    user_id (UserRegister.user_type user)
                    (UserRegister.profile_name user)
                    (UserRegister.handle user)
                    (UserRegister.avatar_base64 user)).
Proof.
  unfold register.
  destruct (find _ (users ub)) eqn:Hfind; [discriminate|].
  intros H. injection H as <- <-.
  eexists _, _. split; [reflexivity|]. split; [reflexivity|].
  unfold login. cbn [users UserLogin.email UserLogin.password].
  rewrite find_snoc_fresh.
  - cbn [User.password_hash User._id User.user_type User.profile_name
         User.handle User.avatar_base64].
    unfold verify_password, hash_password. rewrite pwd_verify_hash.
    reflexivity.
  - intros d Hd. pose proof (proj1 (find_none_iff _ _) Hfind d Hd) as Hno.
    apply orb_false_elim in Hno. exact (proj1 Hno).
  - cbn [User.email]. apply String.eqb_refl.
Qed.

(** Login answers "Invalid credentials" in exactly two cases, which the
    caller cannot tell apart: no user has the email, or the password does
    not verify against the stored hash. *)
Theorem login_refusal credentials now ub :
  login credentials now ub = Raises InvalidCredentials <->
  find (fun u => (User.email u =? UserLogin.email credentials)%string)
       (users ub) = None
  \/ exists user,
       find (fun u => (User.email u =? UserLogin.email credentials)%string)
            (users ub) = Some user /\
       pwd_verify (UserLogin.password credentials) (User.password_hash user)
         = Some false.
Proof.
  unfold login, verify_password.
  destruct (find _ (users ub)) as [user|].
  2:{ split; [auto|reflexivity]. }
  destruct (pwd_verify _ _) as [[|]|] eqn:Hv; cbn [of_option result_bind negb].
  - split; [discriminate|].
    intros [H|(u & Hu & Hf)]; [discriminate|].
    injection Hu as <-. congruence.
  - split; [intros _; right; eauto|reflexivity].
  - split; [discriminate|].
    intros [H|(u & Hu & Hf)]; [discriminate|].
    injection Hu as <-. congruence.
Qed.

End AccountFacts.

(** ** Following *)

Section FollowFacts.
Context {L : Library} {C : Credentials}.

Lemma with_following_idem x u :
  User.with_following (add_to_set x) (User.with_following (add_to_set x) u)
    = User.with_following (add_to_set x) u.
Proof.
  destruct u. unfold User.with_following. cbn. now rewrite add_to_set_idem.
Qed.

Lemma with_followers_idem x u :
  User.with_followers (add_to_set x) (User.with_followers (add_to_set x) u)
    = User.with_followers (add_to_set x) u.
Proof.
  destruct u. unfold User.with_followers. cbn. now rewrite add_to_set_idem.
Qed.

Lemma update_one_idem {A} (filter : A -> bool) (g : A -> A) docs :
  (forall d, filter (g d) = filter d) ->
  (forall d, g (g d) = g d) ->
  update_one filter g (update_one filter g docs) = update_one filter g docs.
Proof.
  intros Hf Hg. rewrite update_one_twice by assumption.
  apply update_one_ext. intros d _. apply Hg.
Qed.

(** Following a user twice is the same as following once: the second call
    answers as the first and leaves the users as the first left them. *)
Theorem follow_user_idempotent user_id current_user ub :
  follow_user user_id current_user (snd (follow_user user_id current_user ub))
    = follow_user user_id current_user ub.
Proof.
  unfold follow_user.
  destruct (ObjectId (Payload.user_id current_user)) as [o1|] eqn:E1;
    cbn [snd]; [|reflexivity].
  destruct (ObjectId user_id) as [o2|] eqn:E2; cbn [snd users next_user_oid].
  - f_equal. f_equal.
    rewrite (update_one_commute
               (fun u => Nat.eqb (User._id u) o1)
               (fun u => Nat.eqb (User._id u) o2)) by reflexivity.
    rewrite !update_one_idem
      by (try reflexivity; intros;
          first [apply with_following_idem | apply with_followers_idem]).
    reflexivity.
  - f_equal. f_equal.
    apply update_one_idem; [reflexivity|]. intros; apply with_following_idem.
Qed.

(** Unfollow undoes follow: when the caller was not following the user and
    the user did not list the caller as a follower, following and then
    unfollowing gives back the users as they were. *)
Theorem unfollow_user_undoes_follow user_id current_user ub :
  (forall oid u,
      ObjectId (Payload.user_id current_user) = Some oid ->
      find (fun u => Nat.eqb (User._id u) oid) (users ub) = Some u ->
      ~ In user_id (User.following u)) ->
  (forall oid u,
      ObjectId user_id = Some oid ->
      find (fun u => Nat.eqb (User._id u) oid) (users ub) = Some u ->
      ~ In (Payload.user_id current_user) (User.followers u)) ->
  snd (unfollow_user user_id current_user
         (snd (follow_user user_id current_user ub))) = ub.
Proof.
  intros Hfollowing Hfollowers.
  assert (Hundo1 : forall o1,
    ObjectId (Payload.user_id current_user) = Some o1 ->
    update_one (fun u => Nat.eqb (User._id u) o1)
      (User.with_following (pull user_id))
      (update_one (fun u => Nat.eqb (User._id u) o1)
         (User.with_following (add_to_set user_id)) (users ub)) = users ub).
  { intros o1 E1. rewrite update_one_twice by reflexivity.
    apply update_one_fixed. intros u Hu.
    pose proof (Hfollowing o1 u E1 Hu) as Hn.
    destruct u. unfold User.with_following. cbn. f_equal.
    now apply pull_add_to_set. }
  assert (Hundo2 : forall o2,
    ObjectId user_id = Some o2 ->
    update_one (fun u => Nat.eqb (User._id u) o2)
      (User.with_followers (pull (Payload.user_id current_user)))
      (update_one (fun u => Nat.eqb (User._id u) o2)
         (User.with_followers (add_to_set (Payload.user_id current_user)))
         (users ub)) = users ub).
  { intros o2 E2. rewrite update_one_twice by reflexivity.
    apply update_one_fixed. intros u Hu.
    pose proof (Hfollowers o2 u E2 Hu) as Hn.
    destruct u. unfold User.with_followers. cbn. f_equal.
    now apply pull_add_to_set. }
  unfold unfollow_user, follow_user.
  destruct (ObjectId (Payload.user_id current_user)) as [o1|] eqn:E1;
    cbn [snd]; [|reflexivity].
  destruct (ObjectId user_id) as [o2|] eqn:E2; cbn [snd users next_user_oid].
  - rewrite (update_one_commute
               (fun u => Nat.eqb (User._id u) o1)
               (fun u => Nat.eqb (User._id u) o2)
               (User.with_following (pull user_id))) by reflexivity.
    rewrite (Hundo1 o1 eq_refl), (Hundo2 o2 eq_refl).
    destruct ub; reflexivity.
  - rewrite (Hundo1 o1 eq_refl). destruct ub; reflexivity.
Qed.

(** With pairwise distinct object ids: after a successful follow the caller
    lists the user among those it follows and the user lists the caller as
    a follower; after a successful unfollow neither does. *)
Theorem follow_unfollow_membership user_id current_user ub o1 o2 u :
  NoDup (map User._id (users ub)) ->
  ObjectId (Payload.user_id current_user) = Some o1 ->
  ObjectId user_id = Some o2 ->
  (In u (users (snd (follow_user user_id current_user ub))) ->
   (User._id u = o1 -> In user_id (User.following u))
   /\ (User._id u = o2 ->
       In (Payload.user_id current_user) (User.followers u)))
  /\ (In u (users (snd (unfollow_user user_id current_user ub))) ->
      (User._id u = o1 -> ~ In user_id (User.following u))
      /\ (User._id u = o2 ->
          ~ In (Payload.user_id current_user) (User.followers u))).
Proof.
  intros Hnd E1 E2. unfold follow_user, unfollow_user.
  rewrite E1, E2. cbn [snd users next_user_oid].
  split; intros Hin; split; intros Hid.
  - destruct (In_update_one_inv _ _ _ _ Hin) as (d & Hd & Hu).
    assert (Hd1 : User._id d = o1) by (destruct Hu as [->| ->]; exact Hid).
    destruct (In_update_one_by_key User._id o1
                (User.with_following (add_to_set user_id)) (users ub) d
                (fun _ => eq_refl) Hnd Hd Hd1) as (d0 & _ & ->).
    destruct Hu as [->| ->]; apply add_to_set_In.
  - assert (Hnd' : NoDup (map User._id
                       (update_one (fun u => Nat.eqb (User._id u) o1)
                          (User.with_following (add_to_set user_id))
                          (users ub))))
      by (rewrite map_update_one; [assumption|reflexivity]).
    destruct (In_update_one_by_key User._id o2
                (User.with_followers
                   (add_to_set (Payload.user_id current_user)))
                _ u (fun _ => eq_refl) Hnd' Hin Hid) as (d & _ & ->).
    apply add_to_set_In.
  - destruct (In_update_one_inv _ _ _ _ Hin) as (d & Hd & Hu).
    assert (Hd1 : User._id d = o1) by (destruct Hu as [->| ->]; exact Hid).
    destruct (In_update_one_by_key User._id o1
                (User.with_following (pull user_id)) (users ub) d
                (fun _ => eq_refl) Hnd Hd Hd1) as (d0 & _ & ->).
    destruct Hu as [->| ->]; apply pull_not_In.
  - assert (Hnd' : NoDup (map User._id
                       (update_one (fun u => Nat.eqb (User._id u) o1)
                          (User.with_following (pull user_id))
                          (users ub))))
      by (rewrite map_update_one; [assumption|reflexivity]).
    destruct (In_update_one_by_key User._id o2
                (User.with_followers (pull (Payload.user_id current_user)))
                _ u (fun _ => eq_refl) Hnd' Hin Hid) as (d & _ & ->).
    apply pull_not_In.
Qed.

(** Follow is not atomic.  When the caller's own id is well formed and the
    id of the user to follow is not, the call raises InvalidId after the
    first write: the caller's document already lists the malformed id among
    those it follows. *)
Theorem follow_user_malformed_target user_id current_user ub o1 u :
  ObjectId (Payload.user_id current_user) = Some o1 ->
  ObjectId user_id = None ->
  find (fun u => Nat.eqb (User._id u) o1) (users ub) = Some u ->
  fst (follow_user user_id current_user ub) = Raises InvalidId
  /\ exists u',
       find (fun u => Nat.eqb (User._id u) o1)
            (users (snd (follow_user user_id current_user ub))) = Some u' /\
       In user_id (User.following u').
Proof.
  intros E1 E2 Hu. unfold follow_user. rewrite E1, E2. cbn [fst snd users].
  split; [reflexivity|]. eexists. split.
  - apply find_update_one; [exact Hu|].
    apply find_some in Hu. exact (proj2 Hu).
  - apply add_to_set_In.
Qed.

(** Registering, following and unfollowing keep emails, handles and object
    ids pairwise distinct and the follow lists free of repetitions. *)
Theorem accounts_stay_ok user now salt user_id current_user ub :
  accounts_ok ub ->
  accounts_ok (snd (register user now salt ub))
  /\ accounts_ok (snd (follow_user user_id current_user ub))
  /\ accounts_ok (snd (unfollow_user user_id current_user ub)).
Proof.
  intros (He & Hh & Hids & Hl).
  assert (Hupd : forall filter g,
    (forall d, User._id (g d) = User._id d) ->
    (forall d, User.email (g d) = User.email d) ->
    (forall d, User.handle (g d) = User.handle d) ->
    (forall d, NoDup (User.following d) /\ NoDup (User.followers d) ->
               NoDup (User.following (g d)) /\ NoDup (User.followers (g d))) ->
    forall l n,
      accounts_ok {| users := l; next_user_oid := n |} ->
      accounts_ok {| users := update_one filter g l; next_user_oid := n |}).
  { intros filter g H1 H2 H3 H4 l n (A1 & A2 & A3 & A4).
    unfold accounts_ok in *. cbn [users next_user_oid] in *.
    rewrite !map_update_one by assumption.
    repeat split; try assumption; try apply A3.
    now apply Forall_update_one. }
  assert (Hub : accounts_ok {| users := users ub;
                               next_user_oid := next_user_oid ub |})
    by exact (conj He (conj Hh (conj Hids Hl))).
  split; [|split].
  - unfold register.
    destruct (find _ (users ub)) eqn:Hfind;
      [exact (conj He (conj Hh (conj Hids Hl)))|].
    unfold accounts_ok. cbn [snd users next_user_oid].
    rewrite !map_app. cbn [map User.email User.handle User._id].
    repeat split.
    + apply NoDup_snoc; [assumption|]. intros Hin.
      apply in_map_iff in Hin. destruct Hin as (d & Hd & Hin).
      pose proof (proj1 (find_none_iff _ _) Hfind d Hin) as Hno.
      cbn beta in Hno. rewrite Hd, String.eqb_refl in Hno. discriminate.
    + apply NoDup_snoc; [assumption|]. intros Hin.
      apply in_map_iff in Hin. destruct Hin as (d & Hd & Hin).
      pose proof (proj1 (find_none_iff _ _) Hfind d Hin) as Hno.
      cbn beta in Hno. rewrite Hd, String.eqb_refl, orb_true_r in Hno.
      discriminate.
    + apply (ids_fresh_snoc _ _ Hids).
    + apply (ids_fresh_snoc _ _ Hids).
    + apply Forall_app. split; [assumption|].
      constructor; [|constructor]. split; constructor.
  - unfold follow_user.
    destruct (ObjectId (Payload.user_id current_user)); [|exact Hub].
    destruct (ObjectId user_id); cbn [snd users next_user_oid].
    + apply Hupd; try reflexivity.
      * intros d [? ?]. split; [assumption|now apply add_to_set_NoDup].
      * apply Hupd; try reflexivity; [|exact Hub].
        intros d [? ?]. split; [now apply add_to_set_NoDup|assumption].
    + apply Hupd; try reflexivity; [|exact Hub].
      intros d [? ?]. split; [now apply add_to_set_NoDup|assumption].
  - unfold unfollow_user.
    destruct (ObjectId (Payload.user_id current_user)); [|exact Hub].
    destruct (ObjectId user_id); cbn [snd users next_user_oid].
    + apply Hupd; try reflexivity.
      * intros d [? ?]. split; [assumption|now apply pull_NoDup].
      * apply Hupd; try reflexivity; [|exact Hub].
        intros d [? ?]. split; [now apply pull_NoDup|assumption].
    + apply Hupd; try reflexivity; [|exact Hub].
      intros d [? ?]. split; [now apply pull_NoDup|assumption].
Qed.

End FollowFacts.

(** ** Listings *)

Lemma NoDup_map_filter {A B} (key : A -> B) (f : A -> bool) (l : list A) :
  NoDup (map key l) -> NoDup (map key (List.filter f l)).
Proof.
  induction l as [|a l IH]; simpl; [auto|].
  intros Hnd. inversion Hnd as [|x xs Hnotin Hnd']; subst.
  destruct (f a); simpl; [|auto].
  constructor; [|auto]. intros Hin. apply Hnotin.
  apply in_map_iff in Hin. destruct Hin as (d & Hd & Hin).
  apply filter_In in Hin. rewrite <- Hd. apply in_map. tauto.
Qed.

Lemma firstn_In {A} (n : nat) (l : list A) (x : A) :
  In x (firstn n l) -> In x l.
Proof.
  revert n. induction l as [|a l IH]; intros [|n]; simpl; try tauto.
  intros [->|H]; eauto.
Qed.

Lemma NoDup_map_firstn {A B} (key : A -> B) (n : nat) (l : list A) :
  NoDup (map key l) -> NoDup (map key (firstn n l)).
Proof.
  revert n. induction l as [|a l IH]; intros [|n]; simpl; intros Hnd;
    try constructor.
  - inversion Hnd as [|x xs Hnotin Hnd']; subst.
    intros Hin. apply Hnotin.
    apply in_map_iff in Hin. destruct Hin as (d & Hd & Hin).
    rewrite <- Hd. apply in_map. eapply firstn_In. exact Hin.
  - inversion Hnd; subst. now apply IH.
Qed.

(** Where [coarse] tells apart whatever [fine] tells apart. *)
Lemma NoDup_map_coarser {A B C} (fine : A -> B) (coarse : A -> C) (l : list A) :
  (forall a b, In a l -> In b l -> coarse a = coarse b -> fine a = fine b) ->
  NoDup (map fine l) -> NoDup (map coarse l).
Proof.
  induction l as [|a l IH]; simpl; [constructor|].
  intros Hc Hnd. inversion Hnd as [|x xs Hnotin Hnd']; subst.
  constructor.
  - intros Hin. apply Hnotin.
    apply in_map_iff in Hin. destruct Hin as (d & Hd & Hin).
    rewrite <- (Hc d a) by auto. now apply in_map.
  - apply IH; [|assumption]. intros; apply Hc; auto.
Qed.

Lemma pending_for_true restaurant_id p :
  pending_for restaurant_id p = true ->
  PostCreate.restaurant_tagged_id (Post.body p) = Some restaurant_id
  /\ PostCreate.is_promotion_request (Post.body p) = true
  /\ Post.promotion_status p = Pending.
Proof.
  unfold pending_for. intros H.
  apply andb_prop in H. destruct H as [H Hs].
  apply andb_prop in H. destruct H as [Ht Hr].
  destruct (PostCreate.restaurant_tagged_id (Post.body p)) as [tagged|];
    [|discriminate].
  apply String.eqb_eq in Ht. subst tagged.
  repeat split; [assumption|].
  destruct (Post.promotion_status p); try discriminate; reflexivity.
Qed.

Section ListingFacts.
Context {L : Library}.

(** A listing that is returned holds the documents that were found, in
    their order, each under its printed [_id] and with the entry of the
    first user that has the id it names, if there is one. *)
Lemma enrich_returns {A E} (doc_id : A -> nat) (owner : A -> string)
    (entry : User.t -> E) all_users docs items :
  enrich doc_id owner entry all_users docs = Returns items ->
  documents items = docs
  /\ forall id doc user,
       In (id, doc, user) items ->
       id = str_of_oid (doc_id doc)
       /\ exists oid,
            ObjectId (owner doc) = Some oid
            /\ user = option_map entry
                        (find (fun u => Nat.eqb (User._id u) oid) all_users).
Proof.
  revert items. induction docs as [|doc rest IH]; intros items; simpl.
  - intros H. injection H as <-. split; [reflexivity|]. intros ? ? ? [].
  - destruct (ObjectId (owner doc)) as [oid|] eqn:Hoid;
      cbn [of_option result_bind]; [|discriminate].
    destruct (enrich doc_id owner entry all_users rest) as [rest'|e];
      cbn [result_bind]; [|discriminate].
    intros H. injection H as <-.
    destruct (IH rest' eq_refl) as [Hdocs Hitems].
    split; [cbn [documents map fst snd]; f_equal; exact Hdocs|].
    intros id d user [Heq|Hin]; [|eauto].
    injection Heq as <- <- <-. split; [reflexivity|].
    exists oid. split; [assumption|reflexivity].
Qed.

Lemma find_by_id_some (all_users : list User.t) oid u :
  In u all_users -> User._id u = oid ->
  exists first,
    find (fun u => Nat.eqb (User._id u) oid) all_users = Some first.
Proof.
  intros Hin Hid.
  apply (find_some_of_In (fun u => Nat.eqb (User._id u) oid) all_users u Hin).
  rewrite Hid. apply Nat.eqb_refl.
Qed.

(** What get_promo_requests returns: only to the restaurant itself, at
    most 100 posts, each one a post of the store that tags the restaurant,
    is a promotion request and is still Pending; each under its printed
    id; with the profile of its author attached exactly when a user has
    the author's id, the profile being that of the first such user; and
    when no more than 100 such posts exist, all of them. *)
Theorem get_promo_requests_lists_pending
    restaurant_id current_user all_users st items :
  get_promo_requests restaurant_id current_user all_users st = Returns items ->
  Payload.user_id current_user = restaurant_id
  /\ (length items <= 100)%nat
  /\ (forall p, In p (documents items) ->
        In p (posts st)
        /\ PostCreate.restaurant_tagged_id (Post.body p) = Some restaurant_id
        /\ PostCreate.is_promotion_request (Post.body p) = true
        /\ Post.promotion_status p = Pending)
  /\ (forall post_id p user, In (post_id, p, user) items ->
        post_id = str_of_oid (Post._id p)
        /\ exists oid,
             ObjectId (Post.user_id p) = Some oid
             /\ user = option_map requester_entry
                         (find (fun u => Nat.eqb (User._id u) oid) all_users)
             /\ (forall u, In u all_users -> User._id u = oid ->
                           exists e, user = Some e)
             /\ (forall e, user = Some e ->
                   exists u, In u all_users /\ User._id u = oid
                             /\ e = requester_entry u))
  /\ ((length (List.filter (pending_for restaurant_id) (posts st)) <= 100)%nat ->
      forall p, In p (posts st) -> pending_for restaurant_id p = true ->
                In p (documents items)).
Proof.
  unfold get_promo_requests.
  destruct (Payload.user_id current_user =? restaurant_id)%string eqn:Hactor;
    cbn [negb]; [|discriminate].
  apply String.eqb_eq in Hactor.
  intros H. apply enrich_returns in H. destruct H as [Hdocs Hitems].
  split; [assumption|]. split; [|split; [|split]].
  - replace (length items) with (length (documents items))
      by (unfold documents; apply length_map).
    rewrite Hdocs. rewrite length_firstn. lia.
  - intros p Hp. rewrite Hdocs in Hp. apply firstn_In in Hp.
    apply filter_In in Hp. destruct Hp as [Hin Hpend].
    split; [assumption|]. now apply pending_for_true.
  - intros post_id p user Hin.
    destruct (Hitems post_id p user Hin) as (Hid & oid & Hoid & Huser).
    split; [assumption|]. exists oid.
    split; [assumption|]. split; [assumption|]. split.
    + intros u Hu Huid.
      destruct (find_by_id_some all_users oid u Hu Huid) as (first & Hfirst).
      rewrite Huser, Hfirst. cbn [option_map]. eauto.
    + intros e He. rewrite Huser in He.
      destruct (find _ all_users) as [u|] eqn:Hfind; [|discriminate].
      injection He as <-. apply find_some in Hfind.
      destruct Hfind as [Hu Huid]. apply Nat.eqb_eq in Huid. eauto.
  - intros Hfew p Hin Hpend. rewrite Hdocs, (firstn_all2 _ Hfew).
    apply filter_In. auto.
Qed.

Lemma decided_not_listed (decide : Post.t -> Post.t) oid st st' :
  (forall p, Post._id (decide p) = Post._id p) ->
  (forall p, Post.promotion_status (decide p) <> Pending) ->
  NoDup (map Post._id (posts st)) ->
  posts st' = update_one (fun p => Nat.eqb (Post._id p) oid) decide (posts st) ->
  not_listed oid st'.
Proof.
  intros Hid Hstatus Hnd Hposts restaurant_id current_user all_users items
    Hrun p Hp Hoid.
  unfold get_promo_requests in Hrun.
  destruct (negb _); [discriminate|].
  apply enrich_returns in Hrun. destruct Hrun as [Hdocs _].
  rewrite Hdocs in Hp. apply firstn_In in Hp.
  apply filter_In in Hp. destruct Hp as [Hin Hpend].
  rewrite Hposts in Hin.
  destruct (In_update_one_by_key Post._id oid decide (posts st) p Hid Hnd Hin
              Hoid) as (d & _ & ->).
  apply pending_for_true in Hpend. exact (Hstatus d (proj2 (proj2 Hpend))).
Qed.

(** Once a restaurant has approved or rejected a post, in a reachable
    store, no listing of pending requests shows that post any more. *)
Theorem decided_request_not_listed
    restaurant_id post_id promo current_user now iv st oid :
  reachable st ->
  Payload.user_id current_user = restaurant_id ->
  ObjectId post_id = Some oid ->
  (forall answer,
      fst (approve_promo restaurant_id post_id promo current_user now iv st)
        = Returns answer ->
      not_listed oid
        (snd (approve_promo restaurant_id post_id promo current_user now iv st)))
  /\ fst (reject_promo restaurant_id post_id current_user now st)
       = Returns (PromoRejected "Promo rejected")
  /\ not_listed oid (snd (reject_promo restaurant_id post_id current_user now st)).
Proof.
  intros Hreach Hactor Hoid.
  pose proof (post_ids_fresh _ (reachable_consistent _ Hreach)) as [Hnd _].
  split; [|split].
  - intros answer. rewrite approve_promo_unfold.
    rewrite (actor_match _ _ Hactor), Hoid.
    destruct (find _ (posts st)) as [post|]; [|discriminate].
    destruct (encrypt_promo_code _ _ _ _ _ _) as [code|e]; [|discriminate].
    intros _. cbn [snd].
    eapply (decided_not_listed (Post.set_approved _ now) oid st);
      [reflexivity|discriminate|assumption|reflexivity].
  - rewrite reject_promo_unfold.
    now rewrite (actor_match _ _ Hactor), Hoid.
  - rewrite reject_promo_unfold.
    rewrite (actor_match _ _ Hactor), Hoid. cbn [snd].
    eapply (decided_not_listed (Post.set_rejected now) oid st);
      [reflexivity|discriminate|assumption|reflexivity].
Qed.

Lemma listing_length {A E} (items : list (listed A E)) n docs :
  documents items = firstn n docs -> (length items <= n)%nat.
Proof.
  intros H. replace (length items) with (length (documents items))
    by (unfold documents; apply length_map).
  rewrite H, length_firstn. lia.
Qed.

(** The two loyalty listings are returned only to the user they are about
    and hold only that user's records of the store, at most 100; in a
    reachable store a foodie's listing names no restaurant twice and a
    restaurant's listing names no foodie twice. *)
Theorem loyalty_listings_own_records id current_user all_users st :
  reachable st ->
  (forall items,
      get_loyalty_points id current_user all_users st = Returns items ->
      Payload.user_id current_user = id
      /\ (length items <= 100)%nat
      /\ (forall l, In l (documents items) ->
            In l (loyalty_points st) /\ Loyalty.foodie_id l = id)
      /\ NoDup (map Loyalty.restaurant_id (documents items)))
  /\ (forall items,
      get_restaurant_loyalty_points id current_user all_users st
        = Returns items ->
      Payload.user_id current_user = id
      /\ (length items <= 100)%nat
      /\ (forall l, In l (documents items) ->
            In l (loyalty_points st) /\ Loyalty.restaurant_id l = id)
      /\ NoDup (map Loyalty.foodie_id (documents items))).
Proof.
  intros Hreach.
  pose proof (ledger_pairs_distinct _ (reachable_consistent _ Hreach)) as Hnd.
  split; intros items.
  - unfold get_loyalty_points.
    destruct (Payload.user_id current_user =? id)%string eqn:Hactor;
      cbn [negb]; [|discriminate].
    apply String.eqb_eq in Hactor.
    intros H. apply enrich_returns in H. destruct H as [Hdocs _].
    split; [assumption|]. split; [exact (listing_length _ _ _ Hdocs)|].
    rewrite Hdocs.
    assert (Hown : forall l,
      In l (firstn 100 (List.filter
              (fun l => (Loyalty.foodie_id l =? id)%string)
              (loyalty_points st))) ->
      In l (loyalty_points st) /\ Loyalty.foodie_id l = id).
    { intros l Hl. apply firstn_In, filter_In in Hl.
      destruct Hl as [Hin Hk]. apply String.eqb_eq in Hk. auto. }
    split; [exact Hown|].
    apply (NoDup_map_coarser ledger_pair).
    + intros a b Ha Hb Hsame. unfold ledger_pair.
      now rewrite (proj2 (Hown a Ha)), (proj2 (Hown b Hb)), Hsame.
    + apply NoDup_map_firstn, NoDup_map_filter. exact Hnd.
  - unfold get_restaurant_loyalty_points.
    destruct (Payload.user_id current_user =? id)%string eqn:Hactor;
      cbn [negb]; [|discriminate].
    apply String.eqb_eq in Hactor.
    intros H. apply enrich_returns in H. destruct H as [Hdocs _].
    split; [assumption|]. split; [exact (listing_length _ _ _ Hdocs)|].
    rewrite Hdocs.
    assert (Hown : forall l,
      In l (firstn 100 (List.filter
              (fun l => (Loyalty.restaurant_id l =? id)%string)
              (loyalty_points st))) ->
      In l (loyalty_points st) /\ Loyalty.restaurant_id l = id).
    { intros l Hl. apply firstn_In, filter_In in Hl.
      destruct Hl as [Hin Hk]. apply String.eqb_eq in Hk. auto. }
    split; [exact Hown|].
    apply (NoDup_map_coarser ledger_pair).
    + intros a b Ha Hb Hsame. unfold ledger_pair.
      now rewrite (proj2 (Hown a Ha)), (proj2 (Hown b Hb)), Hsame.
    + apply NoDup_map_firstn, NoDup_map_filter. exact Hnd.
Qed.

End ListingFacts.

(** ** Runs with registered users *)

Section CommunityRuns.
Import Community.
#[local] Existing Instance Reference.library.
#[local] Existing Instance ReferenceAuth.credentials.

Ltac by_running := vm_compute; repeat split.

Ltac distinct :=
  repeat (apply NoDup_cons; [simpl; intuition discriminate|]); apply NoDup_nil.

(** How the users and the stores of the community are reached. *)
Example community_runs :
  register alice_form 20240101 salt no_users
    = (Returns (Registered alice_token alice_id "Foodie" "Alice" "alice"),
       one_user)
  /\ fst (register roma_form 20240102 salt one_user)
     = Returns (Registered (create_token roma_id "Restaurant" 20240102)
                  roma_id "Restaurant" "Roma" "roma")
  /\ users (snd (register roma_form 20240102 salt one_user))
     = [alice_doc; roma_doc]
  /\ two_users = {| users := [alice_doc; roma_doc]; next_user_oid := 2 |}
  /\ follow_user roma_id alice two_users
     = (Returns (Message "Followed successfully"), followed)
  /\ create_post (Scenario.request roma_id) alice 20240103 empty_store
     = (Returns (PostCreated post_id "Post created successfully"), requested)
  /\ posts requested = [first_post]
  /\ like_post post_id roma requested = (Returns (Message "Post liked"), liked)
  /\ add_comment post_id "come by" roma 20240104 liked
     = (Returns (Message "Comment added"), commented)
  /\ posts commented = [commented_post]
  /\ approve_promo roma_id post_id (Scenario.offer "SAVE10" None) roma
       20240105 Scenario.iv commented
     = (Returns (PromoApproved "Promo approved" code), approved)
  /\ redeem_promo roma_id (Scenario.present code alice_id) roma 20240110
       approved
     = (Returns (PromoRedeemed "Promo redeemed successfully" 10), settled)
  /\ redeem_promo roma_id (Scenario.present code alice_id) roma 20240111
       settled
     = (Returns (PromoRedeemed "Promo redeemed successfully" 10),
        settled_twice)
  /\ loyalty_points settled_twice = [ledger]
  /\ get_promo_requests roma_id roma (users followed) commented
     = Returns requests.
Proof. by_running. Qed.

Lemma community_reachable :
  reachable requested /\ reachable liked /\ reachable commented
  /\ reachable approved /\ reachable settled /\ reachable settled_twice.
Proof.
  assert (H1 : reachable requested).
  { replace requested
      with (snd (create_post (Scenario.request roma_id) alice 20240103
                   empty_store)) by (vm_compute; reflexivity).
    eapply reachable_step; [apply reachable_empty|apply step_create_post]. }
  assert (H2 : reachable liked).
  { replace liked with (snd (like_post post_id roma requested))
      by (vm_compute; reflexivity).
    eapply reachable_step; [exact H1|apply step_like_post]. }
  assert (H3 : reachable commented).
  { replace commented
      with (snd (add_comment post_id "come by" roma 20240104 liked))
      by (vm_compute; reflexivity).
    eapply reachable_step; [exact H2|apply step_add_comment]. }
  assert (H4 : reachable approved).
  { replace approved
      with (snd (approve_promo roma_id post_id (Scenario.offer "SAVE10" None)
                   roma 20240105 Scenario.iv commented))
      by (vm_compute; reflexivity).
    eapply reachable_step; [exact H3|apply step_approve_promo]. }
  assert (H5 : reachable settled).
  { replace settled
      with (snd (redeem_promo roma_id (Scenario.present code alice_id) roma
                   20240110 approved)) by (vm_compute; reflexivity).
    eapply reachable_step; [exact H4|apply step_redeem_promo]. }
  assert (H6 : reachable settled_twice).
  { replace settled_twice
      with (snd (redeem_promo roma_id (Scenario.present code alice_id) roma
                   20240111 settled)) by (vm_compute; reflexivity).
    eapply reachable_step; [exact H5|apply step_redeem_promo]. }
  auto 10.
Qed.

Lemma two_users_ok : accounts_ok two_users.
Proof.
  unfold accounts_ok, ids_fresh. cbn.
  repeat split; try distinct.
  - repeat constructor.
  - repeat constructor.
Qed.

Lemma reachable_ledger_unique_witness :
  (length (ledger_of roma_id alice_id settled_twice) <= 1)%nat.
Proof.
  apply (reachable_ledger_unique settled_twice roma_id alice_id).
  apply community_reachable.
Defined.

Lemma reachable_ledger_balanced_witness :
  Loyalty.points ledger = 10 * Z.of_nat (length (Loyalty.transactions ledger))
  /\ Loyalty.points ledger
     = sum_Z Transaction.amount (Loyalty.transactions ledger)
  /\ forall t, In t (Loyalty.transactions ledger) ->
               Transaction.amount t = 10 /\ Transaction.type t = "Earned".
Proof.
  apply (reachable_ledger_balanced settled_twice ledger).
  - apply community_reachable.
  - left. reflexivity.
Defined.

Lemma reachable_points_conserved_witness :
  sum_Z Loyalty.points (loyalty_points settled_twice)
    = 10 * sum_Z (fun pc => Z.of_nat (length (PromoCode.redemptions pc)))
                 (promocodes settled_twice).
Proof.
  apply (reachable_points_conserved settled_twice).
  apply community_reachable.
Defined.

Lemma reachable_promo_references_witness :
  (forall p s,
      In p (posts settled_twice) -> Post.promo_code_id p = Some s ->
      exists pc, In pc (promocodes settled_twice) /\
                 s = str_of_oid (PromoCode._id pc) /\
                 ObjectId (PromoCode.post_id pc) = Some (Post._id p) /\
                 PromoCode.promoter_foodie_id pc = Post.user_id p)
  /\ (forall pc,
      In pc (promocodes settled_twice) ->
      exists p, In p (posts settled_twice) /\
                ObjectId (PromoCode.post_id pc) = Some (Post._id p) /\
                PromoCode.promoter_foodie_id pc = Post.user_id p).
Proof.
  apply (reachable_promo_references settled_twice).
  apply community_reachable.
Defined.

Lemma unlike_post_undoes_like_witness :
  snd (unlike_post post_id alice (snd (like_post post_id alice commented)))
    = commented.
Proof.
  apply (unlike_post_undoes_like post_id alice commented).
  intros oid p Hoid Hfind.
  vm_compute in Hoid. injection Hoid as <-.
  vm_compute in Hfind. injection Hfind as <-.
  vm_compute. intros [H|[]]. discriminate H.
Defined.

Lemma like_unlike_membership_witness :
  (In (post_with_likes (add_to_set alice_id) commented_post)
      (posts (snd (like_post post_id alice commented))) ->
   In alice_id
      (Post.likes (post_with_likes (add_to_set alice_id) commented_post)))
  /\ (In (post_with_likes (add_to_set alice_id) commented_post)
         (posts (snd (unlike_post post_id alice commented))) ->
      ~ In alice_id
          (Post.likes (post_with_likes (add_to_set alice_id) commented_post))).
Proof.
  apply (like_unlike_membership post_id alice commented 0%nat
           (post_with_likes (add_to_set alice_id) commented_post)).
  - apply community_reachable.
  - reflexivity.
  - reflexivity.
Defined.

Lemma add_comment_appends_witness :
  fst (add_comment post_id "come by" roma 20240104 liked)
    = Returns (Message "Comment added")
  /\ (forall p,
      find (fun p => Nat.eqb (Post._id p) 0) (posts liked) = Some p ->
      exists p',
        find (fun p => Nat.eqb (Post._id p) 0)
             (posts (snd (add_comment post_id "come by" roma 20240104 liked)))
          = Some p' /\
        Post.comments p'
          = (Post.comments p
               ++ [(Payload.user_id roma, "come by", 20240104)])%list
        /\ Post.likes p' = Post.likes p)
  /\ (find (fun p => Nat.eqb (Post._id p) 0) (posts liked) = None ->
      snd (add_comment post_id "come by" roma 20240104 liked) = liked).
Proof.
  apply (add_comment_appends post_id "come by" roma 20240104 liked 0%nat).
  reflexivity.
Defined.

Lemma create_post_then_find_witness :
  exists new_id oid p,
    fst (create_post (Scenario.request roma_id) alice 20240106 approved)
      = Returns (PostCreated new_id "Post created successfully") /\
    ObjectId new_id = Some oid /\
    find (fun p => Nat.eqb (Post._id p) oid)
         (posts (snd (create_post (Scenario.request roma_id) alice 20240106
                        approved))) = Some p /\
    Post.body p = Scenario.request roma_id /\
    Post.user_id p = Payload.user_id alice /\
    Post.promotion_status p
      = (if PostCreate.is_promotion_request (Scenario.request roma_id)
         then Pending else NA) /\
    Post.likes p = [] /\ Post.comments p = [] /\ Post.promo_code_id p = None.
Proof.
  apply (create_post_then_find (Scenario.request roma_id) alice 20240106
           approved).
  - apply community_reachable.
  - vm_compute. reflexivity.
Defined.

Lemma redeem_promo_records_redemption_witness :
  exists decrypted promo,
    decrypt_promo_code
      (PromoRedeem.promo_code_encrypted (Scenario.present code alice_id))
      = Returns decrypted /\
    find (fun p => (PromoCode.post_id p =? Decoded.post_id decrypted)%string)
         (promocodes approved) = Some promo /\
    find (fun p => (PromoCode.post_id p =? Decoded.post_id decrypted)%string)
         (promocodes settled)
      = Some (PromoCode.push_redemption
                {| Redemption.redeemer_user_id :=
                     PromoRedeem.redeemer_user_id
                       (Scenario.present code alice_id);
                   Redemption.redeemed_at := 20240110;
                   Redemption.restaurant_confirmation_status := "Confirmed" |}
                promo) /\
    PromoRedeemed "Promo redeemed successfully" 10
      = PromoRedeemed "Promo redeemed successfully" 10.
Proof.
  apply (redeem_promo_records_redemption roma_id
           (Scenario.present code alice_id) roma 20240110 approved
           (PromoRedeemed "Promo redeemed successfully" 10) settled).
  - apply community_reachable.
  - vm_compute. reflexivity.
Defined.

Lemma approve_then_redeem_witness :
  exists minted_code st' st'',
    approve_promo roma_id post_id (Scenario.offer "SAVE10" None) roma 20240105
      Scenario.iv commented
      = (Returns (PromoApproved "Promo approved" minted_code), st') /\
    redeem_promo roma_id
      {| PromoRedeem.promo_code_encrypted := minted_code;
         PromoRedeem.redeemer_user_id := alice_id |} roma 20240110 st'
      = (Returns (PromoRedeemed "Promo redeemed successfully" 10), st'') /\
    sum_Z Loyalty.points
      (ledger_of roma_id (Post.user_id commented_post) st'')
      = sum_Z Loyalty.points
          (ledger_of roma_id (Post.user_id commented_post) commented)
        + 10.
Proof.
  apply (approve_then_redeem roma_id post_id (Scenario.offer "SAVE10" None)
           roma 20240105 Scenario.iv commented 0%nat commented_post alice_id
           20240110).
  - apply community_reachable.
  - reflexivity.
  - reflexivity.
  - reflexivity.
  - reflexivity.
  - reflexivity.
  - reflexivity.
  - reflexivity.
  - reflexivity.
  - reflexivity.
Defined.

Lemma get_current_user_strips_bearer_witness :
  get_current_user (Some ("Bearer " ++ alice_token)) 20240115
    = verify_token alice_token 20240115
  /\ get_current_user (Some ("Bearer Bearer " ++ alice_token)) 20240115
     = verify_token alice_token 20240115.
Proof.
  apply (get_current_user_strips_bearer alice_token 20240115).
  reflexivity.
Defined.

Lemma issued_token_authenticates_witness :
  get_current_user
    (Some ("Bearer " ++ create_token alice_id "Foodie" 20240101)) 20240115
    = Returns {| Claims.user_id := alice_id; Claims.user_type := "Foodie";
                 Claims.exp := 20240101 + thirty_days |}
  /\ get_current_user
       (Some ("Bearer " ++ create_token alice_id "Foodie" 20240101)) 20240201
     = Raises TokenExpired.
Proof.
  split.
  - apply (issued_token_authenticates alice_id "Foodie" 20240101 20240115);
      reflexivity.
  - apply (issued_token_authenticates alice_id "Foodie" 20240101 20240201);
      reflexivity.
Defined.

Lemma register_rejects_duplicates_witness :
  register alice_form 20240105 salt one_user = (Raises AlreadyExists, one_user).
Proof.
  apply (register_rejects_duplicates alice_form 20240101 salt no_users
           (Registered alice_token alice_id "Foodie" "Alice" "alice")
           one_user alice_form 20240105 salt).
  - vm_compute. reflexivity.
  - left. reflexivity.
Defined.

Lemma register_then_login_witness :
  exists token user_id,
    Registered alice_token alice_id "Foodie" "Alice" "alice"
      = Registered token user_id (UserRegister.user_type alice_form)
          (UserRegister.profile_name alice_form)
          (UserRegister.handle alice_form)
    /\ token = create_token user_id (UserRegister.user_type alice_form) 20240101
    /\ login {| UserLogin.email := UserRegister.email alice_form;
                UserLogin.password := UserRegister.password alice_form |}
             20240110 one_user
       = Returns (LoggedIn
                    (create_token user_id (UserRegister.user_type alice_form)
                       20240110)
                    user_id (UserRegister.user_type alice_form)
                    (UserRegister.profile_name alice_form)
                    (UserRegister.handle alice_form)
                    (UserRegister.avatar_base64 alice_form)).
Proof.
  apply (register_then_login alice_form 20240101 salt no_users
           (Registered alice_token alice_id "Foodie" "Alice" "alice")
           one_user 20240110).
  vm_compute. reflexivity.
Defined.

Lemma unfollow_user_undoes_follow_witness :
  snd (unfollow_user roma_id alice (snd (follow_user roma_id alice two_users)))
    = two_users.
Proof.
  apply (unfollow_user_undoes_follow roma_id alice two_users).
  - intros oid u Hoid Hfind.
    vm_compute in Hoid. injection Hoid as <-.
    vm_compute in Hfind. injection Hfind as <-.
    vm_compute. intros [].
  - intros oid u Hoid Hfind.
    vm_compute in Hoid. injection Hoid as <-.
    vm_compute in Hfind. injection Hfind as <-.
    vm_compute. intros [].
Defined.

Lemma follow_unfollow_membership_witness :
  (In (User.with_following (add_to_set roma_id) alice_doc)
      (users (snd (follow_user roma_id alice two_users))) ->
   (User._id (User.with_following (add_to_set roma_id) alice_doc) = 0%nat ->
    In roma_id
       (User.following (User.with_following (add_to_set roma_id) alice_doc)))
   /\ (User._id (User.with_following (add_to_set roma_id) alice_doc) = 1%nat ->
       In (Payload.user_id alice)
          (User.followers
             (User.with_following (add_to_set roma_id) alice_doc))))
  /\ (In (User.with_following (add_to_set roma_id) alice_doc)
         (users (snd (unfollow_user roma_id alice two_users))) ->
      (User._id (User.with_following (add_to_set roma_id) alice_doc) = 0%nat ->
       ~ In roma_id
           (User.following
              (User.with_following (add_to_set roma_id) alice_doc)))
      /\ (User._id (User.with_following (add_to_set roma_id) alice_doc)
            = 1%nat ->
          ~ In (Payload.user_id alice)
              (User.followers
                 (User.with_following (add_to_set roma_id) alice_doc)))).
Proof.
  apply (follow_unfollow_membership roma_id alice two_users 0%nat 1%nat
           (User.with_following (add_to_set roma_id) alice_doc)).
  - cbn. distinct.
  - reflexivity.
  - reflexivity.
Defined.

Lemma follow_user_malformed_target_witness :
  fst (follow_user "roma" alice two_users) = Raises InvalidId
  /\ exists u',
       find (fun u => Nat.eqb (User._id u) 0)
            (users (snd (follow_user "roma" alice two_users))) = Some u' /\
       In "roma" (User.following u').
Proof.
  apply (follow_user_malformed_target "roma" alice two_users 0%nat alice_doc).
  - reflexivity.
  - reflexivity.
  - reflexivity.
Defined.

Lemma accounts_stay_ok_witness :
  accounts_ok (snd (register roma_form 20240105 salt two_users))
  /\ accounts_ok (snd (follow_user roma_id alice two_users))
  /\ accounts_ok (snd (unfollow_user roma_id alice two_users)).
Proof.
  apply (accounts_stay_ok roma_form 20240105 salt roma_id alice two_users).
  apply two_users_ok.
Defined.

Lemma get_promo_requests_lists_pending_witness :
  Payload.user_id roma = roma_id
  /\ (length requests <= 100)%nat
  /\ (forall p, In p (documents requests) ->
        In p (posts commented)
        /\ PostCreate.restaurant_tagged_id (Post.body p) = Some roma_id
        /\ PostCreate.is_promotion_request (Post.body p) = true
        /\ Post.promotion_status p = Pending)
  /\ (forall listed_id p user, In (listed_id, p, user) requests ->
        listed_id = str_of_oid (Post._id p)
        /\ exists oid,
             ObjectId (Post.user_id p) = Some oid
             /\ user = option_map requester_entry
                         (find (fun u => Nat.eqb (User._id u) oid)
                               (users followed))
             /\ (forall u, In u (users followed) -> User._id u = oid ->
                           exists e, user = Some e)
             /\ (forall e, user = Some e ->
                   exists u, In u (users followed) /\ User._id u = oid
                             /\ e = requester_entry u))
  /\ ((length (List.filter (pending_for roma_id) (posts commented)) <= 100)%nat ->
      forall p, In p (posts commented) -> pending_for roma_id p = true ->
                In p (documents requests)).
Proof.
  apply (get_promo_requests_lists_pending roma_id roma (users followed)
           commented requests).
  vm_compute. reflexivity.
Defined.

Lemma decided_request_not_listed_witness :
  (forall answer,
      fst (approve_promo roma_id post_id (Scenario.offer "SAVE10" None) roma
             20240105 Scenario.iv commented) = Returns answer ->
      not_listed 0
        (snd (approve_promo roma_id post_id (Scenario.offer "SAVE10" None) roma
                20240105 Scenario.iv commented)))
  /\ fst (reject_promo roma_id post_id roma 20240105 commented)
       = Returns (PromoRejected "Promo rejected")
  /\ not_listed 0 (snd (reject_promo roma_id post_id roma 20240105 commented)).
Proof.
  apply (decided_request_not_listed roma_id post_id
           (Scenario.offer "SAVE10" None) roma 20240105 Scenario.iv commented
           0%nat).
  - apply community_reachable.
  - reflexivity.
  - reflexivity.
Defined.

Lemma loyalty_listings_own_records_witness :
  (forall items,
      get_loyalty_points alice_id alice (users followed) settled_twice
        = Returns items ->
      Payload.user_id alice = alice_id
      /\ (length items <= 100)%nat
      /\ (forall l, In l (documents items) ->
            In l (loyalty_points settled_twice)
            /\ Loyalty.foodie_id l = alice_id)
      /\ NoDup (map Loyalty.restaurant_id (documents items)))
  /\ (forall items,
      get_restaurant_loyalty_points alice_id alice (users followed)
        settled_twice = Returns items ->
      Payload.user_id alice = alice_id
      /\ (length items <= 100)%nat
      /\ (forall l, In l (documents items) ->
            In l (loyalty_points settled_twice)
            /\ Loyalty.restaurant_id l = alice_id)
      /\ NoDup (map Loyalty.foodie_id (documents items))).
Proof.
  apply (loyalty_listings_own_records alice_id alice (users followed)
           settled_twice).
  apply community_reachable.
Defined.

End CommunityRuns.
